(** * Bypass Subtitles: the captioning pipeline of the browser extension

    A shallow embedding of the extension's three scripts and the properties
    its specification states about them:

    - [content.js]: sample capture, the adaptive send interval, the two
      dispatch paths (runtime message and WebSocket);
    - [background.js]: the translation context, proxied and direct
      processing, the base64 to WAV conversion;
    - [DataSyncService.js]: the consent-gated sync and the IndexedDB
      subtitle store.

    Numbers.  JavaScript numbers are IEEE doubles.  Integral quantities
    (millisecond clocks, periods, sample values, byte values) are modelled
    in [Z]; the fractional ones (captured samples, the video clock, the
    factors 0.8 and 0.3) are rationals in [Q].  An operation whose result
    the machine rounds is either exact on its operands, and the definition
    says why, or is followed by [roundDouble].

    Strings.  A string is a sequence of code units below 256.

    Asynchrony.  Every handler runs to completion between two suspension
    points; what a suspended call returns (a clock reading, a fetch outcome,
    a reply of the background script) is an explicit argument, and what a
    handler emits (messages, requests) is an explicit output. *)

From Stdlib Require Import ZArith QArith Qminmax String Ascii List Lia DecimalString.
From Stdlib Require Import Sorted.
From stdpp Require Import gmap strings list fin_maps.

Open Scope Z_scope.

(* ===================================================================== *)
(** * Part I: the program *)
(* ===================================================================== *)

(** ** JavaScript values shared by the three scripts *)

(** [!!s] for a value that is a string, [null] or [undefined]. *)
Definition truthy (v : option string) : bool :=
  match v with
  | Some s => negb (String.eqb s EmptyString)
  | None => false
  end.

(** [a || b] on such values. *)
Definition or_else (v : option string) (d : string) : string :=
  if truthy v then default d v else d.

(** [a < b] on numbers. *)
Definition Qlt_bool (a b : Q) : bool := negb (Qle_bool b a).

(** The integral part of a finite number (ECMAScript [truncate]). *)
Definition Qtrunc (v : Q) : Z := Z.quot (Qnum v) (Z.pos (Qden v)).

(** Storing a finite number into an [Int16Array] element (ECMAScript
    [ToInt16]): truncate, then wrap modulo 2^16 into the signed range. *)
Definition ToInt16 (v : Q) : Z := (Qtrunc v + 32768) mod 65536 - 32768.

(** The integer nearest to [n / d], for [d > 0]; of two that are equally
    near, the even one. *)
Definition roundHalfEven (n d : Z) : Z :=
  let q := n / d in
  match 2 * (n mod d) ?= d with
  | Lt => q
  | Gt => q + 1
  | Eq => if Z.even q then q else q + 1
  end.

(** [a / d] divided by [2 ^ e], as a fraction. *)
Definition scaleDown (a d e : Z) : Z * Z :=
  if 0 <=? e then (a, d * 2 ^ e) else (a * 2 ^ (- e), d).

(** The [e] with [2 ^ e <= a / d < 2 ^ (e + 1)], for [a > 0] and [d > 0]. *)
Definition binade (a d : Z) : Z :=
  let e := Z.log2 a - Z.log2 d in
  let '(n, m) := scaleDown a d e in
  if n <? m then e - 1 else e.

(** The double nearest to a rational, ties to even: a significand of 53
    bits, of fewer below [2 ^ -1022].  The exponent is not bounded above:
    where the machine gives an infinity this gives a number beyond every
    double, which compares with the doubles as the infinity does. *)
Definition roundDouble (x : Q) : Q :=
  let n := Qnum x in
  let d := Z.pos (Qden x) in
  if n =? 0 then 0%Q
  else
    let a := Z.abs n in
    let e := Z.max (binade a d - 52) (-1074) in
    let '(sn, sd) := scaleDown a d e in
    let m := Z.sgn n * roundHalfEven sn sd in
    if 0 <=? e then inject_Z (m * 2 ^ e)
    else Qmake m (Z.to_pos (2 ^ (- e))).

(** ** content.js *)

Definition AUDIO_CHUNK_DURATION_MS : Z := 3000.
Definition SAMPLE_RATE : Z := 16000.
Definition MAX_LAG_MS : Z := 5000.

Inductive ReadyState := CONNECTING | OPEN | CLOSING | CLOSED.

Record Settings := mkSettings {
  sourceLang : string;
  targetLang : string;
  showOriginal : bool;
  apiMode : string;
  groqApiKey : string
}.

(** The module-level variables of the content script.  [activeVideo] keeps
    the one field the dispatch code reads, [currentTime] (seconds);
    [websocket] keeps the socket's [readyState]; [sendInterval] keeps the
    period of the registered timer. *)
Record Content := mkContent {
  isEnabled : bool;
  activeVideo : option Q;
  websocket : option ReadyState;
  audioChunks : list (list Z);
  sendInterval : option Z;
  currentChunkDuration : Z;
  lastProcessingTime : Z;
  lagAccumulator : Z;
  currentSettings : Settings
}.

Definition defaultSettings : Settings :=
  mkSettings "auto" "vi" true "groq" EmptyString.

Definition initialContent : Content :=
  mkContent false None None [] None AUDIO_CHUNK_DURATION_MS 0 0 defaultSettings.

Definition set_audioChunks (c : list (list Z)) (st : Content) : Content :=
  mkContent (isEnabled st) (activeVideo st) (websocket st) c (sendInterval st)
    (currentChunkDuration st) (lastProcessingTime st) (lagAccumulator st)
    (currentSettings st).

Definition set_sendInterval (p : option Z) (st : Content) : Content :=
  mkContent (isEnabled st) (activeVideo st) (websocket st) (audioChunks st) p
    (currentChunkDuration st) (lastProcessingTime st) (lagAccumulator st)
    (currentSettings st).

Definition set_currentChunkDuration (d : Z) (st : Content) : Content :=
  mkContent (isEnabled st) (activeVideo st) (websocket st) (audioChunks st)
    (sendInterval st) d (lastProcessingTime st) (lagAccumulator st)
    (currentSettings st).

Definition set_lastProcessingTime (t : Z) (st : Content) : Content :=
  mkContent (isEnabled st) (activeVideo st) (websocket st) (audioChunks st)
    (sendInterval st) (currentChunkDuration st) t (lagAccumulator st)
    (currentSettings st).

Definition set_lagAccumulator (a : Z) (st : Content) : Content :=
  mkContent (isEnabled st) (activeVideo st) (websocket st) (audioChunks st)
    (sendInterval st) (currentChunkDuration st) (lastProcessingTime st) a
    (currentSettings st).

(** *** Capture: [audioProcessor.onaudioprocess] *)

(** One element of the loop body:
    [int16Data[i] = Math.max(-32768, Math.min(32767, inputData[i] * 32768))].
    The input is a [Float32Array] element; its product with 2^15 is exact in
    double precision, so the rational product is the number JavaScript
    computes. *)
Definition clampSample (x : Q) : Q :=
  Qmax (-32768) (Qmin 32767 (x * 32768)).

Definition encodeSample (x : Q) : Z := ToInt16 (clampSample x).

Definition onaudioprocess (inputData : list Q) (st : Content) : Content :=
  if negb (isEnabled st) then st
  else set_audioChunks (audioChunks st ++ [map encodeSample inputData]) st.

(** *** The adaptive send interval *)

Definition restartSendInterval (st : Content) : Content :=
  set_sendInterval (Some (currentChunkDuration st)) st.

(** [adaptChunkSize(processingTime)].  Both operands of each comparison are
    an integer and an integer multiplied by 0.8 (or 0.3); the double product
    is within 2^-53 relative of the exact one and is exact when the exact
    product is an integer, so the comparison with an integer has the same
    outcome in [Q]. *)
Definition adaptChunkSize (processingTime : Z) (st : Content) : Content :=
  let threshold := (inject_Z (currentChunkDuration st) * 0.8)%Q in
  if Qlt_bool threshold (inject_Z processingTime)
     && (currentChunkDuration st <? 6000)
  then
    restartSendInterval
      (set_currentChunkDuration (Z.min 6000 (currentChunkDuration st + 500)) st)
  else if Qlt_bool (inject_Z processingTime)
            (inject_Z (currentChunkDuration st) * 0.3)%Q
          && (2000 <? currentChunkDuration st)
  then
    restartSendInterval
      (set_currentChunkDuration (Z.max 2000 (currentChunkDuration st - 500)) st)
  else st.

(** *** Dispatch *)

(** The message of [chrome.runtime.sendMessage] in [sendToGroqAPI]. *)
Record TranscribeRequest := mkTranscribeRequest {
  tr_audio : string;
  tr_apiKey : string;
  tr_sourceLang : string;
  tr_targetLang : string;
  tr_showOriginal : bool
}.

(** The JSON text of [websocket.send] in [sendToLocalBackend]. *)
Record SocketPayload := mkSocketPayload {
  sp_audio : string;
  sp_sourceLang : string;
  sp_targetLang : string;
  sp_showOriginal : bool;
  sp_videoTime : Q
}.

(** The JSON object that travels back to the content script: the body of
    the proxy's response, the result of a handler, or [{error}].  A field
    that is absent is [None]. *)
Record Reply := mkReply {
  reply_error : option string;
  reply_detail : option string;
  reply_text : option string;
  reply_original : option string;
  reply_translated : option string;
  reply_provider : option string
}.

(** What a dispatch does to the outside. *)
Inductive Effect :=
| RuntimeSendMessage (m : TranscribeRequest)
| WebSocketSend (p : SocketPayload)
| HandleTranscription (r : Reply).

(** Is the effect a call that leaves the content script for a backend? *)
Definition isNetworkCall (e : Effect) : bool :=
  match e with
  | RuntimeSendMessage _ | WebSocketSend _ => true
  | HandleTranscription _ => false
  end.

(** [sendToGroqAPI(base64Audio, videoTime)].  [nowStart], [nowCheck] and
    [nowDone] are the three readings of [Date.now()]; [reply] is what
    [chrome.runtime.sendMessage] resolves to, [None] when it rejects (the
    [catch] logs and returns).  The product [videoTime * 1000] and the
    difference are rounded as the machine rounds them. *)
Definition sendToGroqAPI (base64Audio : string) (videoTime : Q)
    (nowStart nowCheck nowDone : Z) (reply : option Reply) (st : Content)
    : Content * list Effect :=
  let startTime := nowStart in
  let chunkAge :=
    roundDouble (inject_Z nowCheck - roundDouble (videoTime * 1000))%Q in
  if Qlt_bool (inject_Z MAX_LAG_MS) chunkAge then
    (set_lagAccumulator 0 st, [])
  else
    let msg := mkTranscribeRequest base64Audio
                 (groqApiKey (currentSettings st))
                 (sourceLang (currentSettings st))
                 (targetLang (currentSettings st))
                 (showOriginal (currentSettings st)) in
    match reply with
    | None => (st, [RuntimeSendMessage msg])
    | Some response =>
        let processingTime := nowDone - startTime in
        let st1 := adaptChunkSize processingTime
                     (set_lastProcessingTime processingTime st) in
        if truthy (reply_error response)
        then (st1, [RuntimeSendMessage msg])
        else (st1, [RuntimeSendMessage msg; HandleTranscription response])
    end.

(** [sendToLocalBackend(base64Audio, videoTime)]. *)
Definition sendToLocalBackend (base64Audio : string) (videoTime : Q)
    (st : Content) : Content * list Effect :=
  match websocket st with
  | Some OPEN =>
      (st, [WebSocketSend
              (mkSocketPayload base64Audio
                 (sourceLang (currentSettings st))
                 (targetLang (currentSettings st))
                 (showOriginal (currentSettings st))
                 videoTime)])
  | _ => (st, [])
  end.

(** *** Binary data: typed arrays, binary strings, base64 *)

(** An [ArrayBuffer] or [Uint8Array] is a list of bytes in [0, 256).  A
    binary string (every code unit below 256) is a [string]: [ascii] has
    exactly the 256 code units such a string can hold. *)
Definition fromCharCode (b : Z) : ascii := ascii_of_N (Z.to_N (b mod 256)).
Definition charCodeAt (c : ascii) : Z := Z.of_N (N_of_ascii c).

Definition binaryString (bytes : list Z) : string :=
  string_of_list_ascii (map fromCharCode bytes).
Definition charCodes (s : string) : list Z :=
  map charCodeAt (list_ascii_of_string s).

(** The two bytes of a 16-bit element, low byte first. *)
Definition int16Bytes (v : Z) : list Z := [v mod 256; (v / 256) mod 256].

(** The signed 16-bit value of two bytes, low byte first. *)
Definition int16OfBytes (lo hi : Z) : Z :=
  let u := lo + 256 * hi in
  if u <? 32768 then u else u - 65536.

(** Typed arrays use the byte order of the host.  [hostLE] says whether
    the host is little-endian; the content script and the background script
    run in the same browser, hence on the same host. *)
Definition hostOrder (hostLE : bool) (bs : list Z) : list Z :=
  if hostLE then bs else rev bs.

(** [int16Array.buffer]: the bytes behind an [Int16Array]. *)
Definition bufferOfInt16Array (hostLE : bool) (a : list Z) : list Z :=
  flat_map (fun v => hostOrder hostLE (int16Bytes v)) a.

(** [new Int16Array(buffer)]: a [RangeError] when the byte length is odd. *)
Fixpoint newInt16Array (hostLE : bool) (buffer : list Z) : option (list Z) :=
  match buffer with
  | [] => Some []
  | b0 :: b1 :: rest =>
      match newInt16Array hostLE rest with
      | Some a =>
          Some ((if hostLE then int16OfBytes b0 b1 else int16OfBytes b1 b0) :: a)
      | None => None
      end
  | [_] => None
  end.

Definition BASE64_ALPHABET : string :=
  "ABCDEFGHIJKLMNOPQRSTUVWXYZabcdefghijklmnopqrstuvwxyz0123456789+/".

Definition PAD : ascii := "="%char.

(** The character of a 6-bit value. *)
Definition base64Char (i : Z) : ascii :=
  nth (Z.to_nat i) (list_ascii_of_string BASE64_ALPHABET) PAD.

Fixpoint indexOf (c : ascii) (l : list ascii) (i : Z) : option Z :=
  match l with
  | [] => None
  | x :: r => if Ascii.eqb x c then Some i else indexOf c r (i + 1)
  end.

(** The 6-bit value of a character of the alphabet. *)
Definition base64Index (c : ascii) : option Z :=
  indexOf c (list_ascii_of_string BASE64_ALPHABET) 0.

(** [btoa] on the code units of a binary string: three bytes give four
    characters, one or two trailing bytes are padded with [=]. *)
Fixpoint btoaCodes (l : list Z) : list ascii :=
  match l with
  | [] => []
  | [a] =>
      [base64Char (a / 4); base64Char ((a mod 4) * 16); PAD; PAD]
  | [a; b] =>
      [base64Char (a / 4); base64Char ((a mod 4) * 16 + b / 16);
       base64Char ((b mod 16) * 4); PAD]
  | a :: b :: c :: rest =>
      base64Char (a / 4) :: base64Char ((a mod 4) * 16 + b / 16)
      :: base64Char ((b mod 16) * 4 + c / 64) :: base64Char (c mod 64)
      :: btoaCodes rest
  end.

Definition btoa (binary : string) : string :=
  string_of_list_ascii (btoaCodes (charCodes binary)).

(** [atob] is the forgiving base64 decoder of the HTML standard. *)
Definition isAsciiWhitespace (c : ascii) : bool :=
  match charCodeAt c with
  | 9 | 10 | 12 | 13 | 32 => true
  | _ => false
  end.

(** Remove one or two [=] that end the data. *)
Fixpoint stripPadding (d : list ascii) : list ascii :=
  match d with
  | [] => []
  | c :: r =>
      match r with
      | [] => if Ascii.eqb c PAD then [] else [c]
      | [c'] => if Ascii.eqb c PAD && Ascii.eqb c' PAD then []
                else c :: stripPadding r
      | _ => c :: stripPadding r
      end
  end.

(** Four 6-bit values give three bytes; two or three left over give one or
    two bytes, the unused low bits are dropped. *)
Fixpoint decodeSextets (l : list Z) : list Z :=
  match l with
  | s1 :: s2 :: s3 :: s4 :: rest =>
      (s1 * 4 + s2 / 16) :: ((s2 mod 16) * 16 + s3 / 4)
      :: ((s3 mod 4) * 64 + s4) :: decodeSextets rest
  | [s1; s2; s3] => [s1 * 4 + s2 / 16; (s2 mod 16) * 16 + s3 / 4]
  | [s1; s2] => [s1 * 4 + s2 / 16]
  | _ => []
  end.

(** [None] stands for the [InvalidCharacterError] exception. *)
Definition atob (base64 : string) : option string :=
  let d := List.filter (fun c => negb (isAsciiWhitespace c))
             (list_ascii_of_string base64) in
  let d := if (Z.of_nat (length d) mod 4 =? 0) then stripPadding d else d in
  if Z.of_nat (length d) mod 4 =? 1 then None
  else
    sextets ← mapM base64Index d;
    Some (binaryString (decodeSextets sextets)).

(** [arrayBufferToBase64(buffer)] of content.js. *)
Definition arrayBufferToBase64 (buffer : list Z) : string :=
  btoa (binaryString buffer).

(** [sendAudioChunks()]: merge the captured blocks, empty the buffer, encode
    and dispatch on the path the processing mode selects.  A tick with
    nothing captured or no video does nothing.  The arguments after
    [hostLE] are those of [sendToGroqAPI]. *)
Definition sendAudioChunks (hostLE : bool)
    (nowStart nowCheck nowDone : Z) (reply : option Reply) (st : Content)
    : Content * list Effect :=
  match audioChunks st, activeVideo st with
  | [], _ | _, None => (st, [])
  | _ :: _, Some videoTime =>
      let mergedData := concat (audioChunks st) in
      let st := set_audioChunks [] st in
      let base64Audio :=
        arrayBufferToBase64 (bufferOfInt16Array hostLE mergedData) in
      if String.eqb (apiMode (currentSettings st)) "groq"
      then sendToGroqAPI base64Audio videoTime nowStart nowCheck nowDone reply st
      else sendToLocalBackend base64Audio videoTime st
  end.

(** ** background.js *)

(** *** WAV container: [DataView] writes, [writeString], [createWavFile] *)

(** A [DataView] write of the bytes [bs] at [offset]: the range is checked
    first ([None] is the [RangeError]), then the bytes are replaced. *)
Definition setBytes (view : list Z) (offset : nat) (bs : list Z)
    : option (list Z) :=
  if decide (offset + length bs ≤ length view)%nat
  then Some (take offset view ++ bs ++ drop (offset + length bs) view)
  else None.

Definition setUint8 (view : list Z) (offset : nat) (v : Z) : option (list Z) :=
  setBytes view offset [v mod 256].

(** [view.setUint16(offset, v, true)] and [view.setInt16(offset, v, true)]:
    both store [v] modulo 2^16, low byte first. *)
Definition setUint16 (view : list Z) (offset : nat) (v : Z) : option (list Z) :=
  setBytes view offset (int16Bytes v).

Definition setInt16 (view : list Z) (offset : nat) (v : Z) : option (list Z) :=
  setBytes view offset (int16Bytes v).

(** [view.setUint32(offset, v, true)]. *)
Definition uint32Bytes (v : Z) : list Z :=
  [v mod 256; (v / 256) mod 256; (v / 65536) mod 256; (v / 16777216) mod 256].

Definition setUint32 (view : list Z) (offset : nat) (v : Z) : option (list Z) :=
  setBytes view offset (uint32Bytes v).

(** [view.getUint32(offset, true)], to read a header field back. *)
Definition getUint32 (view : list Z) (offset : nat) : option Z :=
  match take 4 (drop offset view) with
  | [b0; b1; b2; b3] => Some (b0 + 256 * b1 + 65536 * b2 + 16777216 * b3)
  | _ => None
  end.

(** [writeString(view, offset, string)]: one [setUint8] per character. *)
Fixpoint writeString (view : list Z) (offset : nat) (s : list ascii)
    : option (list Z) :=
  match s with
  | [] => Some view
  | c :: r =>
      view' ← setUint8 view offset (charCodeAt c);
      writeString view' (S offset) r
  end.

(** The sample loop of [createWavFile], from index [i] on. *)
Fixpoint writeSamples (view : list Z) (pcmOffset i : nat) (pcmData : list Z)
    : option (list Z) :=
  match pcmData with
  | [] => Some view
  | v :: r =>
      view' ← setInt16 view (pcmOffset + i * 2) v;
      writeSamples view' pcmOffset (S i) r
  end.

Definition createWavFile (pcmData : list Z) (sampleRate : Z)
    : option (list Z) :=
  let numChannels := 1 in
  let bitsPerSample := 16 in
  let byteRate := sampleRate * numChannels * (bitsPerSample / 8) in
  let blockAlign := numChannels * (bitsPerSample / 8) in
  let dataSize := Z.of_nat (length pcmData) * (bitsPerSample / 8) in
  let headerSize := 44 in
  let buffer := replicate (Z.to_nat (headerSize + dataSize)) 0 in
  v ← writeString buffer 0 (list_ascii_of_string "RIFF");
  v ← setUint32 v 4 (36 + dataSize);
  v ← writeString v 8 (list_ascii_of_string "WAVE");
  v ← writeString v 12 (list_ascii_of_string "fmt ");
  v ← setUint32 v 16 16;
  v ← setUint16 v 20 1;
  v ← setUint16 v 22 numChannels;
  v ← setUint32 v 24 sampleRate;
  v ← setUint32 v 28 byteRate;
  v ← setUint16 v 32 blockAlign;
  v ← setUint16 v 34 bitsPerSample;
  v ← writeString v 36 (list_ascii_of_string "data");
  v ← setUint32 v 40 dataSize;
  writeSamples v 44 0 pcmData.

(** [base64ToBlob(base64, mimeType)]; the blob is its byte content.  [None]
    is an exception: of [atob], or of [new Int16Array] on an odd length. *)
Definition base64ToBlob (hostLE : bool) (base64 : string) : option (list Z) :=
  binaryString ← atob base64;
  let bytes := charCodes binaryString in
  pcmData ← newInt16Array hostLE bytes;
  createWavFile pcmData 16000.

(** *** The translation context *)

Record ContextEntry := mkContextEntry {
  ctx_original : string;
  ctx_translated : string
}.

Definition MAX_CONTEXT_SIZE : nat := 3.

(** The block under [// Update context], the same in both handlers:
    [if (original && translated) { translationContext.push({...});
     if (translationContext.length > MAX_CONTEXT_SIZE) translationContext.shift(); }] *)
Definition updateContext (original translated : option string)
    (translationContext : list ContextEntry) : list ContextEntry :=
  if truthy original && truthy translated then
    let pushed := translationContext ++
                  [mkContextEntry (default EmptyString original)
                                  (default EmptyString translated)] in
    if decide (MAX_CONTEXT_SIZE < length pushed)%nat then tail pushed
    else pushed
  else translationContext.

(** *** Network *)

(** What [await fetch(...)] gives: a rejection, or a response with its
    status and, when the body parses as JSON, the parsed body. *)
Inductive FetchOutcome (Body : Type) :=
| NetworkFailure
| HttpResponse (status : Z) (json : option Body).
Arguments NetworkFailure {Body}.
Arguments HttpResponse {Body} status json.

(** [response.ok] *)
Definition ok (status : Z) : bool := (200 <=? status) && (status <=? 299).

(** The body of the transcription endpoint: [text], or [error.message]. *)
Record TranscriptionBody := mkTranscriptionBody {
  tb_text : option string;
  tb_errorMessage : option string
}.

(** A parsed JSON value.  The members of an object are kept in the order
    of the text; [JSON.parse] gives a name that occurs twice its last
    value. *)
#[warnings="-register-all"] Inductive Json :=
| JNull
| JBool (b : bool)
| JNumber (n : Q)
| JString (s : string)
| JArray (elements : list Json)
| JObject (members : list (string * Json)).

(** The own property [key] of an object: the last member of that name. *)
Definition member (key : string) (members : list (string * Json))
    : option Json :=
  snd <$> List.find (fun m => String.eqb m.1 key) (rev members).

(** [v.key] on a value that is neither [null] nor [undefined], for a [key]
    that the prototypes of objects, arrays, strings, numbers and booleans do
    not define (as [choices], [message] and [content]): an own property of
    an object, [undefined] ([None]) on any other value. *)
Definition getMember (key : string) (v : Json) : option Json :=
  match v with
  | JObject members => member key members
  | _ => None
  end.

(** [v[0]] on such a value: the first element of an array, the first code
    unit of a string, the property ["0"] of an object. *)
Definition getIndex0 (v : Json) : option Json :=
  match v with
  | JArray (x :: _) => Some x
  | JString (String c _) => Some (JString (String c EmptyString))
  | JObject members => member "0" members
  | _ => None
  end.

(** [a?.b]: [undefined] when [a] is [null] or [undefined]. *)
Definition optionalChain (get : Json -> option Json) (v : option Json)
    : option Json :=
  match v with
  | None | Some JNull => None
  | Some x => get x
  end.

(** The body of the chat endpoint, as parsed. *)
Definition ChatBody : Type := Json.

(** [data.choices?.[0]?.message?.content] on a body that is not [null]. *)
Definition chatContent (data : ChatBody) : option Json :=
  optionalChain (getMember "content")
    (optionalChain (getMember "message")
       (optionalChain getIndex0 (getMember "choices" data))).

(** The errors a handler throws. *)
Inductive ProcessingError :=
| MissingCredentials
| MissingApiKey (apiMode : option string)
| InvalidAudio
| FetchRejected
| BackendError (detail : option string) (status : Z)
| ApiError (message : option string) (status : Z)
| InvalidJson
| NotAString
| NullBody
| NotAFunction.

Definition statusText (status : Z) : string :=
  NilZero.string_of_int (Z.to_int status).

(** [error.message] *)
Definition errorMessage (e : ProcessingError) : string :=
  match e with
  | MissingCredentials => "Miss match credentials"
  | MissingApiKey apiMode =>
      "API Key for " ++ default "undefined" apiMode ++ " is missing!"
  | InvalidAudio => "Invalid audio"
  | FetchRejected => "Failed to fetch"
  | BackendError detail status =>
      or_else detail ("Backend Error " ++ statusText status)
  | ApiError message status =>
      or_else message ("API Error " ++ statusText status)
  | InvalidJson => "Unexpected token in JSON"
  | NotAString => "Cannot read properties of undefined"
  | NullBody => "Cannot read properties of null"
  | NotAFunction => "trim is not a function"
  end.

Record Config := mkConfig {
  apiSecret : option string;
  backendUrl : option string
}.

(** The fields of a [transcribe] message the handlers read. *)
Record TranscribeMessage := mkTranscribeMessage {
  msg_audio : string;
  msg_sourceLang : option string;
  msg_targetLang : option string;
  msg_showOriginal : bool;
  msg_apiMode : option string;
  msg_groqApiKey : option string
}.

(** The requests a handler issues, in order. *)
Inductive Request :=
| ProxyRequest (context : list ContextEntry)
| TranscriptionRequest (model : string)
| ChatCompletionRequest (model : string) (userText : option string).

(** What a handler leaves behind: its outcome (an exception or the returned
    object), the translation context and the requests it issued. *)
Record Handled := mkHandled {
  outcome : ProcessingError + Reply;
  contextAfter : list ContextEntry;
  requests : list Request
}.

(** [handleBackendProcessing(message)] *)
Definition handleBackendProcessing (hostLE : bool) (config : Config)
    (message : TranscribeMessage) (response : FetchOutcome Reply)
    (translationContext : list ContextEntry) : Handled :=
  if negb (truthy (apiSecret config)) || negb (truthy (backendUrl config))
  then mkHandled (inl MissingCredentials) translationContext []
  else
    match base64ToBlob hostLE (msg_audio message) with
    | None => mkHandled (inl InvalidAudio) translationContext []
    | Some audioBlob =>
        let sent := [ProxyRequest translationContext] in
        match response with
        | NetworkFailure => mkHandled (inl FetchRejected) translationContext sent
        | HttpResponse status json =>
            if negb (ok status) then
              mkHandled (inl (BackendError (json ≫= reply_detail) status))
                translationContext sent
            else
              match json with
              | None => mkHandled (inl InvalidJson) translationContext sent
              | Some result =>
                  match reply_text result with
                  | None => mkHandled (inl NotAString) translationContext sent
                  | Some _ =>
                      mkHandled (inr result)
                        (updateContext (reply_original result)
                           (reply_translated result) translationContext)
                        sent
                  end
              end
        end
    end.

(** What [String.prototype.trim] removes, among the code units that a
    string of the model holds (those below 256): the white space TAB, VT,
    FF, SP and NBSP (U+00A0) and the line terminators LF and CR. *)
Definition isTrimmed (c : ascii) : bool :=
  match charCodeAt c with
  | 9 | 10 | 11 | 12 | 13 | 32 | 160 => true
  | _ => false
  end.

Fixpoint trimStart (s : list ascii) : list ascii :=
  match s with
  | c :: r => if isTrimmed c then trimStart r else s
  | [] => []
  end.

Definition trim (s : string) : string :=
  string_of_list_ascii
    (rev (trimStart (rev (trimStart (list_ascii_of_string s))))).

(** [translateText(text, targetLang, apiKey, mode, context)].  Only a
    response that is not ok is turned into the empty translation.  A
    rejected [fetch] and a body that is not JSON leave as exceptions, and
    so do the two [TypeError]s of the last line: [data.choices] on a body
    that is [null], and [content?.trim()] on a content that is neither
    [null] nor [undefined] nor a string, which has no method [trim]. *)
Definition translateText (text : option string) (mode : option string)
    (response : FetchOutcome ChatBody) : ProcessingError + string :=
  match response with
  | NetworkFailure => inl FetchRejected
  | HttpResponse status json =>
      if negb (ok status) then inr EmptyString
      else
        match json with
        | None => inl InvalidJson
        | Some JNull => inl NullBody
        | Some data =>
            match chatContent data with
            | None | Some JNull => inr EmptyString
            | Some (JString content) =>
                inr (or_else (Some (trim content)) EmptyString)
            | Some _ => inl NotAFunction
            end
        end
  end.

Definition transcriptionModel (apiMode : option string) : string :=
  if decide (apiMode = Some "groq") then "whisper-large-v3" else "whisper-1".

Definition chatModel (mode : option string) : string :=
  if decide (mode = Some "groq") then "llama-3.3-70b-versatile"
  else "gpt-3.5-turbo".

(** [handleDirectProcessing(message)]: [transcription] and [translation] are
    the outcomes of the two [fetch] calls, the second read only when a
    target language is set. *)
Definition handleDirectProcessing (hostLE : bool)
    (message : TranscribeMessage)
    (transcription : FetchOutcome TranscriptionBody)
    (translation : FetchOutcome ChatBody)
    (translationContext : list ContextEntry) : Handled :=
  let apiMode := msg_apiMode message in
  if negb (truthy (msg_groqApiKey message))
  then mkHandled (inl (MissingApiKey apiMode)) translationContext []
  else
    match base64ToBlob hostLE (msg_audio message) with
    | None => mkHandled (inl InvalidAudio) translationContext []
    | Some audioBlob =>
        let sent := [TranscriptionRequest (transcriptionModel apiMode)] in
        match transcription with
        | NetworkFailure => mkHandled (inl FetchRejected) translationContext sent
        | HttpResponse status json =>
            if negb (ok status) then
              mkHandled (inl (ApiError (json ≫= tb_errorMessage) status))
                translationContext sent
            else
              match json with
              | None => mkHandled (inl InvalidJson) translationContext sent
              | Some result =>
                  let text := tb_text result in
                  let original := text in
                  let finish (translated : string) (sent : list Request) :=
                    mkHandled
                      (inr (mkReply None None
                              (if truthy (Some translated)
                               then Some translated else original)
                              original (Some translated) apiMode))
                      (updateContext original (Some translated)
                         translationContext)
                      sent in
                  if truthy (msg_targetLang message) then
                    let sent' :=
                      sent ++ [ChatCompletionRequest (chatModel apiMode) text] in
                    match translateText text apiMode translation with
                    | inl e => mkHandled (inl e) translationContext sent'
                    | inr translated => finish translated sent'
                    end
                  else finish EmptyString sent
              end
        end
    end.

(** *** The message listener *)

Record Background := mkBackground {
  extensionEnabled : bool;
  translationContext : list ContextEntry
}.

Inductive Message :=
| GetGlobalState
| SetGlobalState (enabled : bool)
| Transcribe (message : TranscribeMessage)
    (proxy : FetchOutcome Reply)
    (transcription : FetchOutcome TranscriptionBody)
    (translation : FetchOutcome ChatBody)
| ResetContext
| UnknownAction.

(** [.then(sendResponse).catch(error => sendResponse({ error: error.message }))] *)
Definition sendResponse (h : Handled) : Reply :=
  match outcome h with
  | inr result => result
  | inl e => mkReply (Some (errorMessage e)) None None None None None
  end.

(** One message through [chrome.runtime.onMessage]: the state afterwards,
    the reply when it is an object of the transcription kind, and the
    requests issued. *)
Definition onMessage (hostLE : bool) (config : Config) (m : Message)
    (bg : Background) : Background * option Reply * list Request :=
  match m with
  | GetGlobalState => (bg, None, [])
  | SetGlobalState enabled =>
      (mkBackground enabled (translationContext bg), None, [])
  | Transcribe message proxy transcription translation =>
      let h :=
        if decide (msg_apiMode message = Some "trial")
        then handleBackendProcessing hostLE config message proxy
               (translationContext bg)
        else handleDirectProcessing hostLE message transcription translation
               (translationContext bg) in
      (mkBackground (extensionEnabled bg) (contextAfter h),
       Some (sendResponse h), requests h)
  | ResetContext => (mkBackground (extensionEnabled bg) [], None, [])
  | UnknownAction => (bg, None, [])
  end.

Definition initialBackground : Background := mkBackground false [].

(** ** DataSyncService.js *)

(** [haystack.includes(needle)] *)
Fixpoint includesFrom (haystack : string) (needle : string) : bool :=
  String.prefix needle haystack
  || match haystack with
     | EmptyString => false
     | String _ rest => includesFrom rest needle
     end.

Definition includes (haystack needle : string) : bool :=
  includesFrom haystack needle.

(** [haystack.endsWith(needle)], for the statements only. *)
Definition endsWith (haystack needle : string) : bool :=
  (String.length needle <=? String.length haystack)%nat
  && String.eqb
       (substring (String.length haystack - String.length needle)
          (String.length needle) haystack)
       needle.

(** *** A reference reading of [new URL(url).hostname]

    The URL parser on a string with no base URL, as far as the host: the
    input is stripped of leading and trailing controls and spaces and of
    every tab and newline; the scheme is lower-cased; [http], [https],
    [ws], [wss] and [ftp] take an authority after any run of slashes and
    need a host, [file] takes a host after two slashes, any other scheme
    takes an authority after [//] only and keeps its host as written; the
    credentials before the last [@] and the port are left out, and the
    port has to be a number of at most 65535.  [None] is the [TypeError];
    the empty string is the hostname of a URL with no host.

    Hosts with a percent escape, a bracket, a code unit above 126, or a
    last label that reads as a number go through further steps of the
    parser (decoding, IDNA, the IPv4 and IPv6 forms) that [urlHostname]
    does not take.  The theorems about the sync gate hold for every reading
    of the host; this one evaluates the examples. *)
Definition isAsciiAlpha (c : ascii) : bool :=
  let n := charCodeAt c in
  ((65 <=? n) && (n <=? 90)) || ((97 <=? n) && (n <=? 122)).

Definition isAsciiDigit (c : ascii) : bool :=
  let n := charCodeAt c in (48 <=? n) && (n <=? 57).

Definition isSchemeChar (c : ascii) : bool :=
  let n := charCodeAt c in
  isAsciiAlpha c || isAsciiDigit c || (n =? 43) || (n =? 45) || (n =? 46).

Definition toLowerCase (c : ascii) : ascii :=
  let n := charCodeAt c in
  if (65 <=? n) && (n <=? 90) then fromCharCode (n + 32) else c.

Definition isC0OrSpace (c : ascii) : bool := charCodeAt c <=? 32.

Definition isTabOrNewline (c : ascii) : bool :=
  match charCodeAt c with
  | 9 | 10 | 13 => true
  | _ => false
  end.

Fixpoint dropC0OrSpace (s : list ascii) : list ascii :=
  match s with
  | c :: r => if isC0OrSpace c then dropC0OrSpace r else s
  | [] => []
  end.

Definition cleanInput (s : list ascii) : list ascii :=
  List.filter (fun c => negb (isTabOrNewline c))
    (rev (dropC0OrSpace (rev (dropC0OrSpace s)))).

Fixpoint splitScheme (s : list ascii) : option (list ascii * list ascii) :=
  match s with
  | [] => None
  | c :: r =>
      if Ascii.eqb c ":" then Some ([], r)
      else if isSchemeChar c then
        match splitScheme r with
        | Some (scheme, rest) => Some (toLowerCase c :: scheme, rest)
        | None => None
        end
      else None
  end.

Definition isSlash (c : ascii) : bool :=
  Ascii.eqb c "/" || Ascii.eqb c "\".

Fixpoint dropSlashes (s : list ascii) : list ascii :=
  match s with
  | c :: r => if isSlash c then dropSlashes r else s
  | [] => []
  end.

(** Up to the end of the authority: a slash, [?] or [#], and for a special
    scheme a backslash too. *)
Fixpoint takeAuthority (special : bool) (s : list ascii) : list ascii :=
  match s with
  | c :: r =>
      if Ascii.eqb c "/" || Ascii.eqb c "?" || Ascii.eqb c "#"
         || (special && Ascii.eqb c "\")
      then []
      else c :: takeAuthority special r
  | [] => []
  end.

(** The part after the last [@]. *)
Fixpoint afterUserinfo (s : list ascii) : list ascii :=
  match s with
  | c :: r =>
      if Ascii.eqb c "@" then afterUserinfo r
      else if existsb (Ascii.eqb "@") r then afterUserinfo r
      else s
  | [] => []
  end.

Fixpoint beforePort (s : list ascii) : list ascii :=
  match s with
  | c :: r => if Ascii.eqb c ":" then [] else c :: beforePort r
  | [] => []
  end.

(** The port, when a [:] follows the host. *)
Fixpoint afterHost (s : list ascii) : option (list ascii) :=
  match s with
  | c :: r => if Ascii.eqb c ":" then Some r else afterHost r
  | [] => None
  end.

Definition validPort (port : list ascii) : bool :=
  forallb isAsciiDigit port
  && (foldl (fun n c => 10 * n + (charCodeAt c - 48)) 0 port <=? 65535).

Definition isForbiddenHostCodePoint (c : ascii) : bool :=
  match charCodeAt c with
  | 0 | 9 | 10 | 13 | 32 | 35 | 47 | 58 | 60 | 62 | 63 | 64
  | 91 | 92 | 93 | 94 | 124 => true
  | _ => false
  end.

Definition isForbiddenDomainCodePoint (c : ascii) : bool :=
  let n := charCodeAt c in
  isForbiddenHostCodePoint c || (n <=? 31) || (n =? 37) || (n =? 127).

Definition hexDigit (n : Z) : ascii :=
  if n <? 10 then fromCharCode (48 + n) else fromCharCode (55 + n).

(** In an opaque host a control character is written as a percent
    escape. *)
Definition percentEncodeC0 (c : ascii) : list ascii :=
  let n := charCodeAt c in
  if n <=? 31 then ["%"%char; hexDigit (n / 16); hexDigit (n mod 16)]
  else [c].

(** The host parser: a domain is lower-cased, an opaque host is kept. *)
Definition parseHost (opaque : bool) (host : list ascii)
    : option (list ascii) :=
  if opaque then
    if existsb isForbiddenHostCodePoint host then None
    else Some (flat_map percentEncodeC0 host)
  else
    if existsb isForbiddenDomainCodePoint host then None
    else Some (map toLowerCase host).

(** The host of an authority. *)
Definition hostOfAuthority (special : bool) (authority : list ascii)
    : option (list ascii) :=
  let hostPort := afterUserinfo authority in
  let host := beforePort hostPort in
  if existsb (Ascii.eqb "@") authority
     && bool_decide (hostPort = []) then None
  else
    match afterHost hostPort with
    | Some port =>
        if bool_decide (host = []) || negb (validPort port) then None
        else parseHost (negb special) host
    | None =>
        if special && bool_decide (host = []) then None
        else parseHost (negb special) host
    end.

Definition isWindowsDriveLetter (s : list ascii) : bool :=
  match s with
  | [c; d] => isAsciiAlpha c && (Ascii.eqb d ":" || Ascii.eqb d "|")
  | _ => false
  end.

(** The host of a [file] URL, from what follows [file:]. *)
Definition fileHost (rest : list ascii) : option (list ascii) :=
  match rest with
  | c :: d :: rest' =>
      if isSlash c && isSlash d then
        let buffer := takeAuthority true rest' in
        if isWindowsDriveLetter buffer || bool_decide (buffer = [])
        then Some []
        else
          match parseHost false buffer with
          | Some host =>
              if bool_decide (host = list_ascii_of_string "localhost")
              then Some [] else Some host
          | None => None
          end
      else Some []
  | _ => Some []
  end.

Definition urlHostname (url : string) : option string :=
  match cleanInput (list_ascii_of_string url) with
  | [] => None
  | (c :: _) as chars =>
      if negb (isAsciiAlpha c) then None
      else
        match splitScheme chars with
        | None => None
        | Some (scheme, rest) =>
            let scheme := string_of_list_ascii scheme in
            string_of_list_ascii <$>
              (if bool_decide (scheme = "file") then fileHost rest
               else if bool_decide
                         (scheme ∈ ["http"; "https"; "ws"; "wss"; "ftp"])
               then hostOfAuthority true
                      (takeAuthority true (dropSlashes rest))
               else
                 match rest with
                 | "/"%char :: "/"%char :: rest' =>
                     hostOfAuthority false (takeAuthority false rest')
                 | _ => Some []
                 end)
        end
  end.

Module DataSyncService.

Definition WHITELISTED_SITES : list string :=
  ["youtube.com"; "www.youtube.com";
   "bilibili.com"; "www.bilibili.com";
   "vimeo.com"; "www.vimeo.com";
   "twitch.tv"; "www.twitch.tv"].

(** The four keys read from [chrome.storage.local]. *)
Record Storage := mkStorage {
  stored_deviceId : option string;
  stored_dataSyncConsent : option bool;
  stored_supabaseUrl : option string;
  stored_supabaseAnonKey : option string
}.

Record Service := mkService {
  deviceId : option string;
  isEnabled : bool;
  supabaseUrl : option string;
  supabaseAnonKey : option string;
  isConfigured : bool
}.

(** The fields set by the constructor. *)
Definition constructed : Service := mkService None false None None false.

(** [init()]: [storage] is what [chrome.storage.local.get] resolves to,
    [None] when it rejects; [uuid] is what [crypto.randomUUID()] would
    return.  The result is the service and the storage afterwards. *)
Definition init (storage : option Storage) (uuid : string)
    : Service * option Storage :=
  match storage with
  | None => (constructed, None)
  | Some result =>
      let '(deviceId, storage') :=
        if truthy (stored_deviceId result)
        then (stored_deviceId result, result)
        else (Some uuid,
              mkStorage (Some uuid) (stored_dataSyncConsent result)
                (stored_supabaseUrl result) (stored_supabaseAnonKey result)) in
      let supabaseUrl :=
        if truthy (stored_supabaseUrl result)
        then stored_supabaseUrl result else None in
      let supabaseAnonKey :=
        if truthy (stored_supabaseAnonKey result)
        then stored_supabaseAnonKey result else None in
      (mkService deviceId
         (default false (stored_dataSyncConsent result))
         supabaseUrl supabaseAnonKey
         (truthy supabaseUrl && truthy supabaseAnonKey),
       Some storage')
  end.

(** [setConsent(enabled)], with the storage before and after
    [chrome.storage.local.set({ dataSyncConsent: enabled })]. *)
Definition setConsent (enabled : bool) (this : Service) (storage : Storage)
    : Service * Storage :=
  (mkService (deviceId this) enabled (supabaseUrl this) (supabaseAnonKey this)
     (isConfigured this),
   mkStorage (stored_deviceId storage) (Some enabled)
     (stored_supabaseUrl storage) (stored_supabaseAnonKey storage)).

(** The body of the POST to [/rest/v1/subtitle_feedback]. *)
Record Feedback := mkFeedback {
  endpoint : string;
  apikey : option string;
  device_id : option string;
  site : option string;
  original_text : string;
  translated_text : option string;
  source_lang : string;
  target_lang : string;
  created_at : string
}.

Section Platform.

(** [new URL(url).hostname], [None] when the constructor throws. *)
Variable hostnameOf : string -> option string.

Definition isWhitelistedSite (url : string) : bool :=
  match hostnameOf url with
  | Some hostname =>
      existsb (fun site => includes hostname site) WHITELISTED_SITES
  | None => false
  end.

(** [syncSegment(videoUrl, original, translated, sourceLang, targetLang)]
    once [initPromise] has settled into [this]: the returned boolean and
    the [fetch] calls made.  [now] is [new Date().toISOString()] and
    [response] the outcome of the [fetch]. *)
Definition syncSegment (this : Service)
    (videoUrl : string) (original translated : option string)
    (sourceLang targetLang : string)
    (now : string) (response : FetchOutcome unit)
    : bool * list Feedback :=
  if negb (isConfigured this) || negb (isEnabled this) then (false, [])
  else if negb (isWhitelistedSite videoUrl) then (false, [])
  else if negb (truthy (trim <$> original)) then (false, [])
  else
    let request :=
      mkFeedback
        (default "null" (supabaseUrl this) ++ "/rest/v1/subtitle_feedback")
        (supabaseAnonKey this)
        (deviceId this)
        (hostnameOf videoUrl)
        (substring 0 500 (default EmptyString original))
        (let t := substring 0 500 <$> translated in
         if truthy t then t else None)
        sourceLang targetLang now in
    match response with
    | NetworkFailure => (false, [request])
    | HttpResponse status _ => (ok status, [request])
    end.

End Platform.

End DataSyncService.

(** ** The IndexedDB subtitle store (second class of DataSyncService.js) *)

Module SubtitleStore.

Definition DB_VERSION : Z := 1.

Definition SUPPORTED_LANGUAGES : list string :=
  ["en"; "vi"; "zh"; "ja"; "ko"; "fr"; "de"; "es"; "ru"; "th"].

Record VideoRecord := mkVideo {
  id : string;
  url : string;
  title : string;
  duration : Q;
  createdAt : string;
  lastAccessed : string
}.

(** A [translations] object: a key that is present holds a string or
    [null] ([None]). *)
Abbreviation Translations := (gmap string (option string)).

Record Metadata := mkMetadata {
  meta_confidence : option Q;
  meta_model : option string;
  meta_userCorrected : option bool;
  meta_correctedText : option string
}.

Record Segment := mkSegment {
  videoId : string;
  startTime : Q;
  endTime : Q;
  original : string;
  sourceLang : string;
  translations : Translations;
  confidence : option Q;
  model : string;
  userCorrected : bool;
  correctedText : option string;
  segmentCreatedAt : string
}.

(** The two object stores.  [videos] has key path [id].  [segments] has an
    auto-incremented primary key: the records are kept with their key, in
    key order, which is the order in which they were added; [keyGenerator]
    is the next key. *)
Record DB := mkDB {
  videos : gmap string VideoRecord;
  segments : list (Z * Segment);
  keyGenerator : Z
}.

Definition emptyDB : DB := mkDB ∅ [] 1.

(** [obj[key]] as a value that is a string, [null] or [undefined], for a
    [key] that [Object.prototype] does not define (as the language codes):
    the own property. *)
Definition getProperty (obj : Translations) (key : string) : option string :=
  mjoin (obj !! key).

(** [v || null] *)
Definition orNull (v : option string) : option string :=
  if truthy v then v else None.

(** [n || null] on a number that may be absent: 0 is falsy. *)
Definition orNullNumber (n : option Q) : option Q :=
  match n with
  | Some q => if Qeq_bool q 0 then None else Some q
  | None => None
  end.

(** Does the record have the index key [[videoId, startTime]]? *)
Definition hasKey (vid : string) (start : Q) (entry : Z * Segment) : bool :=
  String.eqb (videoId entry.2) vid && Qeq_bool (startTime entry.2) start.

(** [index.openCursor(IDBKeyRange.only([videoId, startTime]))]: the first
    record with that index key (the index orders equal keys by primary
    key), if any. *)
Definition openCursor (vid : string) (start : Q) (db : DB)
    : option (Z * Segment) :=
  List.find (hasKey vid start) (segments db).

(** [cursor.update(value)]: replace the record under the cursor's primary
    key. *)
Definition cursorUpdate (key : Z) (value : Segment) (db : DB) : DB :=
  mkDB (videos db)
    (map (fun entry => if entry.1 =? key then (key, value) else entry)
       (segments db))
    (keyGenerator db).

(** [store.add(segment)] with the key generator. *)
Definition storeAdd (value : Segment) (db : DB) : DB * Z :=
  (mkDB (videos db) (segments db ++ [(keyGenerator db, value)])
     (keyGenerator db + 1),
   keyGenerator db).

(** [segments.sort((a, b) => a.startTime - b.startTime)].  The sort of an
    array is stable, which fixes its result: ascending start times, records
    with equal start times in their order before the sort.  [insertByStart]
    puts a record in front of the first one that does not start earlier. *)
Fixpoint insertByStart (s : Segment) (l : list Segment) : list Segment :=
  match l with
  | [] => [s]
  | x :: r =>
      if Qle_bool (startTime s) (startTime x) then s :: l
      else x :: insertByStart s r
  end.

Definition sortByStart (l : list Segment) : list Segment :=
  foldr insertByStart [] l.

(** [clear()] on both object stores.  Clearing a store does not reset its
    key generator. *)
Definition clearAll (db : DB) : DB := mkDB ∅ [] (keyGenerator db).

(** [getStats()]: the two [count()] results, videos then segments. *)
Definition getStats (db : DB) : nat * nat :=
  (size (videos db), length (segments db)).

Section Digest.

(** The hexadecimal SHA-256 digest of the UTF-8 encoding of a string
    ([crypto.subtle.digest]). *)
Variable sha256Hex : string -> string.

Definition generateVideoId (url : string) : string := sha256Hex url.

(** [saveVideo(url, title, duration)]; [now1] and [now2] are the two
    readings of the clock, for [createdAt] and [lastAccessed]. *)
Definition saveVideo (url title : string) (duration : Q)
    (now1 now2 : string) (db : DB) : DB * VideoRecord :=
  let id := generateVideoId url in
  let video := mkVideo id url title duration now1 now2 in
  let video :=
    match videos db !! id with
    | Some existing =>
        mkVideo id url title duration (createdAt existing) now2
    | None => video
    end in
  (mkDB (<[id := video]> (videos db)) (segments db) (keyGenerator db), video).

(** [getVideo(url)] *)
Definition getVideo (url : string) (db : DB) : option VideoRecord :=
  videos db !! generateVideoId url.

(** The object built by the [SUPPORTED_LANGUAGES.forEach] of [saveSegment]. *)
Definition buildTranslations (given : Translations) : Translations :=
  foldl (fun obj lang => <[lang := orNull (getProperty given lang)]> obj)
    ∅ SUPPORTED_LANGUAGES.

(** The [Object.keys(translationsObj).forEach] of the merge branch; the
    keys of [translationsObj] are the supported languages, in that order. *)
Definition mergeTranslations (translationsObj existing : Translations)
    : Translations :=
  foldl (fun acc lang =>
           if truthy (getProperty translationsObj lang)
           then <[lang := getProperty translationsObj lang]> acc
           else acc)
    existing SUPPORTED_LANGUAGES.

(** [saveSegment(videoUrl, startTime, endTime, original, sourceLang,
    translations, metadata)]; [now1], [now2], [now3] are the readings of the
    clock.  The result is the store and the value the promise resolves to. *)
Definition saveSegment (videoUrl : string) (startTime endTime : Q)
    (original sourceLang : string) (given : Translations)
    (metadata : Metadata) (now1 now2 now3 : string) (db : DB)
    : DB * Segment :=
  let videoId := generateVideoId videoUrl in
  let db := (saveVideo videoUrl EmptyString 0 now1 now2 db).1 in
  let translationsObj := buildTranslations given in
  let segment :=
    mkSegment videoId startTime endTime original sourceLang translationsObj
      (orNullNumber (meta_confidence metadata))
      (or_else (meta_model metadata) "whisper-large-v3")
      (default false (meta_userCorrected metadata))
      (orNull (meta_correctedText metadata))
      now3 in
  match openCursor videoId startTime db with
  | Some (key, existing) =>
      let existing :=
        mkSegment (SubtitleStore.videoId existing)
          (SubtitleStore.startTime existing) (SubtitleStore.endTime existing)
          original sourceLang
          (mergeTranslations translationsObj (translations existing))
          (confidence existing) (model existing) (userCorrected existing)
          (correctedText existing) (segmentCreatedAt existing) in
      (cursorUpdate key existing db, existing)
  | None => ((storeAdd segment db).1, segment)
  end.

(** [getSegments(videoUrl)] before the sort: the records of the video. *)
Definition segmentsOf (videoUrl : string) (db : DB) : list Segment :=
  map snd
    (List.filter
       (fun entry => String.eqb (videoId entry.2) (generateVideoId videoUrl))
       (segments db)).

(** The records with the index key of [(videoUrl, startTime)]. *)
Definition segmentsAt (videoUrl : string) (start : Q) (db : DB)
    : list Segment :=
  map snd (List.filter (hasKey (generateVideoId videoUrl) start) (segments db)).

(** [addTranslation(videoUrl, startTime, lang, translation)], for a [lang]
    that is the name of a property ([segment.translations[lang] =
    translation] with the reserved name [__proto__] is not a property
    write). *)
Definition addTranslation (videoUrl : string) (startTime : Q)
    (lang : string) (translation : option string) (db : DB)
    : DB * option Segment :=
  let videoId := generateVideoId videoUrl in
  match openCursor videoId startTime db with
  | Some (key, segment) =>
      let segment :=
        mkSegment (SubtitleStore.videoId segment)
          (SubtitleStore.startTime segment) (endTime segment)
          (original segment) (sourceLang segment)
          (<[lang := translation]> (translations segment))
          (confidence segment) (model segment) (userCorrected segment)
          (correctedText segment) (segmentCreatedAt segment) in
      (cursorUpdate key segment db, Some segment)
  | None => (db, None)
  end.

(** [getSegments(videoUrl)]: the records of the video, sorted. *)
Definition getSegments (videoUrl : string) (db : DB) : list Segment :=
  sortByStart (segmentsOf videoUrl db).

(** [getSegmentAtTime(videoUrl, time)] *)
Definition getSegmentAtTime (videoUrl : string) (time : Q) (db : DB)
    : option Segment :=
  List.find
    (fun s => Qle_bool (startTime s) time && Qle_bool time (endTime s))
    (getSegments videoUrl db).

(** [hasCache(videoUrl)] *)
Definition hasCache (videoUrl : string) (db : DB) : bool :=
  (0 <? length (getSegments videoUrl db))%nat.

(** [getTranslation(videoUrl, time, lang)] *)
Definition getTranslation (videoUrl : string) (time : Q) (lang : string)
    (db : DB) : option string :=
  match getSegmentAtTime videoUrl time db with
  | None => None
  | Some segment => orNull (getProperty (translations segment) lang)
  end.

(** [exportVideoData(videoUrl)] *)
Definition exportVideoData (videoUrl : string) (db : DB)
    : option VideoRecord * list Segment :=
  (getVideo videoUrl db, getSegments videoUrl db).

End Digest.

End SubtitleStore.

(** ** content.js: the session around the capture *)

Definition set_isEnabled (b : bool) (st : Content) : Content :=
  mkContent b (activeVideo st) (websocket st) (audioChunks st)
    (sendInterval st) (currentChunkDuration st) (lastProcessingTime st)
    (lagAccumulator st) (currentSettings st).

Definition set_websocket (w : option ReadyState) (st : Content) : Content :=
  mkContent (isEnabled st) (activeVideo st) w (audioChunks st)
    (sendInterval st) (currentChunkDuration st) (lastProcessingTime st)
    (lagAccumulator st) (currentSettings st).

(** The callback of [setInterval], the same in [startAudioCapture] and in
    [restartSendInterval]: a flush when something is buffered and the mode
    is ["groq"] or the socket is open.  The arguments are those of
    [sendAudioChunks]. *)
Definition onSendInterval (hostLE : bool)
    (nowStart nowCheck nowDone : Z) (reply : option Reply) (st : Content)
    : Content * list Effect :=
  match audioChunks st with
  | [] => (st, [])
  | _ :: _ =>
      if String.eqb (apiMode (currentSettings st)) "groq"
         || match websocket st with Some OPEN => true | _ => false end
      then sendAudioChunks hostLE nowStart nowCheck nowDone reply st
      else (st, [])
  end.

(** One text element of a displayed subtitle. *)
Record SubtitleLine := mkLine {
  line_className : string;
  line_text : string
}.

(** The variables of the content script beside those of [Content]: whether
    each handle of the capture graph is set, and the overlay, [None] when
    there is none, else its children, each a container of lines. *)
Record Page := mkPage {
  content : Content;
  audioProcessor : bool;
  mediaStreamSource : bool;
  audioContext : bool;
  subtitleOverlay : option (list (list SubtitleLine))
}.

Definition set_content (st : Content) (pg : Page) : Page :=
  mkPage st (audioProcessor pg) (mediaStreamSource pg) (audioContext pg)
    (subtitleOverlay pg).

Definition set_subtitleOverlay (o : option (list (list SubtitleLine)))
    (pg : Page) : Page :=
  mkPage (content pg) (audioProcessor pg) (mediaStreamSource pg)
    (audioContext pg) o.

(** What these functions do to the outside beside dispatching audio. *)
Inductive PageEffect :=
| ResetContextMessage
| SocketClose
| ClearInterval
| ShowNotification (message type : string).

(** [if (subtitleOverlay) subtitleOverlay.innerHTML = ''] *)
Definition clearOverlay (pg : Page) : Page :=
  match subtitleOverlay pg with
  | Some _ => set_subtitleOverlay (Some []) pg
  | None => pg
  end.

(** [stopAudioCapture()] *)
Definition stopAudioCapture (pg : Page) : Page :=
  mkPage (set_audioChunks [] (content pg)) false false false
    (subtitleOverlay pg).

(** [resetTranscriptionState()] *)
Definition resetTranscriptionState (pg : Page) : Page * list PageEffect :=
  let st := content pg in
  let st := set_audioChunks [] st in
  let st := set_lagAccumulator 0 st in
  let st := set_currentChunkDuration AUDIO_CHUNK_DURATION_MS st in
  (clearOverlay (set_content st pg), [ResetContextMessage]).

(** The branch of the [MutationObserver] callback of [observeDOM] for a
    change of [src] on the active video or on a [source] inside it. *)
Definition onSourceChanged (pg : Page) : Page * list PageEffect :=
  match activeVideo (content pg) with
  | Some _ =>
      if isEnabled (content pg) then resetTranscriptionState pg else (pg, [])
  | None => (pg, [])
  end.

(** The [seeking] listener of [setupVideoEventListeners]. *)
Definition onSeeking (pg : Page) : Page :=
  clearOverlay (set_content (set_audioChunks [] (content pg)) pg).

(** [removeSubtitleOverlay()] *)
Definition removeSubtitleOverlay (pg : Page) : Page :=
  set_subtitleOverlay None pg.

(** [disableSubtitles()] *)
Definition disableSubtitles (pg : Page) : Page * list PageEffect :=
  let pg := set_content (set_isEnabled false (content pg)) pg in
  let pg := stopAudioCapture pg in
  let '(pg, closed) :=
    match websocket (content pg) with
    | Some _ => (set_content (set_websocket None (content pg)) pg, [SocketClose])
    | None => (pg, [])
    end in
  let '(pg, cleared) :=
    match sendInterval (content pg) with
    | Some _ =>
        (set_content (set_sendInterval None (content pg)) pg, [ClearInterval])
    | None => (pg, [])
    end in
  (removeSubtitleOverlay pg,
   closed ++ cleared ++ [ShowNotification "Subtitles disabled" "info"]).

(** [audioProcessor.onaudioprocess] and the timer callback on the page. *)
Definition pageAudioProcess (inputData : list Q) (pg : Page) : Page :=
  set_content (onaudioprocess inputData (content pg)) pg.

(** [displaySubtitle(original, translated, showOriginal)]: the container it
    builds replaces the children of the overlay.  The timer that fades the
    container out later is not part of this step. *)
Definition displaySubtitle (original translated : string)
    (showOriginal : bool) (pg : Page) : Page :=
  match subtitleOverlay pg with
  | None => pg
  | Some _ =>
      let isSet (s : string) := truthy (Some s) in
      let container :=
        if isSet translated
        then [mkLine "bypass-subtitle-text bypass-subtitle-translated"
                translated]
        else [] in
      let container :=
        if showOriginal && isSet original && isSet translated
           && negb (String.eqb original translated)
        then mkLine "bypass-subtitle-text bypass-subtitle-original" original
             :: container
        else if negb (isSet translated) && isSet original
        then container
             ++ [mkLine "bypass-subtitle-text bypass-subtitle-translated"
                   original]
        else container in
      set_subtitleOverlay (Some [container]) pg
  end.

Section Transcription.

Variable sha256Hex : string -> string.
Variable hostnameOf : string -> option string.

(** [handleTranscription(data)].  [dataShowOriginal] is [data.showOriginal];
    [href] is [window.location.href]; [store] and [sync] are the two
    globals of DataSyncService.js, [None] when the script is not loaded;
    [now1], [now2], [now3] are the clock readings of [saveSegment], [now4]
    that of [syncSegment], [response] the outcome of its [fetch].  The
    result is the page, the store and the requests posted.  The start of
    the segment, [Math.max(0, videoTime - 3)], is computed exactly for a
    video time below 2^53: a positive difference of such a double and 3
    is a double. *)
Definition handleTranscription (data : Reply) (dataShowOriginal : option bool)
    (href : string) (now1 now2 now3 now4 : string)
    (response : FetchOutcome unit)
    (pg : Page) (store : option SubtitleStore.DB)
    (sync : option DataSyncService.Service)
    : Page * option SubtitleStore.DB * list DataSyncService.Feedback :=
  if truthy (reply_error data) then (pg, store, [])
  else
    let settings := currentSettings (content pg) in
    let original :=
      or_else (reply_original data) (or_else (reply_text data) EmptyString) in
    let translated := or_else (reply_translated data) EmptyString in
    let showOriginal :=
      negb (bool_decide (dataShowOriginal = Some false))
      && showOriginal settings in
    if truthy (Some (trim original)) || truthy (Some (trim translated)) then
      let pg := displaySubtitle original translated showOriginal pg in
      match activeVideo (content pg), store with
      | Some videoTime, Some db =>
          let videoUrl := href in
          let sourceLang := or_else (Some (sourceLang settings)) "auto" in
          let db :=
            (SubtitleStore.saveSegment sha256Hex videoUrl
               (Qmax 0 (videoTime - 3)) videoTime original sourceLang
               {[ targetLang settings := Some translated ]}
               (SubtitleStore.mkMetadata None (Some "whisper-large-v3")
                  None None)
               now1 now2 now3 db).1 in
          let posted :=
            match sync with
            | Some service =>
                (DataSyncService.syncSegment hostnameOf service videoUrl
                   (Some original) (Some translated) sourceLang
                   (targetLang settings) now4 response).2
            | None => []
            end in
          (pg, Some db, posted)
      | _, _ => (pg, store, [])
      end
    else (pg, store, []).

End Transcription.

(* ===================================================================== *)
(** * Part II: the vocabulary of the statements *)
(* ===================================================================== *)

(** ** Dispatch *)

(** The age of a chunk: the wall clock less the video time in
    milliseconds. *)
Definition chunkAge (now : Z) (videoTime : Q) : Q :=
  (inject_Z now - videoTime * 1000)%Q.

(** That age as [sendToGroqAPI] computes it, in double precision. *)
Definition computedAge (now : Z) (videoTime : Q) : Q :=
  roundDouble (inject_Z now - roundDouble (videoTime * 1000))%Q.

(** The effects that are calls to a backend. *)
Definition networkCalls (effects : list Effect) : list Effect :=
  List.filter isNetworkCall effects.

(** A session in the local-backend mode with its socket open, one captured
    block of two samples, the video at 0 s and a non-zero lag
    accumulator. *)
Definition staleLocalSession : Content :=
  mkContent true (Some 0%Q) (Some OPEN) [[1; -2]] (Some 3000) 3000 0 7
    (mkSettings "auto" "vi" true "local" EmptyString).

(** ** The translation context *)

(** The last [n] elements of a list. *)
Definition lastN {A} (n : nat) (l : list A) : list A :=
  drop (length l - n) l.

(** A push that goes through: both texts are non-empty. *)
Definition pushEntry (ctx : list ContextEntry) (e : ContextEntry)
    : list ContextEntry :=
  updateContext (Some (ctx_original e)) (Some (ctx_translated e)) ctx.

Definition nonEmptyEntry (e : ContextEntry) : Prop :=
  ctx_original e <> EmptyString /\ ctx_translated e <> EmptyString.

(** The background script after a sequence of messages. *)
Definition runMessages (hostLE : bool) (config : Config) (ms : list Message)
    (bg : Background) : Background :=
  foldl (fun bg m => (onMessage hostLE config m bg).1.1) bg ms.

(** The failing input of C7: a direct request in mode [groq] with a key,
    two bytes of audio and target language [vi]; the transcription answers
    200 with the text [hello]; the translation request fails on the
    network. *)
Definition directRequest : TranscribeMessage :=
  mkTranscribeMessage "AAA=" (Some "auto") (Some "vi") true (Some "groq")
    (Some "gsk_key").

(** The body of a chat completion whose first choice has that content. *)
Definition chatBody (content : string) : ChatBody :=
  JObject
    [("choices",
      JArray [JObject [("message", JObject [("content", JString content)])]])].

(** The handler that a [transcribe] message goes to. *)
Definition handled (hostLE : bool) (config : Config)
    (message : TranscribeMessage) (proxy : FetchOutcome Reply)
    (transcription : FetchOutcome TranscriptionBody)
    (translation : FetchOutcome ChatBody) (ctx : list ContextEntry)
    : Handled :=
  if decide (msg_apiMode message = Some "trial")
  then handleBackendProcessing hostLE config message proxy ctx
  else handleDirectProcessing hostLE message transcription translation ctx.

(** What a handled request should append to the ledger: the pair of a
    result that has both texts; nothing after a failure, and nothing for a
    result that lacks one of them. *)
Definition appendedBy (h : Handled) : list ContextEntry :=
  match outcome h with
  | inr result =>
      match reply_original result, reply_translated result with
      | Some o, Some t =>
          if String.eqb o EmptyString || String.eqb t EmptyString then []
          else [mkContextEntry o t]
      | _, _ => []
      end
  | inl _ => []
  end.

(** Along a sequence of messages: the state of the script, and the entries
    appended since the last reset, oldest first. *)
Definition ledgerStep (hostLE : bool) (config : Config)
    (acc : Background * list ContextEntry) (m : Message)
    : Background * list ContextEntry :=
  ((onMessage hostLE config m acc.1).1.1,
   match m with
   | Transcribe message proxy transcription translation =>
       acc.2 ++ appendedBy (handled hostLE config message proxy transcription
                              translation (translationContext acc.1))
   | ResetContext => []
   | _ => acc.2
   end).

Definition appended (hostLE : bool) (config : Config) (ms : list Message)
    : list ContextEntry :=
  (foldl (ledgerStep hostLE config) (initialBackground, []) ms).2.

(** A configured proxy, a proxied request that it answers with the pair
    [e], and a direct request answered with the text [o] and then with the
    translation [t]. *)
Definition sampleConfig : Config :=
  mkConfig (Some "secret") (Some "https://backend.example").

Definition proxied (e : ContextEntry) : Message :=
  Transcribe
    (mkTranscribeMessage "AAA=" (Some "auto") (Some "vi") true (Some "trial")
       None)
    (HttpResponse 200
       (Some (mkReply None None (Some (ctx_translated e))
                (Some (ctx_original e)) (Some (ctx_translated e))
                (Some "groq"))))
    NetworkFailure NetworkFailure.

Definition direct (o t : string) : Message :=
  Transcribe directRequest NetworkFailure
    (HttpResponse 200 (Some (mkTranscriptionBody (Some o) None)))
    (HttpResponse 200 (Some (chatBody t))).

(** The text is empty or starts with a character that [trim] keeps. *)
Definition startsClean (l : list ascii) : Prop :=
  match l with
  | [] => True
  | c :: _ => isTrimmed c = false
  end.

(** ** Binary data *)

Definition isByte (b : Z) : Prop := 0 <= b < 256.
Definition isSextet (s : Z) : Prop := 0 <= s < 64.
Definition isInt16 (v : Z) : Prop := -32768 <= v <= 32767.

(** The 6-bit values [btoa] writes, without the padding. *)
Fixpoint sextetsOf (l : list Z) : list Z :=
  match l with
  | [] => []
  | [a] => [a / 4; (a mod 4) * 16]
  | [a; b] => [a / 4; (a mod 4) * 16 + b / 16; (b mod 16) * 4]
  | a :: b :: c :: rest =>
      a / 4 :: (a mod 4) * 16 + b / 16 :: (b mod 16) * 4 + c / 64 :: c mod 64
      :: sextetsOf rest
  end.

(** The 44 bytes that precede the samples, for [dataSize] bytes of data:
    RIFF, the chunk size, WAVE, the format chunk (PCM, one channel, 16000
    samples per second, 32000 bytes per second, 2 bytes per block, 16 bits
    per sample), data, the data size. *)
Definition wavHeader (dataSize : Z) : list Z :=
  [82; 73; 70; 70] ++ uint32Bytes (36 + dataSize) ++ [87; 65; 86; 69]
  ++ [102; 109; 116; 32] ++ [16; 0; 0; 0] ++ [1; 0] ++ [1; 0]
  ++ [128; 62; 0; 0] ++ [0; 125; 0; 0] ++ [2; 0] ++ [16; 0]
  ++ [100; 97; 116; 97] ++ uint32Bytes dataSize.

(** ** The session *)

(** What can happen to the page of a session: an audio block arrives,
    the timer fires, the video seeks, the source of the active video
    changes, the user disables the subtitles. *)
Inductive PageEvent :=
| AudioProcess (inputData : list Q)
| IntervalTick (hostLE : bool) (nowStart nowCheck nowDone : Z)
    (reply : option Reply)
| Seeking
| SourceChanged
| Disable.

(** One event: the page afterwards, what was dispatched, and the other
    effects. *)
Definition pageStep (e : PageEvent) (pg : Page)
    : Page * list Effect * list PageEffect :=
  match e with
  | AudioProcess inputData => (pageAudioProcess inputData pg, [], [])
  | IntervalTick hostLE nowStart nowCheck nowDone reply =>
      let r := onSendInterval hostLE nowStart nowCheck nowDone reply
                 (content pg) in
      (set_content r.1 pg, r.2, [])
  | Seeking => (onSeeking pg, [], [])
  | SourceChanged => let r := onSourceChanged pg in (r.1, [], r.2)
  | Disable => let r := disableSubtitles pg in (r.1, [], r.2)
  end.

Definition runEvents (es : list PageEvent) (pg : Page)
    : Page * list Effect * list PageEffect :=
  foldl (fun acc e =>
           let r := pageStep e acc.1.1 in
           (r.1.1, acc.1.2 ++ r.1.2, acc.2 ++ r.2))
    (pg, [], []) es.

(** A flush period the scheduler can reach: a multiple of 500 ms between
    2000 ms and 6000 ms. *)
Definition isPeriod (p : Z) : Prop := 2000 <= p <= 6000 /\ p mod 500 = 0.

(** The period and the period of the registered timer are such periods. *)
Definition periodsOk (st : Content) : Prop :=
  isPeriod (currentChunkDuration st)
  /\ match sendInterval st with
     | Some q => isPeriod q
     | None => True
     end.

(** Every buffered sample is a signed 16-bit value. *)
Definition bufferInRange (st : Content) : Prop :=
  Forall (Forall isInt16) (audioChunks st).

(** The base64 text an effect carries to a backend, if it carries one. *)
Definition audioOf (e : Effect) : option string :=
  match e with
  | RuntimeSendMessage m => Some (tr_audio m)
  | WebSocketSend p => Some (sp_audio p)
  | HandleTranscription _ => None
  end.

(** ** The subtitle store *)

Section StoreVocabulary.

Import SubtitleStore.

Variable sha256Hex : string -> string.

Local Abbreviation generateVideoId := (generateVideoId sha256Hex).
Local Abbreviation saveVideo := (saveVideo sha256Hex).
Local Abbreviation saveSegment := (saveSegment sha256Hex).
Local Abbreviation addTranslation := (addTranslation sha256Hex).

(** The writes of the store, with the values their suspended calls
    return. *)
Inductive StoreCall :=
| SaveVideo (url title : string) (duration : Q) (now1 now2 : string)
| SaveSegment (videoUrl : string) (startTime endTime : Q)
    (original sourceLang : string) (given : Translations)
    (metadata : Metadata) (now1 now2 now3 : string)
| AddTranslation (videoUrl : string) (startTime : Q) (lang : string)
    (translation : option string).

Definition call (c : StoreCall) (db : DB) : DB :=
  match c with
  | SaveVideo url title duration now1 now2 =>
      (saveVideo url title duration now1 now2 db).1
  | SaveSegment videoUrl startTime endTime original sourceLang given metadata
      now1 now2 now3 =>
      (saveSegment videoUrl startTime endTime original sourceLang given
         metadata now1 now2 now3 db).1
  | AddTranslation videoUrl startTime lang translation =>
      (addTranslation videoUrl startTime lang translation db).1
  end.

Definition calls (cs : list StoreCall) (db : DB) : DB :=
  foldl (fun db c => call c db) db cs.

(** The video a write is for. *)
Definition targetOf (c : StoreCall) : string :=
  match c with
  | SaveVideo url _ _ _ _ => url
  | SaveSegment videoUrl _ _ _ _ _ _ _ _ _ => videoUrl
  | AddTranslation videoUrl _ _ _ => videoUrl
  end.

(** The keys of a translations object are the ten supported codes. *)
Definition supportedKeys (t : Translations) : Prop :=
  forall lang, is_Some (t !! lang) <-> lang ∈ SUPPORTED_LANGUAGES.

(** Every stored translations object has exactly those keys. *)
Definition allSupported (db : DB) : Prop :=
  Forall (fun entry => supportedKeys (translations entry.2)) (segments db).

(** The primary keys in the store are distinct and below the generator. *)
Definition wellFormed (db : DB) : Prop :=
  NoDup (map fst (segments db))
  /\ Forall (fun entry => entry.1 < keyGenerator db) (segments db).

(** What [cursorUpdate] does to one record. *)
Definition replaceAt (key : Z) (value : Segment) (entry : Z * Segment)
    : Z * Segment :=
  if entry.1 =? key then (key, value) else entry.

(** The arguments of a [saveSegment] call besides its key, with the clock
    readings. *)
Record Save := mkSave {
  save_endTime : Q;
  save_original : string;
  save_sourceLang : string;
  save_given : Translations;
  save_metadata : Metadata;
  save_now1 : string;
  save_now2 : string;
  save_now3 : string
}.

Definition saveAt (videoUrl : string) (start : Q) (s : Save) (db : DB) : DB :=
  (saveSegment videoUrl start (save_endTime s) (save_original s)
     (save_sourceLang s) (save_given s) (save_metadata s)
     (save_now1 s) (save_now2 s) (save_now3 s) db).1.

Definition savesAt (videoUrl : string) (start : Q) (ss : list Save) (db : DB)
    : DB :=
  foldl (fun db s => saveAt videoUrl start s db) db ss.

(** The slot of [lang] after one more save: a non-empty value supplied
    replaces what was there, anything else leaves it. *)
Definition supply (lang : string) (slot : option string) (s : Save)
    : option string :=
  if truthy (getProperty (save_given s) lang)
  then getProperty (save_given s) lang else slot.

(** The latest non-empty value supplied for [lang], [None] ([null]) when
    there is none. *)
Definition supplied (lang : string) (ss : list Save) : option string :=
  foldl (supply lang) None ss.

(** One record has the key, and its supported slots are given by [slot]. *)
Definition holds (videoUrl : string) (start : Q)
    (slot : string -> option string) (db : DB) : Prop :=
  wellFormed db
  /\ exists key seg,
       List.filter (hasKey (generateVideoId videoUrl) start) (segments db)
       = [(key, seg)]
       /\ videoId seg = generateVideoId videoUrl
       /\ startTime seg = start
       /\ supportedKeys (translations seg)
       /\ forall lang, lang ∈ SUPPORTED_LANGUAGES ->
                       translations seg !! lang = Some (slot lang).

(** [a] starts no later than [b]. *)
Definition startsNoLater (a b : Segment) : Prop :=
  (startTime a <= startTime b)%Q.

(** The interval of the segment contains the time, ends included. *)
Definition covers (time : Q) (s : Segment) : Prop :=
  (startTime s <= time)%Q /\ (time <= endTime s)%Q.

End StoreVocabulary.

(** *** Concrete stores

    The examples take the URL itself as its digest; any function serves,
    the store only compares digests. *)
Definition sampleUrl : string := "https://www.youtube.com/watch?v=1".

Definition noMetadata : SubtitleStore.Metadata :=
  SubtitleStore.mkMetadata None (Some "whisper-large-v3") None None.

(** The scenario of the specification: at start time 10 a save with
    [{vi: "Xin chao"}], then one with [{en: "Hello"}]. *)
Definition saveVi : Save :=
  mkSave 13 "Hello" "en" {[ "vi" := Some "Xin chao" ]} noMetadata
    "2024-01-01T00:00:00.000Z" "2024-01-01T00:00:00.000Z"
    "2024-01-01T00:00:00.001Z".

Definition saveEn : Save :=
  mkSave 13 "Hello" "en" {[ "en" := Some "Hello" ]} noMetadata
    "2024-01-01T00:00:05.000Z" "2024-01-01T00:00:05.000Z"
    "2024-01-01T00:00:05.001Z".

(** The failing input of C8: the store after the first save of the
    scenario, then [addTranslation(url, 10, "pt", "Ola")]. *)
Definition storeWithSegment : SubtitleStore.DB :=
  saveAt (fun url => url) sampleUrl 10 saveVi SubtitleStore.emptyDB.

(** ** The sync gate *)

(** The four platforms of the allow-list; [WHITELISTED_SITES] lists each
    with and without [www.]. *)
Definition PLATFORMS : list string :=
  ["youtube.com"; "bilibili.com"; "vimeo.com"; "twitch.tv"].

(** The hostname names one of the platforms somewhere. *)
Definition namesPlatform (hostname : string) : Prop :=
  exists site, site ∈ PLATFORMS /\ includes hostname site = true.

(** The hostname is a platform or a subdomain of one. *)
Definition isPlatformHost (hostname : string) : bool :=
  existsb (fun site => String.eqb hostname site
                       || endsWith hostname ("." ++ site)) PLATFORMS.

(** A service that is configured and has the user's consent. *)
Definition readyService : DataSyncService.Service :=
  (DataSyncService.init
     (Some (DataSyncService.mkStorage (Some "test-device-id") (Some true)
              (Some "https://test.supabase.co") (Some "test-key")))
     "new-uuid").1.

(* ===================================================================== *)
(** * Part III: properties *)
(* ===================================================================== *)

(** ** Numbers *)

Lemma Qlt_bool_iff (a b : Q) : Qlt_bool a b = true <-> (a < b)%Q.
Proof.
  unfold Qlt_bool. rewrite negb_true_iff. split.
  - intros H. apply Qnot_le_lt. intros Hle.
    apply Qle_bool_iff in Hle. congruence.
  - intros H. destruct (Qle_bool b a) eqn:E; [|reflexivity].
    apply Qle_bool_iff in E. exfalso. exact (Qlt_not_le _ _ H E).
Qed.

Lemma Qlt_bool_false_iff (a b : Q) : Qlt_bool a b = false <-> (b <= a)%Q.
Proof.
  unfold Qlt_bool. rewrite negb_false_iff. apply Qle_bool_iff.
Qed.

(** ** The adaptive send interval (content.js) *)

Lemma slow_iff (p t : Z) :
  Qlt_bool (inject_Z p * 0.8)%Q (inject_Z t) = true <-> 8 * p < 10 * t.
Proof.
  rewrite Qlt_bool_iff. unfold Qlt. cbn. lia.
Qed.

Lemma fast_iff (p t : Z) :
  Qlt_bool (inject_Z t) (inject_Z p * 0.3)%Q = true <-> 10 * t < 3 * p.
Proof.
  rewrite Qlt_bool_iff. unfold Qlt. cbn. lia.
Qed.

Lemma adaptChunkSize_slow (t : Z) (st : Content) :
  8 * currentChunkDuration st < 10 * t ->
  currentChunkDuration st < 6000 ->
  adaptChunkSize t st =
  restartSendInterval
    (set_currentChunkDuration (Z.min 6000 (currentChunkDuration st + 500)) st).
Proof.
  intros Hslow Hlt. unfold adaptChunkSize.
  apply slow_iff in Hslow. rewrite Hslow.
  apply Z.ltb_lt in Hlt. rewrite Hlt. reflexivity.
Qed.

Lemma adaptChunkSize_fast (t : Z) (st : Content) :
  10 * t < 3 * currentChunkDuration st ->
  2000 < currentChunkDuration st ->
  adaptChunkSize t st =
  restartSendInterval
    (set_currentChunkDuration (Z.max 2000 (currentChunkDuration st - 500)) st).
Proof.
  intros Hfast Hgt. unfold adaptChunkSize.
  destruct (Qlt_bool (inject_Z (currentChunkDuration st) * 0.8)%Q (inject_Z t))
    eqn:Eslow.
  - apply slow_iff in Eslow. lia.
  - cbn [andb]. apply fast_iff in Hfast. rewrite Hfast.
    apply Z.ltb_lt in Hgt. rewrite Hgt. reflexivity.
Qed.

Lemma adaptChunkSize_steady (t : Z) (st : Content) :
  ~ (8 * currentChunkDuration st < 10 * t /\ currentChunkDuration st < 6000) ->
  ~ (10 * t < 3 * currentChunkDuration st /\ 2000 < currentChunkDuration st) ->
  adaptChunkSize t st = st.
Proof.
  intros Hn1 Hn2. unfold adaptChunkSize.
  destruct (Qlt_bool _ (inject_Z t) && _) eqn:E1.
  - apply andb_true_iff in E1 as [H1 H2].
    apply slow_iff in H1. apply Z.ltb_lt in H2. tauto.
  - destruct (Qlt_bool (inject_Z t) _ && _) eqn:E2; [|reflexivity].
    apply andb_true_iff in E2 as [H1 H2].
    apply fast_iff in H1. apply Z.ltb_lt in H2. tauto.
Qed.

(** The period stays between the two bounds once it is between them. *)
Lemma adaptChunkSize_bounds (t : Z) (st : Content) :
  2000 <= currentChunkDuration st <= 6000 ->
  2000 <= currentChunkDuration (adaptChunkSize t st) <= 6000.
Proof.
  intros Hb. unfold adaptChunkSize.
  destruct (_ && _); [cbn; lia|].
  destruct (_ && _); cbn; lia.
Qed.

(** C5.  One adaptation step, with "exceeds 80%" as [0.8 * period < time]
    and "below 30%" as [time < 0.3 * period]:
    - slow and below 6000 ms: the period becomes [min 6000 (period + 500)];
    - fast and above 2000 ms: the period becomes [max 2000 (period - 500)];
    - otherwise the state is unchanged;
    - the timer is rescheduled with the new period whenever it changes;
    - from the 3000 ms default, 2800 ms gives 3500 ms, then 400 ms gives
      3000 ms;
    - a period of at least 2000 ms never drops below 2000 ms, whatever the
      sequence of processing times. *)
Theorem adaptChunkSize_rule :
  (forall (t : Z) (st : Content),
      let p := currentChunkDuration st in
      let st' := adaptChunkSize t st in
      ((inject_Z p * 0.8 < inject_Z t)%Q /\ p < 6000 ->
       currentChunkDuration st' = Z.min 6000 (p + 500)
       /\ sendInterval st' = Some (currentChunkDuration st'))
      /\ ((inject_Z t < inject_Z p * 0.3)%Q /\ 2000 < p ->
          currentChunkDuration st' = Z.max 2000 (p - 500)
          /\ sendInterval st' = Some (currentChunkDuration st'))
      /\ (~ ((inject_Z p * 0.8 < inject_Z t)%Q /\ p < 6000) ->
          ~ ((inject_Z t < inject_Z p * 0.3)%Q /\ 2000 < p) ->
          st' = st))
  /\ currentChunkDuration (adaptChunkSize 2800 initialContent) = 3500
  /\ currentChunkDuration
       (adaptChunkSize 400 (adaptChunkSize 2800 initialContent)) = 3000
  /\ (forall (ts : list Z) (st : Content),
        2000 <= currentChunkDuration st ->
        2000 <= currentChunkDuration
                  (foldl (fun s t => adaptChunkSize t s) st ts)).
Proof.
  split; [|split; [|split]].
  - intros t st p st'. subst p st'.
    rewrite <- !Qlt_bool_iff, slow_iff, fast_iff.
    split; [|split].
    + intros [H1 H2]. rewrite (adaptChunkSize_slow _ _ H1 H2). split; reflexivity.
    + intros [H1 H2]. rewrite (adaptChunkSize_fast _ _ H1 H2). split; reflexivity.
    + apply adaptChunkSize_steady.
  - reflexivity.
  - reflexivity.
  - intros ts. induction ts as [|t ts IH]; intros st Hst; [exact Hst|].
    cbn [foldl]. apply IH.
    unfold adaptChunkSize.
    destruct (_ && _); [cbn; lia|].
    destruct (_ && _); cbn; lia.
Qed.

(** ** The freshness guard (content.js) *)

(** On the runtime-message path a chunk whose computed age exceeds 5000 ms
    is dropped: no message leaves the content script and the lag
    accumulator is 0. *)
Lemma sendToGroqAPI_drops_stale (audio : string) (videoTime : Q)
    (nowStart nowCheck nowDone : Z) (reply : option Reply) (st : Content) :
  (inject_Z MAX_LAG_MS < computedAge nowCheck videoTime)%Q ->
  sendToGroqAPI audio videoTime nowStart nowCheck nowDone reply st
  = (set_lagAccumulator 0 st, []).
Proof.
  intros Hage. unfold sendToGroqAPI.
  apply Qlt_bool_iff in Hage. unfold computedAge in Hage. rewrite Hage.
  reflexivity.
Qed.

(** On that path a chunk that is not older is sent, exactly once. *)
Lemma sendToGroqAPI_sends_fresh (audio : string) (videoTime : Q)
    (nowStart nowCheck nowDone : Z) (reply : option Reply) (st : Content) :
  (computedAge nowCheck videoTime <= inject_Z MAX_LAG_MS)%Q ->
  length (networkCalls
            (sendToGroqAPI audio videoTime nowStart nowCheck nowDone reply st).2)
  = 1%nat.
Proof.
  intros Hage. unfold sendToGroqAPI.
  apply Qlt_bool_false_iff in Hage. unfold computedAge in Hage. rewrite Hage.
  destruct reply as [response|]; [|reflexivity].
  destruct (truthy (reply_error response)); reflexivity.
Qed.

(** In the mode ["groq"] a flush of a chunk whose computed age exceeds
    5000 ms sends nothing and resets the lag accumulator. *)
Lemma sendAudioChunks_groq_drops_stale (hostLE : bool)
    (nowStart nowCheck nowDone : Z) (reply : option Reply) (st : Content)
    (videoTime : Q) :
  audioChunks st <> [] ->
  activeVideo st = Some videoTime ->
  apiMode (currentSettings st) = "groq" ->
  (inject_Z MAX_LAG_MS < computedAge nowCheck videoTime)%Q ->
  sendAudioChunks hostLE nowStart nowCheck nowDone reply st
  = (set_lagAccumulator 0 (set_audioChunks [] st), []).
Proof.
  intros Hchunks Hvideo Hmode Hage. unfold sendAudioChunks.
  rewrite Hvideo. destruct (audioChunks st) as [|chunk chunks]; [congruence|].
  cbn [currentSettings set_audioChunks]. rewrite Hmode, String.eqb_refl.
  apply sendToGroqAPI_drops_stale. exact Hage.
Qed.

(** The computed age is the age when the video time is a whole number of
    milliseconds, as at 10 s against a clock of 16 s; at the threshold the
    two can differ: the video time just below 1 s, 1 - 3 * 2^-53, against a
    clock of 6000 ms has an age above 5000 ms and a computed age of 5000 ms,
    and the chunk is sent. *)
Example computedAge_examples :
  (computedAge 16000 10 == chunkAge 16000 10)%Q
  /\ (inject_Z MAX_LAG_MS
      < chunkAge 6000 (9007199254740989 # 9007199254740992))%Q
  /\ (computedAge 6000 (9007199254740989 # 9007199254740992)
      == inject_Z MAX_LAG_MS)%Q
  /\ sendToGroqAPI "AAA=" (9007199254740989 # 9007199254740992) 6000 6000
       6050 None initialContent
     = (initialContent,
        [RuntimeSendMessage
           (mkTranscribeRequest "AAA=" EmptyString "auto" "vi" true)]).
Proof. repeat split. Qed.

(** C4.  The guard is not applied in every processing mode: in any mode
    other than ["groq"], with the socket open, a flush sends the chunk over
    the WebSocket whatever its age, also when the age exceeds 5000 ms; the
    state keeps its lag accumulator, only the capture buffer is emptied. *)
Theorem sendAudioChunks_local_sends_stale (hostLE : bool)
    (nowStart nowCheck nowDone : Z) (reply : option Reply) (st : Content)
    (videoTime : Q) :
  audioChunks st <> [] ->
  activeVideo st = Some videoTime ->
  apiMode (currentSettings st) <> "groq" ->
  websocket st = Some OPEN ->
  (inject_Z MAX_LAG_MS < chunkAge nowCheck videoTime)%Q ->
  sendAudioChunks hostLE nowStart nowCheck nowDone reply st
  = (set_audioChunks [] st,
     [WebSocketSend
        (mkSocketPayload
           (arrayBufferToBase64
              (bufferOfInt16Array hostLE (concat (audioChunks st))))
           (sourceLang (currentSettings st))
           (targetLang (currentSettings st))
           (showOriginal (currentSettings st)) videoTime)]).
Proof.
  intros Hchunks Hvideo Hmode Hopen _. unfold sendAudioChunks.
  rewrite Hvideo. destruct (audioChunks st) as [|chunk chunks]; [congruence|].
  cbn [currentSettings set_audioChunks].
  apply String.eqb_neq in Hmode. rewrite Hmode.
  unfold sendToLocalBackend. cbn [websocket set_audioChunks currentSettings].
  rewrite Hopen. reflexivity.
Qed.

(** The failing input of C4: the wall clock reads 10000 ms. *)
Lemma sendAudioChunks_local_sends_stale_witness :
  (inject_Z MAX_LAG_MS < chunkAge 10000 0)%Q
  /\ sendAudioChunks true 10000 10000 10050 None staleLocalSession
     = (set_audioChunks [] staleLocalSession,
        [WebSocketSend (mkSocketPayload "AQD+/w==" "auto" "vi" true 0%Q)]).
Proof.
  split; [reflexivity|].
  apply (sendAudioChunks_local_sends_stale true 10000 10000 10050 None
           staleLocalSession 0).
  - discriminate.
  - reflexivity.
  - discriminate.
  - reflexivity.
  - reflexivity.
Defined.

(** ** Sample encoding (content.js) *)

Lemma Qtrunc_inject_Z (n : Z) : Qtrunc (inject_Z n) = n.
Proof. unfold Qtrunc. cbn. apply Z.quot_1_r. Qed.

Lemma Qtrunc_integer (v : Q) (n : Z) : (v == inject_Z n)%Q -> Qtrunc v = n.
Proof.
  unfold Qeq, Qtrunc. cbn. intros H. rewrite Z.mul_1_r in H. rewrite H.
  apply Z.quot_mul. lia.
Qed.

Lemma Qtrunc_bounds (v : Q) (lo hi : Z) :
  lo <= 0 <= hi -> (inject_Z lo <= v)%Q -> (v <= inject_Z hi)%Q ->
  lo <= Qtrunc v <= hi.
Proof.
  unfold Qle, Qtrunc. destruct v as [n d]. cbn.
  rewrite !Z.mul_1_r. intros Hz Hlo Hhi.
  destruct (Z.le_gt_cases 0 n) as [Hn|Hn].
  - rewrite Z.quot_div_nonneg by lia. split.
    + transitivity 0; [lia|]. apply Z.div_pos; lia.
    + apply Z.div_le_upper_bound; lia.
  - replace n with (- (- n)) by lia. rewrite Z.quot_opp_l by lia.
    rewrite Z.quot_div_nonneg by lia. split.
    + cut ((- n) / Z.pos d <= - lo); [lia|].
      apply Z.div_le_upper_bound; lia.
    + cut (0 <= (- n) / Z.pos d); [lia|]. apply Z.div_pos; lia.
Qed.

(** The three cases of [Math.max(-32768, Math.min(32767, v))]. *)
Lemma clampSample_cases (x : Q) :
  let v := (x * 32768)%Q in
  ((v <= -32768)%Q /\ clampSample x = (-32768)%Q)
  \/ ((32767 <= v)%Q /\ clampSample x = 32767%Q)
  \/ ((-32768 < v)%Q /\ (v < 32767)%Q /\ clampSample x = v).
Proof.
  intros v. unfold clampSample. fold v.
  unfold Qmin, GenericMinMax.gmin.
  destruct (32767 ?= v)%Q eqn:Ehi.
  - right; left. split; [apply Qeq_alt in Ehi; rewrite Ehi; apply Qle_refl|].
    reflexivity.
  - right; left. split; [apply Qlt_alt in Ehi; apply Qlt_le_weak; exact Ehi|].
    reflexivity.
  - apply Qgt_alt in Ehi.
    unfold Qmax, GenericMinMax.gmax.
    destruct (-32768 ?= v)%Q eqn:Elo.
    + left. split; [apply Qeq_alt in Elo; rewrite <- Elo; apply Qle_refl|].
      reflexivity.
    + right; right. apply Qlt_alt in Elo. auto.
    + left. apply Qgt_alt in Elo. split; [apply Qlt_le_weak; exact Elo|].
      reflexivity.
Qed.

Lemma ToInt16_in_range (v : Q) :
  -32768 <= Qtrunc v <= 32767 -> ToInt16 v = Qtrunc v.
Proof.
  intros H. unfold ToInt16. rewrite Z.mod_small by lia. lia.
Qed.

(** One element.  For every finite sample [x], with [v = x * 32768]:
    - the stored element is [v] clamped into [-32768, 32767], as the
      integer the [Int16Array] keeps of it (its integral part), and the
      conversion does not wrap;
    - [v] at or above 32767 is stored as 32767, [v] at or below -32768 as
      -32768;
    - [v] inside the range is stored as its integral part, so an integer
      [v] is stored as itself. *)
Lemma encodeSample_element (x : Q) :
  let v := (x * 32768)%Q in
  encodeSample x = Qtrunc (clampSample x)
  /\ -32768 <= encodeSample x <= 32767
  /\ ((32767 <= v)%Q -> encodeSample x = 32767)
  /\ ((v <= -32768)%Q -> encodeSample x = -32768)
  /\ ((-32768 <= v)%Q -> (v <= 32767)%Q -> encodeSample x = Qtrunc v)
  /\ (forall n : Z, (v == inject_Z n)%Q -> -32768 <= n <= 32767 ->
                    encodeSample x = n).
Proof.
  intros v. unfold encodeSample.
  destruct (clampSample_cases x) as [[Hv Hc]|[[Hv Hc]|(Hlo & Hhi & Hc)]];
    fold v in Hv || fold v in Hlo, Hhi, Hc; rewrite Hc.
  - change (ToInt16 (-32768)%Q) with (-32768).
    change (Qtrunc (-32768)%Q) with (-32768).
    repeat split; try lia.
    + intros H. assert (Heq : (v == -32768)%Q).
      { apply Qle_antisym; [exact Hv|]. eapply Qle_trans; [|exact H]. discriminate. }
      exfalso. rewrite Heq in H. revert H. apply Qlt_not_le. reflexivity.
    + intros H _. symmetry. apply Qtrunc_integer.
      apply Qle_antisym; assumption.
    + intros n Hn Hr. symmetry. rewrite <- (Qtrunc_integer v n Hn).
      apply Qtrunc_integer. apply Qle_antisym; [exact Hv|].
      rewrite Hn. rewrite <- Zle_Qle. lia.
  - change (ToInt16 32767%Q) with 32767.
    change (Qtrunc 32767%Q) with 32767.
    repeat split; try lia.
    + intros H. exfalso.
      assert (H' : (32767 <= -32768)%Q) by (eapply Qle_trans; eassumption).
      revert H'. apply Qlt_not_le. reflexivity.
    + intros _ H. symmetry. apply Qtrunc_integer.
      apply Qle_antisym; assumption.
    + intros n Hn Hr. symmetry. rewrite <- (Qtrunc_integer v n Hn).
      apply Qtrunc_integer. apply Qle_antisym; [|exact Hv].
      rewrite Hn. rewrite <- Zle_Qle. lia.
  - assert (Hb : -32768 <= Qtrunc v <= 32767).
    { apply Qtrunc_bounds; [lia| |]; apply Qlt_le_weak; assumption. }
    rewrite (ToInt16_in_range v Hb).
    repeat split; try lia.
    + intros H. exfalso. exact (Qlt_not_le _ _ Hhi H).
    + intros H. exfalso. exact (Qlt_not_le _ _ Hlo H).
    + intros n Hn _. apply Qtrunc_integer. exact Hn.
Qed.

(** C6.  What the capture callback stores.  While the session is disabled
    it stores nothing.  While it is enabled it appends one block to the
    capture buffer and changes nothing else; the block has one element for
    each sample of the input, in order, and for a finite sample [x], with
    [v = x * 32768], the element is the integral part of [v] clamped into
    [-32768, 32767]:
    - it lies in [-32768, 32767], and the conversion to 16 bits does not
      wrap;
    - [v] at or above 32767 is stored as 32767, [v] at or below -32768 as
      -32768;
    - [v] inside the range is stored as its integral part, so an integer
      [v] is stored as itself. *)
Theorem onaudioprocess_clamps (inputData : list Q) (st : Content) :
  let st' := onaudioprocess inputData st in
  (isEnabled st = false -> st' = st)
  /\ (isEnabled st = true ->
      exists block,
        st' = set_audioChunks (audioChunks st ++ [block]) st
        /\ length block = length inputData
        /\ forall (i : nat) (x : Q),
             inputData !! i = Some x ->
             exists s,
               block !! i = Some s
               /\ s = Qtrunc (clampSample x)
               /\ -32768 <= s <= 32767
               /\ ((32767 <= x * 32768)%Q -> s = 32767)
               /\ ((x * 32768 <= -32768)%Q -> s = -32768)
               /\ ((-32768 <= x * 32768)%Q -> (x * 32768 <= 32767)%Q ->
                   s = Qtrunc (x * 32768))
               /\ (forall n : Z,
                     (x * 32768 == inject_Z n)%Q -> -32768 <= n <= 32767 ->
                     s = n)).
Proof.
  intros st'. subst st'. unfold onaudioprocess. split.
  - intros ->. reflexivity.
  - intros ->. cbn [negb]. exists (map encodeSample inputData).
    split; [reflexivity|]. split; [apply length_map|].
    intros i x Hx. exists (encodeSample x).
    split; [rewrite list_lookup_fmap, Hx; reflexivity|].
    exact (encodeSample_element x).
Qed.

(** C6 as stated fails on the sample [3/65536], a value of a
    [Float32Array]: its product with 32768 is 3/2, inside the range, and
    the element stored is 1. *)
Lemma onaudioprocess_counterexample :
  audioChunks
    (onaudioprocess [(3 # 65536)%Q] (set_isEnabled true initialContent))
  = [[1]]
  /\ (clampSample (3 # 65536) == 3 # 2)%Q.
Proof. split; reflexivity. Qed.

(** ** The translation context (background.js) *)

Lemma truthy_Some (s : string) : s <> EmptyString -> truthy (Some s) = true.
Proof.
  intros H. cbn. apply negb_true_iff. apply String.eqb_neq. exact H.
Qed.

Lemma updateContext_length (original translated : option string)
    (ctx : list ContextEntry) :
  (length ctx <= MAX_CONTEXT_SIZE)%nat ->
  (length (updateContext original translated ctx) <= MAX_CONTEXT_SIZE)%nat.
Proof.
  intros Hlen. unfold updateContext.
  destruct (truthy original && truthy translated); [|exact Hlen].
  case_decide as Hover; [|lia].
  rewrite length_tl, length_app. cbn [length]. lia.
Qed.

Lemma pushEntry_lastN (ctx : list ContextEntry) (e : ContextEntry) :
  nonEmptyEntry e -> (length ctx <= MAX_CONTEXT_SIZE)%nat ->
  pushEntry ctx e = lastN MAX_CONTEXT_SIZE (ctx ++ [e]).
Proof.
  intros [Ho Ht] Hlen. unfold pushEntry, updateContext, lastN.
  rewrite (truthy_Some _ Ho), (truthy_Some _ Ht).
  destruct e as [o t]. cbn [andb default from_option id ctx_original ctx_translated].
  rewrite !length_app. cbn [length].
  case_decide as Hover.
  - assert (Hl : length ctx = MAX_CONTEXT_SIZE) by lia.
    rewrite Hl. unfold MAX_CONTEXT_SIZE in *.
    destruct ctx as [|a ctx]; [discriminate|]. reflexivity.
  - replace (length ctx + 1 - MAX_CONTEXT_SIZE)%nat with 0%nat by lia.
    reflexivity.
Qed.

Lemma lastN_length {A} (n : nat) (l : list A) :
  (length (lastN n l) <= n)%nat.
Proof. unfold lastN. rewrite length_drop. lia. Qed.

Lemma lastN_snoc {A} (n : nat) (l : list A) (x : A) :
  lastN (S n) (lastN (S n) l ++ [x]) = lastN (S n) (l ++ [x]).
Proof.
  unfold lastN. rewrite !length_app, length_drop. cbn [length].
  destruct (Nat.le_gt_cases (length l) (S n)) as [Hle|Hgt].
  - replace (length l - S n)%nat with 0%nat by lia. rewrite drop_0.
    f_equal. lia.
  - rewrite drop_app_le by (rewrite length_drop; lia).
    rewrite drop_drop, drop_app_le by lia.
    f_equal. f_equal. lia.
Qed.

(** After any number of successful pushes the context is the last three
    entries pushed, in the order of arrival. *)
Lemma pushes_lastN (es : list ContextEntry) :
  Forall nonEmptyEntry es ->
  foldl pushEntry [] es = lastN MAX_CONTEXT_SIZE es.
Proof.
  induction es as [|e es IH] using rev_ind; intros Hes; [reflexivity|].
  apply Forall_app in Hes as [Hes He]. apply Forall_cons in He as [He _].
  rewrite foldl_app. cbn [foldl]. rewrite (IH Hes).
  rewrite pushEntry_lastN by (auto using lastN_length).
  apply lastN_snoc.
Qed.

Lemma handleBackendProcessing_context (hostLE : bool) (config : Config)
    (message : TranscribeMessage) (response : FetchOutcome Reply)
    (ctx : list ContextEntry) :
  let h := handleBackendProcessing hostLE config message response ctx in
  contextAfter h = ctx
  \/ exists result,
       outcome h = inr result
       /\ contextAfter h
          = updateContext (reply_original result) (reply_translated result) ctx.
Proof.
  unfold handleBackendProcessing.
  destruct (_ || _); [left; reflexivity|].
  destruct (base64ToBlob _ _); [|left; reflexivity].
  destruct response as [|status json]; [left; reflexivity|].
  destruct (negb (ok status)); [left; reflexivity|].
  destruct json as [result|]; [|left; reflexivity].
  destruct (reply_text result); [|left; reflexivity].
  right. exists result. split; reflexivity.
Qed.

Lemma handleDirectProcessing_context (hostLE : bool)
    (message : TranscribeMessage)
    (transcription : FetchOutcome TranscriptionBody)
    (translation : FetchOutcome ChatBody) (ctx : list ContextEntry) :
  let h := handleDirectProcessing hostLE message transcription translation ctx in
  contextAfter h = ctx
  \/ exists result,
       outcome h = inr result
       /\ contextAfter h
          = updateContext (reply_original result) (reply_translated result) ctx.
Proof.
  unfold handleDirectProcessing.
  destruct (negb _); [left; reflexivity|].
  destruct (base64ToBlob _ _); [|left; reflexivity].
  destruct transcription as [|status json]; [left; reflexivity|].
  destruct (negb (ok status)); [left; reflexivity|].
  destruct json as [result|]; [|left; reflexivity].
  destruct (truthy (msg_targetLang message)).
  - destruct (translateText _ _ _) as [e|translated]; [left; reflexivity|].
    right. eexists. split; reflexivity.
  - right. eexists. split; reflexivity.
Qed.

Lemma onMessage_context_length (hostLE : bool) (config : Config)
    (m : Message) (bg : Background) :
  (length (translationContext bg) <= MAX_CONTEXT_SIZE)%nat ->
  (length (translationContext (onMessage hostLE config m bg).1.1)
   <= MAX_CONTEXT_SIZE)%nat.
Proof.
  intros Hlen. destruct m as [|enabled|message proxy transcription translation| |];
    cbn [onMessage fst translationContext]; try assumption.
  - case_decide.
    + destruct (handleBackendProcessing_context hostLE config message proxy
                  (translationContext bg)) as [->|(r & _ & ->)];
        auto using updateContext_length.
    + destruct (handleDirectProcessing_context hostLE message transcription
                  translation (translationContext bg)) as [->|(r & _ & ->)];
        auto using updateContext_length.
  - cbn. lia.
Qed.

Lemma lastN_all {A} (n : nat) (l : list A) :
  (length l <= n)%nat -> lastN n l = l.
Proof.
  intros H. unfold lastN.
  replace (length l - n)%nat with 0%nat by lia. reflexivity.
Qed.

(** The update block appends the pair when both texts are there and keeps
    the last three entries. *)
Lemma updateContext_lastN (original translated : option string)
    (ctx : list ContextEntry) :
  (length ctx <= MAX_CONTEXT_SIZE)%nat ->
  updateContext original translated ctx
  = lastN MAX_CONTEXT_SIZE
      (ctx ++ match original, translated with
              | Some o, Some t =>
                  if String.eqb o EmptyString || String.eqb t EmptyString
                  then [] else [mkContextEntry o t]
              | _, _ => []
              end).
Proof.
  intros Hlen.
  destruct original as [o|], translated as [t|];
    try (unfold updateContext; cbn [truthy andb];
         rewrite ?andb_false_r, app_nil_r, lastN_all by exact Hlen;
         reflexivity).
  destruct (String.eqb_spec o EmptyString) as [->|Ho].
  { unfold updateContext. cbn [truthy String.eqb negb andb orb].
    rewrite app_nil_r, lastN_all by exact Hlen. reflexivity. }
  destruct (String.eqb_spec t EmptyString) as [->|Ht].
  { unfold updateContext. cbn [truthy String.eqb negb andb orb].
    rewrite andb_false_r, app_nil_r, lastN_all by exact Hlen. reflexivity. }
  cbn [orb].
  apply (pushEntry_lastN ctx (mkContextEntry o t)); [split; assumption|].
  exact Hlen.
Qed.

Lemma handleBackendProcessing_ledger (hostLE : bool) (config : Config)
    (message : TranscribeMessage) (response : FetchOutcome Reply)
    (ctx : list ContextEntry) :
  (length ctx <= MAX_CONTEXT_SIZE)%nat ->
  let h := handleBackendProcessing hostLE config message response ctx in
  contextAfter h = lastN MAX_CONTEXT_SIZE (ctx ++ appendedBy h).
Proof.
  intros Hlen h. subst h.
  assert (Hfail : ctx = lastN MAX_CONTEXT_SIZE (ctx ++ []))
    by (rewrite app_nil_r, lastN_all by exact Hlen; reflexivity).
  unfold handleBackendProcessing.
  destruct (_ || _); [exact Hfail|].
  destruct (base64ToBlob _ _); [|exact Hfail].
  destruct response as [|status json]; [exact Hfail|].
  destruct (negb (ok status)); [exact Hfail|].
  destruct json as [result|]; [|exact Hfail].
  destruct (reply_text result); [|exact Hfail].
  unfold appendedBy. cbn [outcome contextAfter].
  apply updateContext_lastN. exact Hlen.
Qed.

Lemma handleDirectProcessing_ledger (hostLE : bool)
    (message : TranscribeMessage)
    (transcription : FetchOutcome TranscriptionBody)
    (translation : FetchOutcome ChatBody) (ctx : list ContextEntry) :
  (length ctx <= MAX_CONTEXT_SIZE)%nat ->
  let h := handleDirectProcessing hostLE message transcription translation
             ctx in
  contextAfter h = lastN MAX_CONTEXT_SIZE (ctx ++ appendedBy h).
Proof.
  intros Hlen h. subst h.
  assert (Hfail : ctx = lastN MAX_CONTEXT_SIZE (ctx ++ []))
    by (rewrite app_nil_r, lastN_all by exact Hlen; reflexivity).
  unfold handleDirectProcessing.
  destruct (negb _); [exact Hfail|].
  destruct (base64ToBlob _ _); [|exact Hfail].
  destruct transcription as [|status json]; [exact Hfail|].
  destruct (negb (ok status)); [exact Hfail|].
  destruct json as [result|]; [|exact Hfail].
  destruct (truthy (msg_targetLang message)).
  - destruct (translateText _ _ _) as [e|translated]; [exact Hfail|].
    unfold appendedBy. cbn [outcome contextAfter reply_original
                            reply_translated].
    apply updateContext_lastN. exact Hlen.
  - unfold appendedBy. cbn [outcome contextAfter reply_original
                            reply_translated].
    apply updateContext_lastN. exact Hlen.
Qed.

Lemma lastN_lastN_app {A} (n : nat) (l x : list A) :
  (length x <= 1)%nat ->
  lastN (S n) (lastN (S n) l ++ x) = lastN (S n) (l ++ x).
Proof.
  intros Hx. destruct x as [|a [|b x]]; [| |cbn in Hx; lia].
  - rewrite !app_nil_r. apply lastN_all. apply lastN_length.
  - apply lastN_snoc.
Qed.

Lemma appendedBy_length (h : Handled) : (length (appendedBy h) <= 1)%nat.
Proof.
  unfold appendedBy. destruct (outcome h) as [e|result]; [cbn; lia|].
  destruct (reply_original result), (reply_translated result);
    try (cbn; lia).
  destruct (_ || _); cbn; lia.
Qed.

(** The context is the last three of the entries appended since the last
    reset, along any sequence of messages. *)
Lemma ledgerStep_lastN (hostLE : bool) (config : Config) (ms : list Message)
    (acc : Background * list ContextEntry) :
  translationContext acc.1 = lastN MAX_CONTEXT_SIZE acc.2 ->
  let acc' := foldl (ledgerStep hostLE config) acc ms in
  translationContext acc'.1 = lastN MAX_CONTEXT_SIZE acc'.2
  /\ acc'.1 = runMessages hostLE config ms acc.1.
Proof.
  revert acc. induction ms as [|m ms IH]; intros acc Hacc; [split; auto|].
  cbn [foldl runMessages]. unfold runMessages in IH |- *. cbn [foldl].
  specialize (IH (ledgerStep hostLE config acc m)).
  cbn [ledgerStep fst] in IH. apply IH. clear IH.
  assert (Hlen : (length (translationContext acc.1) <= MAX_CONTEXT_SIZE)%nat)
    by (rewrite Hacc; apply lastN_length).
  destruct m as [|enabled|message proxy transcription translation| |];
    cbn [onMessage fst snd translationContext ledgerStep]; try exact Hacc.
  - unfold handled. case_decide.
    + rewrite handleBackendProcessing_ledger by exact Hlen.
      rewrite Hacc. apply lastN_lastN_app, appendedBy_length.
    + rewrite handleDirectProcessing_ledger by exact Hlen.
      rewrite Hacc. apply lastN_lastN_app, appendedBy_length.
  - reflexivity.
Qed.

(** C3.  The translation context never holds more than 3 entries, and it
    is kept first in, first out:
    - the bound holds after any sequence of messages handled by the
      background script, whether a [transcribe] goes to the proxied or to
      the direct handler, and each handler keeps it;
    - each handler, proxied and direct, leaves the last three of the
      context it found followed by what the request appends: the pair of
      texts of a successful result that has both, nothing otherwise;
    - after any sequence of messages the context is the last three of the
      entries appended since the last reset, in arrival order;
    - four proxied requests that succeed with the pairs [e1], [e2], [e3],
      [e4] leave [e2; e3; e4], and so do four direct requests;
    - pushing onto a full context [a; b; c] gives [b; c; e], and any number
      of pushes from the empty context leaves the last three pushed. *)
Theorem translationContext_bounded :
  (forall hostLE config (ms : list Message),
      (length (translationContext
                 (runMessages hostLE config ms initialBackground)) <= 3)%nat)
  /\ (forall hostLE config message response ctx,
        (length ctx <= 3)%nat ->
        (length (contextAfter
                   (handleBackendProcessing hostLE config message response ctx))
         <= 3)%nat)
  /\ (forall hostLE message transcription translation ctx,
        (length ctx <= 3)%nat ->
        (length (contextAfter
                   (handleDirectProcessing hostLE message transcription
                      translation ctx)) <= 3)%nat)
  /\ (forall hostLE config message response ctx,
        (length ctx <= 3)%nat ->
        let h := handleBackendProcessing hostLE config message response ctx in
        contextAfter h = lastN 3 (ctx ++ appendedBy h))
  /\ (forall hostLE message transcription translation ctx,
        (length ctx <= 3)%nat ->
        let h := handleDirectProcessing hostLE message transcription
                   translation ctx in
        contextAfter h = lastN 3 (ctx ++ appendedBy h))
  /\ (forall hostLE config (ms : list Message),
        translationContext (runMessages hostLE config ms initialBackground)
        = lastN 3 (appended hostLE config ms))
  /\ (forall hostLE e1 e2 e3 e4,
        Forall nonEmptyEntry [e1; e2; e3; e4] ->
        translationContext
          (runMessages hostLE sampleConfig (map proxied [e1; e2; e3; e4])
             initialBackground)
        = [e2; e3; e4])
  /\ (forall hostLE,
        translationContext
          (runMessages hostLE sampleConfig
             [direct "one" "mot"; direct "two" "hai"; direct "three" "ba";
              direct "four" "bon"]
             initialBackground)
        = [mkContextEntry "two" "hai"; mkContextEntry "three" "ba";
           mkContextEntry "four" "bon"])
  /\ (forall a b c e, nonEmptyEntry e -> pushEntry [a; b; c] e = [b; c; e])
  /\ (forall es, Forall nonEmptyEntry es ->
                 foldl pushEntry [] es = lastN 3 es)
  /\ (forall e1 e2 e3 e4,
        Forall nonEmptyEntry [e1; e2; e3; e4] ->
        foldl pushEntry [] [e1; e2; e3; e4] = [e2; e3; e4]).
Proof.
  split; [|split; [|split; [|split; [|split; [|split; [|split; [|split;
    [|split; [|split]]]]]]]]].
  - intros hostLE config ms. unfold runMessages.
    assert (Hgen : forall bg,
               (length (translationContext bg) <= MAX_CONTEXT_SIZE)%nat ->
               (length (translationContext
                          (foldl (fun bg m => (onMessage hostLE config m bg).1.1)
                             bg ms)) <= MAX_CONTEXT_SIZE)%nat).
    { induction ms as [|m ms IH]; intros bg Hbg; [exact Hbg|].
      cbn [foldl]. apply IH. apply onMessage_context_length. exact Hbg. }
    apply Hgen. unfold initialBackground, MAX_CONTEXT_SIZE. cbn. lia.
  - intros hostLE config message response ctx Hlen.
    destruct (handleBackendProcessing_context hostLE config message response ctx)
      as [->|(r & _ & ->)]; [exact Hlen|].
    apply updateContext_length. exact Hlen.
  - intros hostLE message transcription translation ctx Hlen.
    destruct (handleDirectProcessing_context hostLE message transcription
                translation ctx) as [->|(r & _ & ->)]; [exact Hlen|].
    apply updateContext_length. exact Hlen.
  - intros hostLE config message response ctx Hlen.
    apply handleBackendProcessing_ledger. exact Hlen.
  - intros hostLE message transcription translation ctx Hlen.
    apply handleDirectProcessing_ledger. exact Hlen.
  - intros hostLE config ms. unfold appended.
    destruct (ledgerStep_lastN hostLE config ms (initialBackground, []))
      as [H1 H2]; [reflexivity|].
    cbn [fst] in H2. rewrite <- H2. exact H1.
  - intros hostLE [o1 t1] [o2 t2] [o3 t3] [o4 t4] Hes.
    repeat (apply Forall_cons in Hes; destruct Hes as [[? ?] Hes]).
    cbn [ctx_original ctx_translated] in *.
    destruct o1, t1, o2, t2, o3, t3, o4, t4; try congruence.
    destruct hostLE; vm_compute; reflexivity.
  - intros hostLE. destruct hostLE; vm_compute; reflexivity.
  - intros a b c e He. rewrite pushEntry_lastN; [reflexivity|exact He|].
    unfold MAX_CONTEXT_SIZE. cbn. lia.
  - exact pushes_lastN.
  - intros e1 e2 e3 e4 Hes. rewrite (pushes_lastN _ Hes). reflexivity.
Qed.

(** ** The translation leg of direct processing (background.js) *)

(** A translation answered with a status outside 200..299 degrades to the
    empty translation: the handler returns the transcription. *)
Lemma handleDirectProcessing_translation_not_ok (hostLE : bool)
    (message : TranscribeMessage) (result : TranscriptionBody)
    (status status' : Z) (body : option ChatBody)
    (ctx : list ContextEntry) (blob : list Z) :
  truthy (msg_groqApiKey message) = true ->
  base64ToBlob hostLE (msg_audio message) = Some blob ->
  truthy (msg_targetLang message) = true ->
  ok status = true -> ok status' = false ->
  let h := handleDirectProcessing hostLE message
             (HttpResponse status (Some result))
             (HttpResponse status' body) ctx in
  exists reply,
    outcome h = inr reply
    /\ reply_original reply = tb_text result
    /\ reply_text reply = tb_text result
    /\ reply_translated reply = Some EmptyString
    /\ contextAfter h = ctx.
Proof.
  intros Hkey Hblob Htarget Hok Hnot h. subst h.
  unfold handleDirectProcessing, translateText.
  rewrite Hkey, Hblob, Hok, Htarget, Hnot. cbn [negb].
  eexists. split; [reflexivity|]. cbn.
  unfold updateContext. cbn. rewrite andb_false_r. auto.
Qed.

(** C7.  A translation whose [fetch] rejects (a network failure) is not
    degraded to an empty translation: the exception leaves
    [translateText] and [handleDirectProcessing], the transcription that
    had succeeded is not returned, and the reply to the content script is
    an error object without [original]. *)
Theorem handleDirectProcessing_translation_rejected (hostLE : bool)
    (message : TranscribeMessage) (result : TranscriptionBody) (status : Z)
    (ctx : list ContextEntry) (blob : list Z) :
  truthy (msg_groqApiKey message) = true ->
  base64ToBlob hostLE (msg_audio message) = Some blob ->
  truthy (msg_targetLang message) = true ->
  ok status = true ->
  let h := handleDirectProcessing hostLE message
             (HttpResponse status (Some result)) NetworkFailure ctx in
  outcome h = inl FetchRejected
  /\ contextAfter h = ctx
  /\ reply_original (sendResponse h) = None
  /\ reply_translated (sendResponse h) = None
  /\ reply_error (sendResponse h) = Some "Failed to fetch".
Proof.
  intros Hkey Hblob Htarget Hok h. subst h.
  unfold handleDirectProcessing, translateText.
  rewrite Hkey, Hblob, Hok, Htarget. cbn [negb].
  repeat split.
Qed.

Lemma handleDirectProcessing_translation_rejected_witness :
  let h := handleDirectProcessing true directRequest
             (HttpResponse 200 (Some (mkTranscriptionBody (Some "hello") None)))
             NetworkFailure [] in
  outcome h = inl FetchRejected
  /\ contextAfter h = []
  /\ reply_original (sendResponse h) = None
  /\ reply_translated (sendResponse h) = None
  /\ reply_error (sendResponse h) = Some "Failed to fetch".
Proof.
  apply (handleDirectProcessing_translation_rejected true directRequest
           (mkTranscriptionBody (Some "hello") None) 200 []
           (default [] (base64ToBlob true "AAA=")));
    reflexivity.
Defined.

(** ** The subtitle store (DataSyncService.js) *)

Section Store.

Import SubtitleStore.

Variable sha256Hex : string -> string.

Local Abbreviation generateVideoId := (generateVideoId sha256Hex).
Local Abbreviation saveVideo := (saveVideo sha256Hex).
Local Abbreviation saveSegment := (saveSegment sha256Hex).
Local Abbreviation addTranslation := (addTranslation sha256Hex).
Local Abbreviation getVideo := (getVideo sha256Hex).
Local Abbreviation segmentsAt := (segmentsAt sha256Hex).
Local Abbreviation call := (call sha256Hex).
Local Abbreviation calls := (calls sha256Hex).
Local Abbreviation saveAt := (saveAt sha256Hex).
Local Abbreviation savesAt := (savesAt sha256Hex).
Local Abbreviation holds := (holds sha256Hex).

(** *** Video records *)

Lemma saveVideo_videos (url title : string) (duration : Q)
    (now1 now2 : string) (db : DB) :
  videos (saveVideo url title duration now1 now2 db).1
  = <[generateVideoId url := (saveVideo url title duration now1 now2 db).2]>
      (videos db).
Proof. reflexivity. Qed.

Lemma saveVideo_segments (url title : string) (duration : Q)
    (now1 now2 : string) (db : DB) :
  segments (saveVideo url title duration now1 now2 db).1 = segments db
  /\ keyGenerator (saveVideo url title duration now1 now2 db).1
     = keyGenerator db.
Proof. split; reflexivity. Qed.

Lemma saveVideo_createdAt (url title : string) (duration : Q)
    (now1 now2 : string) (db : DB) :
  createdAt (saveVideo url title duration now1 now2 db).2
  = match videos db !! generateVideoId url with
    | Some existing => createdAt existing
    | None => now1
    end.
Proof.
  unfold SubtitleStore.saveVideo.
  destruct (videos db !! generateVideoId url); reflexivity.
Qed.

Lemma cursorUpdate_videos (key : Z) (value : Segment) (db : DB) :
  videos (cursorUpdate key value db) = videos db.
Proof. reflexivity. Qed.

Lemma saveSegment_videos (videoUrl : string) (startTime endTime : Q)
    (original sourceLang : string) (given : Translations)
    (metadata : Metadata) (now1 now2 now3 : string) (db : DB) :
  videos (saveSegment videoUrl startTime endTime original sourceLang given
            metadata now1 now2 now3 db).1
  = videos (saveVideo videoUrl EmptyString 0 now1 now2 db).1.
Proof.
  unfold SubtitleStore.saveSegment.
  destruct (openCursor _ _ _) as [[key existing]|]; reflexivity.
Qed.

Lemma addTranslation_videos (videoUrl : string) (startTime : Q)
    (lang : string) (translation : option string) (db : DB) :
  videos (addTranslation videoUrl startTime lang translation db).1 = videos db.
Proof.
  unfold SubtitleStore.addTranslation.
  destruct (openCursor _ _ _) as [[key existing]|]; reflexivity.
Qed.

(** No write changes the [createdAt] of a video record that exists. *)
Lemma call_keeps_createdAt (c : StoreCall) (db : DB) (i : string)
    (v : VideoRecord) :
  videos db !! i = Some v ->
  exists v', videos (call c db) !! i = Some v' /\ createdAt v' = createdAt v.
Proof.
  intros Hv.
  assert (Hsave : forall url title duration now1 now2,
             exists v',
               videos (saveVideo url title duration now1 now2 db).1 !! i
               = Some v' /\ createdAt v' = createdAt v).
  { intros url title duration now1 now2. rewrite saveVideo_videos.
    destruct (decide (generateVideoId url = i)) as [<-|Hne].
    - rewrite lookup_insert_eq. eexists. split; [reflexivity|].
      rewrite saveVideo_createdAt, Hv. reflexivity.
    - rewrite lookup_insert_ne by exact Hne. eauto. }
  destruct c; cbn [call].
  - apply Hsave.
  - rewrite saveSegment_videos. apply Hsave.
  - rewrite addTranslation_videos. eauto.
Qed.

Lemma calls_keep_createdAt (cs : list StoreCall) (db : DB) (i : string)
    (v : VideoRecord) :
  videos db !! i = Some v ->
  exists v', videos (calls cs db) !! i = Some v' /\ createdAt v' = createdAt v.
Proof.
  revert db v. induction cs as [|c cs IH]; intros db v Hv; [eauto|].
  cbn [calls foldl].
  destruct (call_keeps_createdAt c db i v Hv) as (v1 & Hv1 & E1).
  destruct (IH _ _ Hv1) as (v2 & Hv2 & E2).
  exists v2. split; [exact Hv2|congruence].
Qed.

(** C9.  For saves against one video URL:
    - the id of the record is [generateVideoId url], whatever the store
      holds and whatever the clock reads, and the record is stored under
      that id;
    - a first save sets [createdAt] to the time of the save, a repeated
      save keeps the stored [createdAt]; either sets [lastAccessed] to the
      time of the save;
    - [saveSegment] does the same to the record of its video;
    - every other write (a save for another video, [saveSegment],
      [addTranslation], in any number and order) leaves [createdAt] of an
      existing record as it is, so after a first save at [now1] and any
      writes, a further save still finds and keeps [now1]. *)
Theorem saveVideo_keeps_createdAt :
  (forall url title duration now1 now2 db,
      let r := saveVideo url title duration now1 now2 db in
      id r.2 = generateVideoId url
      /\ getVideo url r.1 = Some r.2
      /\ lastAccessed r.2 = now2
      /\ (getVideo url db = None -> createdAt r.2 = now1)
      /\ (forall existing, getVideo url db = Some existing ->
                           createdAt r.2 = createdAt existing))
  /\ (forall videoUrl startTime endTime original sourceLang given metadata
             now1 now2 now3 db,
        let db' := (saveSegment videoUrl startTime endTime original sourceLang
                      given metadata now1 now2 now3 db).1 in
        exists v,
          getVideo videoUrl db' = Some v
          /\ id v = generateVideoId videoUrl
          /\ lastAccessed v = now2
          /\ createdAt v = match getVideo videoUrl db with
                           | Some existing => createdAt existing
                           | None => now1
                           end)
  /\ (forall cs i v db,
        videos db !! i = Some v ->
        exists v', videos (calls cs db) !! i = Some v'
                   /\ createdAt v' = createdAt v)
  /\ (forall url title duration now1 now2 cs title' duration' now1' now2' db,
        getVideo url db = None ->
        let db1 := (saveVideo url title duration now1 now2 db).1 in
        let r := saveVideo url title' duration' now1' now2' (calls cs db1) in
        createdAt r.2 = now1 /\ lastAccessed r.2 = now2').
Proof.
  split; [|split; [|split]].
  - intros url title duration now1 now2 db r. subst r.
    unfold SubtitleStore.getVideo. rewrite saveVideo_videos, lookup_insert_eq.
    rewrite saveVideo_createdAt.
    split; [|split; [|split; [|split]]].
    + unfold SubtitleStore.saveVideo.
      destruct (videos db !! generateVideoId url); reflexivity.
    + reflexivity.
    + unfold SubtitleStore.saveVideo.
      destruct (videos db !! generateVideoId url); reflexivity.
    + intros ->. reflexivity.
    + intros existing ->. reflexivity.
  - intros videoUrl startTime endTime original sourceLang given metadata
      now1 now2 now3 db db'. subst db'.
    unfold SubtitleStore.getVideo.
    rewrite saveSegment_videos, saveVideo_videos, lookup_insert_eq.
    eexists. split; [reflexivity|]. rewrite saveVideo_createdAt.
    unfold SubtitleStore.saveVideo.
    destruct (videos db !! generateVideoId videoUrl); auto.
  - intros cs i v db. apply calls_keep_createdAt.
  - intros url title duration now1 now2 cs title' duration' now1' now2' db
      Hnone db1 r. subst r db1.
    assert (H1 : videos (saveVideo url title duration now1 now2 db).1
                 !! generateVideoId url
                 = Some (saveVideo url title duration now1 now2 db).2).
    { rewrite saveVideo_videos. apply lookup_insert_eq. }
    destruct (calls_keep_createdAt cs _ _ _ H1) as (v' & Hv' & E).
    rewrite saveVideo_createdAt, Hv', E, saveVideo_createdAt.
    unfold SubtitleStore.getVideo in Hnone. rewrite Hnone.
    split; [reflexivity|].
    unfold SubtitleStore.saveVideo.
    destruct (videos (calls cs _) !! generateVideoId url); reflexivity.
Qed.

(** *** Translation slots *)

Lemma truthy_orNull (v : option string) : truthy (orNull v) = truthy v.
Proof. unfold orNull. destruct (truthy v) eqn:E; [exact E|reflexivity]. Qed.

Lemma orNull_truthy (v : option string) : truthy v = true -> orNull v = v.
Proof. unfold orNull. intros ->. reflexivity. Qed.

Lemma foldl_insert_lookup (f : string -> option string) (langs : list string)
    (obj : Translations) (lang : string) :
  foldl (fun obj l => <[l := f l]> obj) obj langs !! lang
  = if decide (lang ∈ langs) then Some (f lang) else obj !! lang.
Proof.
  revert obj. induction langs as [|l langs IH]; intros obj; cbn [foldl].
  - case_decide as H; [inversion H|reflexivity].
  - rewrite IH. destruct (decide (lang ∈ langs)) as [Hin|Hnin].
    + rewrite decide_True by (right; exact Hin). reflexivity.
    + destruct (decide (l = lang)) as [->|Hne].
      * rewrite decide_True by left. apply lookup_insert_eq.
      * rewrite decide_False by (intros H; inversion H; congruence).
        apply lookup_insert_ne. exact Hne.
Qed.

Lemma buildTranslations_lookup (given : Translations) (lang : string) :
  buildTranslations given !! lang
  = if decide (lang ∈ SUPPORTED_LANGUAGES)
    then Some (orNull (getProperty given lang)) else None.
Proof.
  unfold buildTranslations.
  rewrite (foldl_insert_lookup (fun l => orNull (getProperty given l))).
  case_decide; [reflexivity|apply lookup_empty].
Qed.

Lemma foldl_merge_lookup (source : Translations) (langs : list string)
    (acc : Translations) (lang : string) :
  foldl (fun acc l =>
           if truthy (getProperty source l)
           then <[l := getProperty source l]> acc else acc) acc langs !! lang
  = if decide (lang ∈ langs) then
      if truthy (getProperty source lang)
      then Some (getProperty source lang) else acc !! lang
    else acc !! lang.
Proof.
  revert acc. induction langs as [|l langs IH]; intros acc; cbn [foldl].
  - case_decide as H; [inversion H|reflexivity].
  - rewrite IH. destruct (decide (lang ∈ langs)) as [Hin|Hnin].
    + rewrite decide_True by (right; exact Hin).
      destruct (truthy (getProperty source lang)) eqn:Et; [reflexivity|].
      destruct (truthy (getProperty source l)) eqn:El; [|reflexivity].
      apply lookup_insert_ne. intros ->. congruence.
    + destruct (decide (l = lang)) as [->|Hne].
      * rewrite decide_True by left.
        destruct (truthy (getProperty source lang)); [|reflexivity].
        apply lookup_insert_eq.
      * rewrite decide_False by (intros H; inversion H; congruence).
        destruct (truthy (getProperty source l)); [|reflexivity].
        apply lookup_insert_ne. exact Hne.
Qed.

Lemma mergeTranslations_lookup (source existing : Translations)
    (lang : string) :
  mergeTranslations source existing !! lang
  = if decide (lang ∈ SUPPORTED_LANGUAGES) then
      if truthy (getProperty source lang)
      then Some (getProperty source lang) else existing !! lang
    else existing !! lang.
Proof. apply foldl_merge_lookup. Qed.

Lemma buildTranslations_keys (given : Translations) :
  supportedKeys (buildTranslations given).
Proof.
  intros lang. rewrite buildTranslations_lookup.
  case_decide as H; split; intros H'; try done;
    destruct H' as [? ?]; discriminate.
Qed.

Lemma mergeTranslations_keys (source existing : Translations) :
  supportedKeys existing ->
  supportedKeys (mergeTranslations source existing).
Proof.
  intros Hk lang. rewrite mergeTranslations_lookup.
  case_decide as H.
  - destruct (truthy _); [split; eauto|apply Hk].
  - apply Hk.
Qed.

(** *** Segment records *)

Lemma emptyDB_wellFormed : wellFormed emptyDB.
Proof. split; [constructor|constructor]. Qed.

Lemma find_filter {A} (P : A -> bool) (l : list A) :
  List.find P l = head (List.filter P l).
Proof.
  induction l as [|x l IH]; [reflexivity|]. cbn.
  destruct (P x); [reflexivity|exact IH].
Qed.

Lemma filter_map_stable {A} (P : A -> bool) (f : A -> A) (l : list A) :
  (forall x, In x l -> P (f x) = P x) ->
  List.filter P (map f l) = map f (List.filter P l).
Proof.
  induction l as [|x l IH]; intros H; [reflexivity|]. cbn.
  rewrite (H x) by (left; reflexivity).
  rewrite IH by (intros y Hy; apply H; right; exact Hy).
  destruct (P x); reflexivity.
Qed.

Lemma NoDup_fst_unique {A} (l : list (Z * A)) (k : Z) (a b : A) :
  NoDup (map fst l) -> In (k, a) l -> In (k, b) l -> a = b.
Proof.
  induction l as [|[k' c] l IH]; intros Hnd Ha Hb; [destruct Ha|].
  cbn in Hnd. apply NoDup_cons in Hnd as [Hnotin Hnd].
  assert (Hfst : forall x, In (k', x) l -> False).
  { intros x Hx. apply Hnotin. apply list_elem_of_In.
    apply (in_map fst) in Hx. exact Hx. }
  destruct Ha as [Ha|Ha], Hb as [Hb|Hb].
  - congruence.
  - inversion Ha; subst. exfalso. eapply Hfst; eassumption.
  - inversion Hb; subst. exfalso. eapply Hfst; eassumption.
  - eapply IH; eassumption.
Qed.

Lemma cursorUpdate_segments (key : Z) (value : Segment) (db : DB) :
  segments (cursorUpdate key value db)
  = map (replaceAt key value) (segments db).
Proof. reflexivity. Qed.

Lemma cursorUpdate_wellFormed (key : Z) (value : Segment) (db : DB) :
  wellFormed db -> wellFormed (cursorUpdate key value db).
Proof.
  intros [Hnd Hlt]. unfold wellFormed.
  rewrite cursorUpdate_segments. cbn [keyGenerator cursorUpdate].
  assert (Hfst : map fst (map (replaceAt key value) (segments db))
                 = map fst (segments db)).
  { rewrite map_map. apply map_ext. intros [k s]. unfold replaceAt. cbn.
    destruct (Z.eqb_spec k key); [subst|]; reflexivity. }
  split; [rewrite Hfst; exact Hnd|].
  apply Forall_map. eapply Forall_impl; [exact Hlt|].
  intros [k s]. unfold replaceAt. cbn.
  destruct (Z.eqb_spec k key); [subst|]; auto.
Qed.

Lemma storeAdd_wellFormed (value : Segment) (db : DB) :
  wellFormed db -> wellFormed (storeAdd value db).1.
Proof.
  intros [Hnd Hlt]. unfold wellFormed, storeAdd. cbn [fst segments keyGenerator].
  split.
  - rewrite map_app. cbn [map fst].
    apply NoDup_app. split; [exact Hnd|]. split; [|apply NoDup_singleton].
    intros k Hk Hk'. apply list_elem_of_singleton in Hk'. subst k.
    apply list_elem_of_In, in_map_iff in Hk as ([k s] & Hks & Hin).
    cbn in Hks. subst k.
    rewrite List.Forall_forall in Hlt. specialize (Hlt _ Hin). cbn in Hlt. lia.
  - apply Forall_app. split.
    + eapply Forall_impl; [exact Hlt|]. intros [k s]. cbn. lia.
    + constructor; [cbn; lia|constructor].
Qed.

Lemma call_wellFormed (c : StoreCall) (db : DB) :
  wellFormed db -> wellFormed (call c db).
Proof.
  intros Hwf. destruct c; cbn [call].
  - exact Hwf.
  - unfold SubtitleStore.saveSegment.
    destruct (openCursor _ _ _) as [[key existing]|]; cbn [fst].
    + apply cursorUpdate_wellFormed. exact Hwf.
    + apply storeAdd_wellFormed. exact Hwf.
  - unfold SubtitleStore.addTranslation.
    destruct (openCursor _ _ _) as [[key existing]|]; cbn [fst].
    + apply cursorUpdate_wellFormed. exact Hwf.
    + exact Hwf.
Qed.

Lemma hasKey_refl (vid : string) (start : Q) (key : Z) (s : Segment) :
  videoId s = vid -> startTime s = start -> hasKey vid start (key, s) = true.
Proof.
  intros <- <-. unfold hasKey. cbn.
  rewrite String.eqb_refl. apply Qeq_bool_iff. reflexivity.
Qed.

(** Replacing the record under the cursor by one with the same index key
    leaves one record with that key. *)
Lemma cursorUpdate_at (vid : string) (start : Q) (key : Z)
    (existing value : Segment) (db : DB) :
  wellFormed db ->
  List.filter (hasKey vid start) (segments db) = [(key, existing)] ->
  videoId value = vid -> startTime value = start ->
  List.filter (hasKey vid start) (segments (cursorUpdate key value db))
  = [(key, value)].
Proof.
  intros [Hnd _] Hone Hvid Hstart.
  assert (Hin : In (key, existing) (segments db)).
  { eapply (proj1 (filter_In (hasKey vid start) _ _)).
    rewrite Hone. left. reflexivity. }
  assert (Hkey : hasKey vid start (key, existing) = true).
  { eapply (proj1 (filter_In (hasKey vid start) _ _)).
    rewrite Hone. left. reflexivity. }
  rewrite cursorUpdate_segments, filter_map_stable.
  - rewrite Hone. cbn. unfold replaceAt. cbn. rewrite Z.eqb_refl. reflexivity.
  - intros [k s] Hks. unfold replaceAt. cbn [fst].
    destruct (Z.eqb_spec k key) as [->|Hne]; [|reflexivity].
    rewrite (NoDup_fst_unique _ _ _ _ Hnd Hks Hin), Hkey.
    apply hasKey_refl; assumption.
Qed.

(** *** Repeated saves of one segment *)

Lemma saveAt_first (videoUrl : string) (start : Q) (s : Save) (db : DB) :
  wellFormed db ->
  segmentsAt videoUrl start db = [] ->
  holds videoUrl start (fun lang => supply lang None s)
    (saveAt videoUrl start s db).
Proof.
  intros Hwf Hnone. unfold segmentsAt, SubtitleStore.segmentsAt in Hnone.
  apply map_eq_nil in Hnone.
  unfold saveAt, SubtitleStore.saveSegment, openCursor.
  rewrite find_filter. cbn [fst segments SubtitleStore.saveVideo].
  rewrite Hnone. cbn [head].
  split; [apply (storeAdd_wellFormed _ (mkDB _ _ _)); exact Hwf|].
  eexists _, _. cbn [storeAdd fst segments].
  rewrite List.filter_app, Hnone. cbn [List.filter app].
  rewrite hasKey_refl by reflexivity.
  split; [reflexivity|]. cbn [videoId startTime translations].
  split; [reflexivity|]. split; [reflexivity|].
  split; [apply buildTranslations_keys|].
  intros lang Hlang. rewrite buildTranslations_lookup, decide_True by exact Hlang.
  unfold supply, orNull. reflexivity.
Qed.

Lemma saveAt_again (videoUrl : string) (start : Q)
    (slot : string -> option string) (s : Save) (db : DB) :
  holds videoUrl start slot db ->
  holds videoUrl start (fun lang => supply lang (slot lang) s)
    (saveAt videoUrl start s db).
Proof.
  intros (Hwf & key & seg & Hone & Hvid & Hstart & Hkeys & Hslots).
  unfold saveAt, SubtitleStore.saveSegment, openCursor.
  rewrite find_filter. cbn [fst segments SubtitleStore.saveVideo].
  rewrite Hone. cbn [head fst].
  split; [apply (cursorUpdate_wellFormed _ _ (mkDB _ _ _)); exact Hwf|].
  eexists key, _. split.
  - apply (cursorUpdate_at _ _ _ seg _ (mkDB _ _ _)); [exact Hwf|exact Hone| |];
      cbn; assumption.
  - cbn [videoId startTime translations].
    split; [exact Hvid|]. split; [exact Hstart|].
    split; [apply mergeTranslations_keys; exact Hkeys|].
    intros lang Hlang.
    rewrite mergeTranslations_lookup, decide_True by exact Hlang.
    unfold getProperty at 1 2.
    rewrite buildTranslations_lookup, decide_True by exact Hlang.
    cbn [mjoin option_join]. rewrite truthy_orNull. unfold supply.
    destruct (truthy (getProperty (save_given s) lang)) eqn:Et.
    + rewrite orNull_truthy by exact Et. reflexivity.
    + apply Hslots. exact Hlang.
Qed.

Lemma savesAt_holds (videoUrl : string) (start : Q) (ss : list Save)
    (slot : string -> option string) (db : DB) :
  holds videoUrl start slot db ->
  holds videoUrl start (fun lang => foldl (supply lang) (slot lang) ss)
    (savesAt videoUrl start ss db).
Proof.
  revert slot db. induction ss as [|s ss IH]; intros slot db H; [exact H|].
  cbn [savesAt foldl]. apply (IH (fun lang => supply lang (slot lang) s)).
  apply saveAt_again. exact H.
Qed.

Lemma supply_keeps (lang : string) (ss : list Save) (slot : option string) :
  truthy slot = true -> truthy (foldl (supply lang) slot ss) = true.
Proof.
  revert slot. induction ss as [|s ss IH]; intros slot H; [exact H|].
  cbn [foldl]. apply IH. unfold supply.
  destruct (truthy (getProperty (save_given s) lang)) eqn:E; assumption.
Qed.

Lemma supplied_union (lang : string) (ss : list Save) (slot : option string)
    (s : Save) :
  In s ss -> truthy (getProperty (save_given s) lang) = true ->
  truthy (foldl (supply lang) slot ss) = true.
Proof.
  revert slot. induction ss as [|s' ss IH]; intros slot Hin Ht; [destruct Hin|].
  cbn [foldl]. destruct Hin as [->|Hin].
  - apply supply_keeps. unfold supply. rewrite Ht. exact Ht.
  - apply IH; assumption.
Qed.

(** C2.  Saves sharing [(videoUrl, startTime)], into a store that has no
    record with that key yet: after one or more of them
    - exactly one record has the key;
    - its translations have the ten supported codes as keys;
    - each supported slot holds the latest non-empty value supplied for
      its language, and [null] when none was supplied;
    - hence a slot that any of the saves supplied non-empty is non-empty:
      the slots filled are the union of those supplied, and a later save
      with an empty slot erases nothing. *)
Theorem saveSegment_merges (videoUrl : string) (start : Q)
    (s : Save) (ss : list Save) (db : DB) :
  wellFormed db ->
  segmentsAt videoUrl start db = [] ->
  exists seg,
    segmentsAt videoUrl start (savesAt videoUrl start (s :: ss) db) = [seg]
    /\ supportedKeys (translations seg)
    /\ (forall lang, lang ∈ SUPPORTED_LANGUAGES ->
                     translations seg !! lang = Some (supplied lang (s :: ss)))
    /\ (forall lang s', lang ∈ SUPPORTED_LANGUAGES -> In s' (s :: ss) ->
                        truthy (getProperty (save_given s') lang) = true ->
                        truthy (getProperty (translations seg) lang) = true).
Proof.
  intros Hwf Hnone.
  pose proof (saveAt_first videoUrl start s db Hwf Hnone) as H1.
  apply (savesAt_holds videoUrl start ss) in H1.
  destruct H1 as (_ & key & seg & Hone & _ & _ & Hkeys & Hslots).
  exists seg. unfold segmentsAt, SubtitleStore.segmentsAt.
  cbn [savesAt foldl]. fold (savesAt videoUrl start ss (saveAt videoUrl start s db)).
  rewrite Hone. split; [reflexivity|]. split; [exact Hkeys|].
  split; [exact Hslots|].
  intros lang s' Hlang Hin Ht. unfold getProperty at 1.
  rewrite (Hslots lang Hlang). cbn [mjoin option_join].
  apply (supplied_union lang (s :: ss) None s'); assumption.
Qed.

(** *** The keys of a translations object *)

Lemma openCursor_In (vid : string) (start : Q) (db : DB) (key : Z)
    (seg : Segment) :
  openCursor vid start db = Some (key, seg) -> In (key, seg) (segments db).
Proof. unfold openCursor. intros H. apply find_some in H as [H _]. exact H. Qed.

Lemma cursorUpdate_allSupported (key : Z) (value : Segment) (db : DB) :
  allSupported db -> supportedKeys (translations value) ->
  allSupported (cursorUpdate key value db).
Proof.
  intros Hall Hv. unfold allSupported. rewrite cursorUpdate_segments.
  apply Forall_map. eapply Forall_impl; [exact Hall|].
  intros [k s] Hs. unfold replaceAt. cbn [fst].
  destruct (k =? key); assumption.
Qed.

(** [saveSegment], creating or merging, keeps the keys of every stored
    translations object at the ten supported codes. *)
Lemma saveSegment_allSupported (videoUrl : string) (startTime endTime : Q)
    (original sourceLang : string) (given : Translations)
    (metadata : Metadata) (now1 now2 now3 : string) (db : DB) :
  allSupported db ->
  allSupported (saveSegment videoUrl startTime endTime original sourceLang
                  given metadata now1 now2 now3 db).1
  /\ supportedKeys
       (translations (saveSegment videoUrl startTime endTime original
                        sourceLang given metadata now1 now2 now3 db).2).
Proof.
  intros Hall. unfold SubtitleStore.saveSegment.
  destruct (openCursor _ _ _) as [[key existing]|] eqn:Ecur; cbn [fst snd].
  - apply openCursor_In in Ecur. cbn [segments SubtitleStore.saveVideo fst] in Ecur.
    assert (Hex : supportedKeys (translations existing)).
    { unfold allSupported in Hall. rewrite List.Forall_forall in Hall.
      apply (Hall _ Ecur). }
    split.
    + apply (cursorUpdate_allSupported _ _ (mkDB _ _ _)); [exact Hall|].
      cbn. apply mergeTranslations_keys. exact Hex.
    + cbn. apply mergeTranslations_keys. exact Hex.
  - split; [|cbn; apply buildTranslations_keys].
    unfold allSupported, storeAdd. cbn [fst segments SubtitleStore.saveVideo].
    apply Forall_app. split; [exact Hall|].
    constructor; [cbn; apply buildTranslations_keys|constructor].
Qed.

(** [addTranslation] keeps them when the language is a supported one. *)
Lemma addTranslation_supported (videoUrl : string) (startTime : Q)
    (lang : string) (translation : option string) (db : DB) :
  lang ∈ SUPPORTED_LANGUAGES -> allSupported db ->
  allSupported (addTranslation videoUrl startTime lang translation db).1.
Proof.
  intros Hlang Hall. unfold SubtitleStore.addTranslation.
  destruct (openCursor _ _ _) as [[key seg]|] eqn:Ecur; cbn [fst]; [|exact Hall].
  apply openCursor_In in Ecur.
  apply cursorUpdate_allSupported; [exact Hall|]. cbn.
  unfold allSupported in Hall. rewrite List.Forall_forall in Hall.
  specialize (Hall _ Ecur). cbn in Hall.
  intros l. destruct (decide (lang = l)) as [<-|Hne].
  - rewrite lookup_insert_eq. split; eauto.
  - rewrite lookup_insert_ne by exact Hne. apply Hall.
Qed.

(** C8.  [addTranslation] does not keep the keys at the ten supported
    codes: called on an existing record with a language outside the list,
    it stores the record with that language as an extra key. *)
Theorem addTranslation_extra_key (videoUrl : string) (startTime : Q)
    (lang : string) (translation : option string) (db : DB)
    (key : Z) (seg : Segment) :
  openCursor (generateVideoId videoUrl) startTime db = Some (key, seg) ->
  lang ∉ SUPPORTED_LANGUAGES ->
  let r := addTranslation videoUrl startTime lang translation db in
  exists seg',
    r.2 = Some seg'
    /\ In (key, seg') (segments r.1)
    /\ translations seg' !! lang = Some translation
    /\ ~ supportedKeys (translations seg')
    /\ ~ allSupported r.1.
Proof.
  intros Hcur Hlang r. subst r. unfold SubtitleStore.addTranslation.
  rewrite Hcur. cbn [fst snd]. eexists. split; [reflexivity|].
  pose proof (openCursor_In _ _ _ _ _ Hcur) as Hin.
  assert (Hin' : In (key, mkSegment (videoId seg) (SubtitleStore.startTime seg)
                            (endTime seg) (original seg) (sourceLang seg)
                            (<[lang := translation]> (translations seg))
                            (confidence seg) (model seg) (userCorrected seg)
                            (correctedText seg) (segmentCreatedAt seg))
                     (segments (cursorUpdate key
                        (mkSegment (videoId seg) (SubtitleStore.startTime seg)
                            (endTime seg) (original seg) (sourceLang seg)
                            (<[lang := translation]> (translations seg))
                            (confidence seg) (model seg) (userCorrected seg)
                            (correctedText seg) (segmentCreatedAt seg)) db))).
  { rewrite cursorUpdate_segments. apply in_map_iff.
    exists (key, seg). split; [|exact Hin].
    unfold replaceAt. cbn. rewrite Z.eqb_refl. reflexivity. }
  assert (Hnot : ~ supportedKeys (<[lang := translation]> (translations seg))).
  { intros Hk. apply Hlang. apply Hk. rewrite lookup_insert_eq. eauto. }
  split; [exact Hin'|]. cbn [translations].
  split; [apply lookup_insert_eq|]. split; [exact Hnot|].
  intros Hall. unfold allSupported in Hall. rewrite List.Forall_forall in Hall.
  apply Hnot. apply (Hall _ Hin').
Qed.

End Store.

(** *** The scenario of the specification *)

(** The two saves of the scenario, into the empty store. *)
Lemma saveSegment_merges_witness :
  exists seg,
    SubtitleStore.segmentsAt (fun url => url) sampleUrl 10
      (savesAt (fun url => url) sampleUrl 10 [saveVi; saveEn]
         SubtitleStore.emptyDB) = [seg]
    /\ supportedKeys (SubtitleStore.translations seg)
    /\ (forall lang, lang ∈ SubtitleStore.SUPPORTED_LANGUAGES ->
          SubtitleStore.translations seg !! lang
          = Some (supplied lang [saveVi; saveEn]))
    /\ (forall lang s', lang ∈ SubtitleStore.SUPPORTED_LANGUAGES ->
          In s' [saveVi; saveEn] ->
          truthy (SubtitleStore.getProperty (save_given s') lang) = true ->
          truthy (SubtitleStore.getProperty (SubtitleStore.translations seg) lang)
          = true).
Proof.
  apply (saveSegment_merges (fun url => url) sampleUrl 10 saveVi [saveEn]
           SubtitleStore.emptyDB emptyDB_wellFormed).
  reflexivity.
Defined.

(** Both slots of the scenario are filled in the one record. *)
Example saveSegment_scenario :
  map (fun seg => (SubtitleStore.translations seg !! "vi",
                   SubtitleStore.translations seg !! "en",
                   SubtitleStore.translations seg !! "ja"))
    (SubtitleStore.segmentsAt (fun url => url) sampleUrl 10
       (savesAt (fun url => url) sampleUrl 10 [saveVi; saveEn]
          SubtitleStore.emptyDB))
  = [(Some (Some "Xin chao"), Some (Some "Hello"), Some None)].
Proof. vm_compute. reflexivity. Qed.

(** [addTranslation(url, 10, "pt", "Ola")] on the store that holds the
    segment of the first save. *)
Lemma addTranslation_extra_key_witness :
  let r := SubtitleStore.addTranslation (fun url => url) sampleUrl 10 "pt"
             (Some "Ola") storeWithSegment in
  exists seg',
    r.2 = Some seg'
    /\ In (1, seg') (SubtitleStore.segments r.1)
    /\ SubtitleStore.translations seg' !! "pt" = Some (Some "Ola")
    /\ ~ supportedKeys (SubtitleStore.translations seg')
    /\ ~ allSupported r.1.
Proof.
  apply (addTranslation_extra_key (fun url => url) sampleUrl 10 "pt"
           (Some "Ola") storeWithSegment 1
           (default (SubtitleStore.mkSegment EmptyString 0 0 EmptyString
                       EmptyString ∅ None EmptyString false None EmptyString)
              (snd <$> SubtitleStore.openCursor sampleUrl 10 storeWithSegment))).
  - vm_compute. reflexivity.
  - vm_compute. intros H. repeat (apply elem_of_cons in H as [H|H]; [discriminate|]).
    inversion H.
Defined.

(** ** The sync gate (DataSyncService.js) *)

Lemma append_assoc (a b c : string) :
  ((a ++ b) ++ c = a ++ (b ++ c))%string.
Proof.
  induction a as [|x a IH]; [reflexivity|].
  change (String x ((a ++ b) ++ c) = String x (a ++ (b ++ c)))%string.
  rewrite IH. reflexivity.
Qed.

Lemma prefix_append (a h : string) :
  String.prefix a h = true -> exists r, h = (a ++ r)%string.
Proof.
  revert h. induction a as [|c a IH]; intros h H.
  - exists h. reflexivity.
  - destruct h as [|c' h]; [discriminate|]. cbn in H.
    destruct (ascii_dec c c') as [->|]; [|discriminate].
    destruct (IH _ H) as [r ->]. exists r. reflexivity.
Qed.

Lemma prefix_of_append (a r : string) : String.prefix a (a ++ r) = true.
Proof.
  induction a as [|c a IH]; [destruct r; reflexivity|].
  change (String.prefix (String c a) (String c (a ++ r)) = true).
  cbn [String.prefix].
  destruct (ascii_dec c c); [exact IH|congruence].
Qed.

Lemma prefix_refl (s : string) : String.prefix s s = true.
Proof.
  induction s as [|c s IH]; [reflexivity|]. cbn [String.prefix].
  destruct (ascii_dec c c); [exact IH|congruence].
Qed.

Lemma includesFrom_prefix (h needle : string) :
  String.prefix needle h = true -> includesFrom h needle = true.
Proof. intros H. destruct h; cbn [includesFrom]; rewrite H; reflexivity. Qed.

Lemma includesFrom_step (c : ascii) (h needle : string) :
  includesFrom h needle = true -> includesFrom (String c h) needle = true.
Proof. intros H. cbn [includesFrom]. rewrite H. apply orb_true_r. Qed.

(** A string includes each of its suffixes. *)
Lemma includes_suffix (pre needle : string) :
  includes (pre ++ needle) needle = true.
Proof.
  unfold includes. induction pre as [|c pre IH]; cbn [String.append].
  - destruct needle as [|c needle]; [reflexivity|].
    cbn [includesFrom]. apply orb_true_iff. left. apply prefix_refl.
  - apply includesFrom_step. exact IH.
Qed.

Lemma includesFrom_append_r (h needle r : string) :
  includesFrom h needle = true -> includesFrom (h ++ r) needle = true.
Proof.
  induction h as [|c h IH]; intros H.
  - cbn in H. rewrite orb_false_r in H.
    destruct needle; [|discriminate]. cbn [String.append].
    destruct r; reflexivity.
  - cbn [includesFrom] in H. apply orb_true_iff in H as [H|H].
    + destruct (prefix_append _ _ H) as [r' E]. rewrite E.
      apply includesFrom_prefix.
      rewrite append_assoc. apply prefix_of_append.
    + change (includesFrom (String c (h ++ r)) needle = true).
      apply includesFrom_step. apply IH. exact H.
Qed.

(** Including a string is including each of its suffixes. *)
Lemma includes_longer (h pre needle : string) :
  includes h (pre ++ needle) = true -> includes h needle = true.
Proof.
  unfold includes. induction h as [|c h IH]; intros H.
  - cbn in H. rewrite orb_false_r in H.
    destruct pre; [|discriminate]. cbn in H. destruct needle; [|discriminate].
    reflexivity.
  - cbn [includesFrom] in H. apply orb_true_iff in H as [H|H].
    + destruct (prefix_append _ _ H) as [r E]. rewrite E.
      apply includesFrom_append_r. apply includes_suffix.
    + apply includesFrom_step. apply IH. exact H.
Qed.

Lemma whitelisted_namesPlatform (hostname : string) :
  existsb (fun site => includes hostname site)
    DataSyncService.WHITELISTED_SITES = true ->
  namesPlatform hostname.
Proof.
  unfold DataSyncService.WHITELISTED_SITES, PLATFORMS. cbn [existsb].
  rewrite !orb_true_iff.
  intros [H|[H|[H|[H|[H|[H|[H|[H|H]]]]]]]]; [| | | | | | | |discriminate].
  - exists "youtube.com". split; [set_solver|exact H].
  - exists "youtube.com". split; [set_solver|].
    apply (includes_longer hostname "www."). exact H.
  - exists "bilibili.com". split; [set_solver|exact H].
  - exists "bilibili.com". split; [set_solver|].
    apply (includes_longer hostname "www."). exact H.
  - exists "vimeo.com". split; [set_solver|exact H].
  - exists "vimeo.com". split; [set_solver|].
    apply (includes_longer hostname "www."). exact H.
  - exists "twitch.tv". split; [set_solver|exact H].
  - exists "twitch.tv". split; [set_solver|].
    apply (includes_longer hostname "www."). exact H.
Qed.

(** What [init] makes of the stored settings. *)
Lemma init_gate (result : DataSyncService.Storage) (uuid : string) :
  let this := (DataSyncService.init (Some result) uuid).1 in
  DataSyncService.isConfigured this
  = truthy (DataSyncService.stored_supabaseUrl result)
    && truthy (DataSyncService.stored_supabaseAnonKey result)
  /\ DataSyncService.isEnabled this
     = default false (DataSyncService.stored_dataSyncConsent result).
Proof.
  unfold DataSyncService.init.
  destruct (truthy (DataSyncService.stored_deviceId result));
    cbn [fst DataSyncService.isConfigured DataSyncService.isEnabled];
    (split; [|reflexivity]);
    destruct (truthy (DataSyncService.stored_supabaseUrl result)) eqn:E1;
    destruct (truthy (DataSyncService.stored_supabaseAnonKey result)) eqn:E2;
    rewrite ?E1, ?E2; reflexivity.
Qed.

Section Gate.

Import DataSyncService.

(** Any reading of [new URL(url).hostname]. *)
Variable hostnameOf : string -> option string.

(** C1, as the code has it.  [syncSegment] returns false and makes no
    network call when
    - the endpoint and key are not configured, or
    - the user has not opted in, or
    - the URL does not parse, or
    - its hostname names none of youtube.com, bilibili.com, vimeo.com,
      twitch.tv, or
    - the original text is absent or empty after trimming.
    The scheme of the URL plays no part. *)
Theorem syncSegment_gate (this : Service) (videoUrl : string)
    (original translated : option string) (sourceLang targetLang now : string)
    (response : FetchOutcome unit) :
  isConfigured this = false
  \/ isEnabled this = false
  \/ hostnameOf videoUrl = None
  \/ (exists hostname,
        hostnameOf videoUrl = Some hostname /\ ~ namesPlatform hostname)
  \/ truthy (trim <$> original) = false ->
  syncSegment hostnameOf this videoUrl original translated sourceLang
    targetLang now response = (false, []).
Proof.
  intros H. unfold syncSegment.
  destruct (isConfigured this) eqn:Ec; [|reflexivity].
  destruct (isEnabled this) eqn:Ee; [|reflexivity]. cbn [negb orb].
  destruct (isWhitelistedSite hostnameOf videoUrl) eqn:Ew; [|reflexivity].
  cbn [negb].
  destruct (truthy (trim <$> original)) eqn:Et; [|reflexivity].
  exfalso. unfold isWhitelistedSite in Ew.
  destruct H as [H|[H|[H|[(hostname & Hh & Hn)|H]]]]; try discriminate.
  - rewrite H in Ew. discriminate.
  - rewrite Hh in Ew. apply Hn. apply whitelisted_namesPlatform. exact Ew.
Qed.

End Gate.

Lemma not_namesPlatform (hostname : string) :
  forallb (fun site => negb (includes hostname site)) PLATFORMS = true ->
  ~ namesPlatform hostname.
Proof.
  intros H (site & Hin & Hinc).
  rewrite forallb_forall in H. apply list_elem_of_In in Hin.
  specialize (H _ Hin). rewrite Hinc in H. discriminate.
Qed.

Lemma syncSegment_gate_witness :
  DataSyncService.syncSegment urlHostname readyService "https://evil.com"
    (Some "Hello") (Some "Xin chao") "en" "vi" "2024-01-01T00:00:00.000Z"
    (HttpResponse 201 None) = (false, []).
Proof.
  apply (syncSegment_gate urlHostname readyService "https://evil.com").
  right; right; right; left. exists "evil.com".
  split; [reflexivity|]. apply not_namesPlatform. reflexivity.
Defined.

(** C1 as stated fails on [ftp://youtube.com/video], with the service
    configured, the user opted in and a non-empty original text: the URL is
    not an http URL, yet it matches the allow-list, and the segment is
    posted. *)
Lemma syncSegment_counterexample :
  urlHostname "ftp://youtube.com/video" = Some "youtube.com"
  /\ DataSyncService.isWhitelistedSite urlHostname "ftp://youtube.com/video"
     = true
  /\ exists request,
       DataSyncService.syncSegment urlHostname readyService
         "ftp://youtube.com/video" (Some "Hello") (Some "Xin chao") "en" "vi"
         "2024-01-01T00:00:00.000Z" (HttpResponse 201 None)
       = (true, [request]).
Proof.
  split; [reflexivity|]. split; [reflexivity|].
  eexists. vm_compute. reflexivity.
Qed.

(** An original text of white space only, a no-break space included, is
    empty after trimming: nothing is posted, on an allow-listed site with
    the service configured and the user opted in. *)
Example syncSegment_blank_original :
  DataSyncService.syncSegment urlHostname readyService
    "https://www.youtube.com/watch?v=1"
    (Some (String (ascii_of_nat 160) (String (ascii_of_nat 9) " ")))
    (Some "Xin chao") "en" "vi" "2024-01-01T00:00:00.000Z"
    (HttpResponse 201 None)
  = (false, []).
Proof. vm_compute. reflexivity. Qed.

(** The site test is [hostname.includes(site)]: a hostname that is neither
    a platform nor a subdomain of one passes it when it contains the name
    of one. *)
Example isWhitelistedSite_substring :
  urlHostname "https://youtube.com.evil.org/watch" = Some "youtube.com.evil.org"
  /\ isPlatformHost "youtube.com.evil.org" = false
  /\ DataSyncService.isWhitelistedSite urlHostname
       "https://youtube.com.evil.org/watch" = true.
Proof. repeat split. Qed.

(** A platform and its subdomains pass the site test. *)
Lemma isWhitelistedSite_subdomain (hostnameOf : string -> option string)
    (url sub site : string) :
  site ∈ PLATFORMS ->
  hostnameOf url = Some (sub ++ site)%string ->
  DataSyncService.isWhitelistedSite hostnameOf url = true.
Proof.
  intros Hsite Hhost. unfold DataSyncService.isWhitelistedSite.
  rewrite Hhost. apply existsb_exists.
  exists site. split; [|apply includes_suffix].
  unfold PLATFORMS in Hsite. unfold DataSyncService.WHITELISTED_SITES.
  repeat (apply elem_of_cons in Hsite as [->|Hsite]; [cbn; tauto|]).
  inversion Hsite.
Qed.

(** The examples of the specification and of the repository's tests. *)
Example isWhitelistedSite_examples :
  map (DataSyncService.isWhitelistedSite urlHostname)
    ["https://www.youtube.com/watch?v=1"; "https://bilibili.com/video/BV123";
     "https://attacker.com"; "file:///local.mp4";
     "file:///C:/local/video.mp4"; "not a url"]
  = [true; true; false; false; false; false].
Proof. vm_compute. reflexivity. Qed.

(** The reading follows the parser on the input around the host: spaces
    around the URL, credentials and port, the case of the host under a
    special scheme and under another one, a port that is not a number or
    is too large, a [file] URL. *)
Example urlHostname_examples :
  map urlHostname
    ["  https://WWW.YouTube.com:8080/watch  "; "http://user:pw@vimeo.com/";
     "http:youtube.com"; "foo://Example.COM/x"; "foo:bar";
     "http://example.com:80a/"; "http://example.com:99999/";
     "http://user@/"; "http:///"; "file://localhost/a.mp4";
     "file://Server/share/a.mp4"; "youtube.com"]
  = [Some "www.youtube.com"; Some "vimeo.com"; Some "youtube.com";
     Some "Example.COM"; Some EmptyString; None; None; None; None;
     Some EmptyString; Some "server"; None].
Proof. vm_compute. reflexivity. Qed.

(** ** The audio transport: base64 and WAV (content.js, background.js) *)

(** Induction three elements at a time, as [btoa] reads its input. *)
Lemma list_ind3 {A} (P : list A -> Prop) :
  P [] -> (forall a, P [a]) -> (forall a b, P [a; b]) ->
  (forall a b c l, P l -> P (a :: b :: c :: l)) ->
  forall l, P l.
Proof.
  intros H0 H1 H2 H3.
  assert (H : forall l, P l /\ (forall a, P (a :: l))
                        /\ (forall a b, P (a :: b :: l))).
  { induction l as [|x l (IH0 & IH1 & IH2)].
    - auto.
    - split; [apply IH1|]. split; [intros a; apply IH2|].
      intros a b. apply H3, IH0. }
  intros l. apply H.
Qed.

(** *** Characters and bytes *)

Lemma charCodeAt_byte (c : ascii) : isByte (charCodeAt c).
Proof.
  unfold isByte, charCodeAt.
  pose proof (N_ascii_bounded c). lia.
Qed.

Lemma charCodeAt_fromCharCode (b : Z) :
  isByte b -> charCodeAt (fromCharCode b) = b.
Proof.
  intros Hb. unfold charCodeAt, fromCharCode, isByte in *.
  rewrite Z.mod_small by lia.
  rewrite N_ascii_embedding by lia. lia.
Qed.

Lemma fromCharCode_charCodeAt (c : ascii) : fromCharCode (charCodeAt c) = c.
Proof.
  unfold fromCharCode.
  rewrite Z.mod_small by apply charCodeAt_byte.
  unfold charCodeAt. rewrite N2Z.id. apply ascii_N_embedding.
Qed.

Lemma charCodes_binaryString (bytes : list Z) :
  Forall isByte bytes -> charCodes (binaryString bytes) = bytes.
Proof.
  intros Hb. unfold charCodes, binaryString.
  rewrite list_ascii_of_string_of_list_ascii, map_map.
  induction Hb as [|b bytes Hb _ IH]; [reflexivity|].
  cbn [map]. rewrite charCodeAt_fromCharCode by exact Hb. f_equal. exact IH.
Qed.

Lemma binaryString_charCodes (s : string) : binaryString (charCodes s) = s.
Proof.
  unfold charCodes, binaryString. rewrite map_map.
  rewrite (map_ext _ (fun c => c)) by apply fromCharCode_charCodeAt.
  rewrite map_id. apply string_of_list_ascii_of_string.
Qed.

Lemma charCodes_bytes (s : string) : Forall isByte (charCodes s).
Proof.
  unfold charCodes. apply Forall_map, Forall_forall.
  intros c _. apply charCodeAt_byte.
Qed.

(** *** The alphabet *)

Lemma sextet_cases (P : Z -> Prop) :
  (forall n : nat, (n < 64)%nat -> P (Z.of_nat n)) ->
  forall i, isSextet i -> P i.
Proof.
  intros H i [Hlo Hhi]. rewrite <- (Z2Nat.id i) by exact Hlo.
  apply H. lia.
Qed.

Lemma base64Index_base64Char (i : Z) :
  isSextet i -> base64Index (base64Char i) = Some i.
Proof.
  revert i. apply sextet_cases. intros n Hn.
  do 64 (destruct n as [|n]; [vm_compute; reflexivity|]). lia.
Qed.

Lemma base64Char_plain (i : Z) :
  isSextet i ->
  isAsciiWhitespace (base64Char i) = false
  /\ Ascii.eqb (base64Char i) PAD = false.
Proof.
  revert i. apply sextet_cases. intros n Hn.
  do 64 (destruct n as [|n]; [vm_compute; split; reflexivity|]). lia.
Qed.

(** *** Encoding and decoding, group by group *)

Ltac bytes_arith :=
  unfold isByte, isSextet in *; Z.div_mod_to_equations; lia.

Lemma sextetsOf_sextets (l : list Z) :
  Forall isByte l -> Forall isSextet (sextetsOf l).
Proof.
  induction l as [|a|a b|a b c l IH] using list_ind3; intros Hb; cbn [sextetsOf].
  - constructor.
  - apply Forall_cons in Hb as [Ha _].
    repeat constructor; bytes_arith.
  - apply Forall_cons in Hb as [Ha Hb]. apply Forall_cons in Hb as [Hb _].
    repeat constructor; bytes_arith.
  - apply Forall_cons in Hb as [Ha Hb]. apply Forall_cons in Hb as [Hb Hc].
    apply Forall_cons in Hc as [Hc Hl].
    repeat (constructor; [bytes_arith|]). apply IH. exact Hl.
Qed.

Lemma decodeSextets_sextetsOf (l : list Z) :
  Forall isByte l -> decodeSextets (sextetsOf l) = l.
Proof.
  induction l as [|a|a b|a b c l IH] using list_ind3; intros Hb;
    cbn [sextetsOf decodeSextets].
  - reflexivity.
  - apply Forall_cons in Hb as [Ha _]. f_equal. bytes_arith.
  - apply Forall_cons in Hb as [Ha Hb]. apply Forall_cons in Hb as [Hb _].
    f_equal; [bytes_arith|]. f_equal. bytes_arith.
  - apply Forall_cons in Hb as [Ha Hb]. apply Forall_cons in Hb as [Hb Hc].
    apply Forall_cons in Hc as [Hc Hl].
    rewrite (IH Hl).
    f_equal; [bytes_arith|]. f_equal; [bytes_arith|]. f_equal. bytes_arith.
Qed.

Lemma sextetsOf_length (l : list Z) :
  Z.of_nat (length (sextetsOf l)) mod 4 <> 1.
Proof.
  induction l as [|a|a b|a b c l IH] using list_ind3; cbn [sextetsOf length];
    try (vm_compute; discriminate).
  rewrite !Nat2Z.inj_succ.
  replace (Z.succ (Z.succ (Z.succ (Z.succ (Z.of_nat (length (sextetsOf l)))))))
    with (Z.of_nat (length (sextetsOf l)) + 1 * 4) by lia.
  rewrite Z.mod_add by lia. exact IH.
Qed.

Lemma btoaCodes_length (l : list Z) :
  Z.of_nat (length (btoaCodes l)) mod 4 = 0.
Proof.
  induction l as [|a|a b|a b c l IH] using list_ind3; cbn [btoaCodes length];
    try reflexivity.
  rewrite !Nat2Z.inj_succ.
  replace (Z.succ (Z.succ (Z.succ (Z.succ (Z.of_nat (length (btoaCodes l)))))))
    with (Z.of_nat (length (btoaCodes l)) + 1 * 4) by lia.
  rewrite Z.mod_add by lia. exact IH.
Qed.

Lemma base64Char_not_whitespace (i : Z) :
  isSextet i -> isAsciiWhitespace (base64Char i) = false.
Proof. intros H. apply (base64Char_plain i H). Qed.

Lemma base64Char_not_PAD (i : Z) :
  isSextet i -> Ascii.eqb (base64Char i) PAD = false.
Proof. intros H. apply (base64Char_plain i H). Qed.

Lemma PAD_plain : isAsciiWhitespace PAD = false.
Proof. reflexivity. Qed.

Ltac split_bytes Hb :=
  repeat match type of Hb with
         | Forall isByte (_ :: _) =>
             let H := fresh "Hbyte" in apply Forall_cons in Hb as [H Hb]
         end.

Ltac plain_char :=
  match goal with
  | |- context [isAsciiWhitespace (base64Char ?i)] =>
      rewrite (base64Char_not_whitespace i) by bytes_arith
  | |- context [Ascii.eqb (base64Char ?i) PAD] =>
      rewrite (base64Char_not_PAD i) by bytes_arith
  end.

(** [btoa] writes no white space. *)
Lemma btoaCodes_no_whitespace (l : list Z) :
  Forall isByte l ->
  List.filter (fun c => negb (isAsciiWhitespace c)) (btoaCodes l) = btoaCodes l.
Proof.
  induction l as [|a|a b|a b c l IH] using list_ind3; intros Hb;
    split_bytes Hb; cbn [btoaCodes List.filter];
    repeat plain_char; rewrite ?PAD_plain; cbn [negb]; try reflexivity.
  rewrite (IH Hb). reflexivity.
Qed.

Lemma stripPadding_plain (c : ascii) (r : list ascii) :
  Ascii.eqb c PAD = false -> stripPadding (c :: r) = c :: stripPadding r.
Proof.
  intros H. cbn [stripPadding]. rewrite H.
  destruct r as [|c' [|c'' r]]; reflexivity.
Qed.

(** Stripping the padding leaves the characters of the 6-bit values. *)
Lemma stripPadding_btoaCodes (l : list Z) :
  Forall isByte l ->
  stripPadding (btoaCodes l) = map base64Char (sextetsOf l).
Proof.
  induction l as [|a|a b|a b c l IH] using list_ind3; intros Hb;
    split_bytes Hb; cbn [btoaCodes sextetsOf map].
  - reflexivity.
  - rewrite !stripPadding_plain
      by (apply base64Char_not_PAD; bytes_arith).
    reflexivity.
  - rewrite !stripPadding_plain
      by (apply base64Char_not_PAD; bytes_arith).
    reflexivity.
  - rewrite !stripPadding_plain
      by (apply base64Char_not_PAD; bytes_arith).
    rewrite (IH Hb). reflexivity.
Qed.

Lemma mapM_base64Index (sx : list Z) :
  Forall isSextet sx -> mapM base64Index (map base64Char sx) = Some sx.
Proof.
  induction 1 as [|s sx Hs _ IH]; [reflexivity|].
  cbn [map mapM]. rewrite (base64Index_base64Char s Hs). cbn.
  rewrite IH. reflexivity.
Qed.

(** [atob] undoes [btoa], on every binary string. *)
Lemma atob_btoa (binary : string) : atob (btoa binary) = Some binary.
Proof.
  unfold atob, btoa.
  pose proof (charCodes_bytes binary) as Hb.
  rewrite list_ascii_of_string_of_list_ascii.
  rewrite (btoaCodes_no_whitespace _ Hb).
  rewrite btoaCodes_length. cbn [Z.eqb].
  rewrite (stripPadding_btoaCodes _ Hb).
  rewrite length_map.
  destruct (Z.eqb_spec (Z.of_nat (length (sextetsOf (charCodes binary))) mod 4) 1)
    as [E|_]; [exfalso; exact (sextetsOf_length _ E)|].
  rewrite (mapM_base64Index _ (sextetsOf_sextets _ Hb)). cbn.
  rewrite (decodeSextets_sextetsOf _ Hb), binaryString_charCodes.
  reflexivity.
Qed.

(** *** Typed arrays *)

Lemma int16Bytes_bytes (v : Z) : Forall isByte (int16Bytes v).
Proof. unfold int16Bytes. repeat constructor; bytes_arith. Qed.

Lemma int16OfBytes_int16Bytes (v : Z) :
  isInt16 v -> int16OfBytes (v mod 256) ((v / 256) mod 256) = v.
Proof.
  unfold isInt16, int16OfBytes. intros Hv.
  destruct (Z.ltb_spec (v mod 256 + 256 * ((v / 256) mod 256)) 32768);
    Z.div_mod_to_equations; lia.
Qed.

Lemma bufferOfInt16Array_bytes (hostLE : bool) (a : list Z) :
  Forall isByte (bufferOfInt16Array hostLE a).
Proof.
  unfold bufferOfInt16Array. induction a as [|v a IH]; [constructor|].
  cbn [flat_map]. apply Forall_app. split; [|exact IH].
  pose proof (int16Bytes_bytes v) as H.
  destruct hostLE; cbn [hostOrder]; [exact H|].
  apply Forall_rev. exact H.
Qed.

(** A view on the bytes of an [Int16Array] reads the same elements, on a
    host of either byte order. *)
Lemma newInt16Array_bufferOfInt16Array (hostLE : bool) (a : list Z) :
  Forall isInt16 a ->
  newInt16Array hostLE (bufferOfInt16Array hostLE a) = Some a.
Proof.
  unfold bufferOfInt16Array. induction 1 as [|v a Hv _ IH]; [reflexivity|].
  cbn [flat_map]. destruct hostLE;
    cbn [hostOrder int16Bytes rev app newInt16Array] in *;
    rewrite IH, (int16OfBytes_int16Bytes v Hv); reflexivity.
Qed.

Lemma bufferOfInt16Array_length (hostLE : bool) (a : list Z) :
  length (bufferOfInt16Array hostLE a) = (2 * length a)%nat.
Proof.
  unfold bufferOfInt16Array. induction a as [|v a IH]; [reflexivity|].
  cbn [flat_map]. rewrite length_app, IH.
  destruct hostLE; cbn; lia.
Qed.

(** *** The WAV container *)

Lemma setBytes_Some (view : list Z) (offset : nat) (bs : list Z) :
  (offset + length bs <= length view)%nat ->
  setBytes view offset bs
  = Some (take offset view ++ bs ++ drop (offset + length bs) view).
Proof. intros H. unfold setBytes. rewrite decide_True by exact H. reflexivity. Qed.

(** A write that replaces the bytes [old] in place. *)
Lemma setBytes_middle (pre old post bs : list Z) :
  length old = length bs ->
  setBytes (pre ++ old ++ post) (length pre) bs = Some (pre ++ bs ++ post).
Proof.
  intros Hlen. rewrite setBytes_Some by (rewrite !length_app; lia).
  rewrite take_app_length. rewrite <- Hlen.
  rewrite drop_app_add, drop_app_length. reflexivity.
Qed.

Lemma wavHeader_length (dataSize : Z) : length (wavHeader dataSize) = 44%nat.
Proof. reflexivity. Qed.

Lemma writeSamples_spec (pre : list Z) (pcmData done : list Z) (i : nat) :
  length pre = 44%nat -> length done = (i * 2)%nat ->
  writeSamples (pre ++ done ++ replicate (2 * length pcmData) 0) 44 i pcmData
  = Some (pre ++ done ++ flat_map int16Bytes pcmData).
Proof.
  revert done i. induction pcmData as [|v pcmData IH]; intros done i Hpre Hdone.
  - reflexivity.
  - cbn [writeSamples length flat_map]. unfold setInt16.
    replace (2 * S (length pcmData))%nat with (S (S (2 * length pcmData))) by lia.
    cbn [replicate].
    replace (44 + i * 2)%nat with (length (pre ++ done))
      by (rewrite length_app; lia).
    rewrite (app_assoc pre done).
    change (0 :: 0 :: replicate (2 * length pcmData) 0)
      with ([0; 0] ++ replicate (2 * length pcmData) 0).
    rewrite setBytes_middle by reflexivity.
    cbn [mbind option_bind]. rewrite <- (app_assoc pre done).
    rewrite (app_assoc done). rewrite IH.
    + rewrite <- !app_assoc. reflexivity.
    + exact Hpre.
    + rewrite length_app. cbn. lia.
Qed.

(** [createWavFile] never leaves its buffer: it returns the header followed
    by the samples, two bytes each, low byte first. *)
Lemma createWavFile_spec (pcmData : list Z) :
  createWavFile pcmData 16000
  = Some (wavHeader (Z.of_nat (length pcmData) * 2)
          ++ flat_map int16Bytes pcmData).
Proof.
  unfold createWavFile.
  change (16 / 8) with 2. change (16000 * 1 * 2) with 32000.
  change (1 * 2) with 2.
  remember (Z.of_nat (length pcmData) * 2) as dataSize eqn:Esize.
  replace (Z.to_nat (44 + dataSize)) with (44 + 2 * length pcmData)%nat by lia.
  rewrite replicate_add.
  remember (replicate (2 * length pcmData) 0) as zeros eqn:Ezeros.
  cbn [replicate app list_ascii_of_string writeString].
  unfold setUint8, setUint32, setUint16, uint32Bytes, int16Bytes.
  repeat (rewrite setBytes_Some by (cbn [length]; lia);
          cbn [take drop firstn skipn app length Nat.add mbind option_bind
               writeString]).
  subst zeros.
  change (charCodeAt "R" mod 256) with 82.
  change (charCodeAt "I" mod 256) with 73.
  change (charCodeAt "F" mod 256) with 70.
  change (charCodeAt "W" mod 256) with 87.
  change (charCodeAt "A" mod 256) with 65.
  change (charCodeAt "V" mod 256) with 86.
  change (charCodeAt "E" mod 256) with 69.
  change (charCodeAt "f" mod 256) with 102.
  change (charCodeAt "m" mod 256) with 109.
  change (charCodeAt "t" mod 256) with 116.
  change (charCodeAt " " mod 256) with 32.
  change (charCodeAt "d" mod 256) with 100.
  change (charCodeAt "a" mod 256) with 97.
  match goal with
  | |- writeSamples ?view _ _ _ = _ =>
      change view with
        (wavHeader dataSize ++ [] ++ replicate (2 * length pcmData) 0)
  end.
  apply (writeSamples_spec (wavHeader dataSize) pcmData [] 0); reflexivity.
Qed.

Lemma flat_map_int16Bytes_length (a : list Z) :
  length (flat_map int16Bytes a) = (2 * length a)%nat.
Proof.
  induction a as [|v a IH]; [reflexivity|].
  cbn [flat_map]. rewrite length_app, IH. cbn. lia.
Qed.

Lemma getUint32_header (dataSize : Z) (data : list Z) :
  0 <= dataSize < 2 ^ 32 ->
  getUint32 (wavHeader dataSize ++ data) 40 = Some dataSize.
Proof.
  intros Hsize. unfold getUint32, wavHeader, uint32Bytes.
  cbn [app drop skipn take firstn]. f_equal.
  change (2 ^ 32) with 4294967296 in Hsize.
  Z.div_mod_to_equations. lia.
Qed.

(** C10.  For [n] 16-bit samples, on a host of either byte order, as long
    as the data size [2 * n] fits the 32-bit header field: encoding the
    bytes of the [Int16Array] with [arrayBufferToBase64] and decoding with
    [base64ToBlob] succeeds, and the WAV buffer it returns
    - has [44 + 2 * n] bytes;
    - starts with the 44-byte header whose data-size field reads [2 * n];
    - continues with the [n] samples in order, two bytes each, low byte
      first, which read back as the original samples. *)
Theorem audio_roundtrip (hostLE : bool) (samples : list Z) :
  Forall isInt16 samples ->
  Z.of_nat (length samples) * 2 < 2 ^ 32 ->
  exists wav,
    base64ToBlob hostLE
      (arrayBufferToBase64 (bufferOfInt16Array hostLE samples)) = Some wav
    /\ length wav = (44 + 2 * length samples)%nat
    /\ take 44 wav = wavHeader (Z.of_nat (length samples) * 2)
    /\ getUint32 wav 40 = Some (Z.of_nat (length samples) * 2)
    /\ drop 44 wav = flat_map int16Bytes samples
    /\ newInt16Array true (drop 44 wav) = Some samples.
Proof.
  intros Hsamples Hsize.
  exists (wavHeader (Z.of_nat (length samples) * 2)
          ++ flat_map int16Bytes samples).
  assert (Hdrop : drop 44 (wavHeader (Z.of_nat (length samples) * 2)
                           ++ flat_map int16Bytes samples)
                  = flat_map int16Bytes samples).
  { apply drop_app_length'. reflexivity. }
  split; [|split; [|split; [|split; [|split]]]].
  - unfold base64ToBlob, arrayBufferToBase64.
    rewrite atob_btoa. cbn [mbind option_bind].
    rewrite (charCodes_binaryString _ (bufferOfInt16Array_bytes hostLE samples)).
    rewrite (newInt16Array_bufferOfInt16Array hostLE samples Hsamples).
    apply createWavFile_spec.
  - rewrite length_app, wavHeader_length, flat_map_int16Bytes_length.
    reflexivity.
  - apply take_app_length'. reflexivity.
  - apply getUint32_header. lia.
  - exact Hdrop.
  - rewrite Hdrop.
    apply (newInt16Array_bufferOfInt16Array true samples Hsamples).
Qed.

Lemma audio_roundtrip_witness :
  exists wav,
    base64ToBlob false
      (arrayBufferToBase64 (bufferOfInt16Array false [1; -2; 32767; -32768]))
    = Some wav
    /\ length wav = 52%nat
    /\ take 44 wav = wavHeader 8
    /\ getUint32 wav 40 = Some 8
    /\ drop 44 wav = [1; 0; 254; 255; 255; 127; 0; 128]
    /\ newInt16Array true (drop 44 wav) = Some [1; -2; 32767; -32768].
Proof.
  apply (audio_roundtrip false [1; -2; 32767; -32768]).
  - repeat constructor; discriminate.
  - reflexivity.
Defined.

(** ** Reading the subtitle store (DataSyncService.js) *)

Section StoreQueries.

Import SubtitleStore.

Variable sha256Hex : string -> string.

Local Abbreviation generateVideoId := (generateVideoId sha256Hex).
Local Abbreviation saveVideo := (saveVideo sha256Hex).
Local Abbreviation saveSegment := (saveSegment sha256Hex).
Local Abbreviation addTranslation := (addTranslation sha256Hex).
Local Abbreviation getVideo := (getVideo sha256Hex).
Local Abbreviation segmentsOf := (segmentsOf sha256Hex).
Local Abbreviation segmentsAt := (segmentsAt sha256Hex).
Local Abbreviation getSegments := (getSegments sha256Hex).
Local Abbreviation getSegmentAtTime := (getSegmentAtTime sha256Hex).
Local Abbreviation getTranslation := (getTranslation sha256Hex).
Local Abbreviation hasCache := (hasCache sha256Hex).

(** *** The sort of [getSegments] *)

Lemma insertByStart_Permutation (s : Segment) (l : list Segment) :
  Permutation (insertByStart s l) (s :: l).
Proof.
  induction l as [|x l IH]; cbn [insertByStart]; [reflexivity|].
  destruct (Qle_bool (startTime s) (startTime x)); [reflexivity|].
  rewrite IH. apply perm_swap.
Qed.

Lemma sortByStart_Permutation (l : list Segment) :
  Permutation (sortByStart l) l.
Proof.
  induction l as [|x l IH]; [reflexivity|].
  cbn [sortByStart foldr]. fold (sortByStart l).
  rewrite insertByStart_Permutation, IH. reflexivity.
Qed.

Lemma insertByStart_sorted (s : Segment) (l : list Segment) :
  StronglySorted startsNoLater l ->
  StronglySorted startsNoLater (insertByStart s l).
Proof.
  induction 1 as [|x l Hl IH Hx]; cbn [insertByStart].
  - repeat constructor.
  - destruct (Qle_bool (startTime s) (startTime x)) eqn:E.
    + apply Qle_bool_iff in E. constructor; [constructor; assumption|].
      constructor; [exact E|].
      eapply Forall_impl; [exact Hx|]. intros y Hy.
      unfold startsNoLater in *. eapply Qle_trans; eassumption.
    + constructor; [exact IH|].
      rewrite insertByStart_Permutation. constructor; [|exact Hx].
      unfold startsNoLater. apply Qlt_le_weak. apply Qnot_le_lt.
      intros Hle. apply Qle_bool_iff in Hle. congruence.
Qed.

Lemma sortByStart_sorted (l : list Segment) :
  StronglySorted startsNoLater (sortByStart l).
Proof.
  induction l as [|x l IH]; [constructor|].
  cbn [sortByStart foldr]. apply insertByStart_sorted. exact IH.
Qed.

Lemma segmentsOf_videoId (videoUrl : string) (db : DB) (s : Segment) :
  In s (segmentsOf videoUrl db) -> videoId s = generateVideoId videoUrl.
Proof.
  unfold SubtitleStore.segmentsOf. intros H.
  apply in_map_iff in H as ([k s'] & <- & H).
  apply filter_In in H as [_ H]. apply String.eqb_eq in H. exact H.
Qed.

(** X1.  [getSegments] returns the records of the video and only them, each as
    often as the store holds it, in ascending order of start time. *)
Theorem getSegments_sorted (videoUrl : string) (db : DB) :
  Permutation (getSegments videoUrl db) (segmentsOf videoUrl db)
  /\ StronglySorted startsNoLater (getSegments videoUrl db)
  /\ Forall (fun s => videoId s = generateVideoId videoUrl)
       (getSegments videoUrl db).
Proof.
  unfold SubtitleStore.getSegments.
  split; [apply sortByStart_Permutation|].
  split; [apply sortByStart_sorted|].
  apply List.Forall_forall. intros s Hs. apply (segmentsOf_videoId videoUrl db).
  apply (Permutation_in s (sortByStart_Permutation _)). exact Hs.
Qed.

(** *** [getSegmentAtTime] *)

Lemma find_sorted_least (P : Segment -> bool) (l : list Segment)
    (s s' : Segment) :
  StronglySorted startsNoLater l ->
  List.find P l = Some s -> In s' l -> P s' = true -> startsNoLater s s'.
Proof.
  induction 1 as [|x l Hl IH Hx]; intros Hfind Hin HP; [destruct Hin|].
  cbn [List.find] in Hfind. destruct (P x) eqn:Ex.
  - inversion Hfind; subst x. destruct Hin as [<-|Hin].
    + unfold startsNoLater. apply Qle_refl.
    + rewrite List.Forall_forall in Hx. apply Hx. exact Hin.
  - destruct Hin as [<-|Hin]; [congruence|]. apply IH; assumption.
Qed.

(** X2.  [getSegmentAtTime] returns a record of the video whose interval
    contains the time, one with the least start time among those that do;
    it returns nothing exactly when no record of the video contains the
    time. *)
Theorem getSegmentAtTime_first (videoUrl : string) (time : Q) (db : DB) :
  match getSegmentAtTime videoUrl time db with
  | Some s =>
      In s (segmentsOf videoUrl db) /\ covers time s
      /\ forall s', In s' (segmentsOf videoUrl db) -> covers time s' ->
                    startsNoLater s s'
  | None => forall s', In s' (segmentsOf videoUrl db) -> ~ covers time s'
  end.
Proof.
  unfold SubtitleStore.getSegmentAtTime, SubtitleStore.getSegments.
  pose proof (sortByStart_Permutation (segmentsOf videoUrl db)) as Hperm.
  pose proof (sortByStart_sorted (segmentsOf videoUrl db)) as Hsorted.
  assert (Hcov : forall s,
             Qle_bool (startTime s) time && Qle_bool time (endTime s) = true
             <-> covers time s).
  { intros s. unfold covers. rewrite andb_true_iff, !Qle_bool_iff. tauto. }
  destruct (List.find _ _) as [s|] eqn:Efind.
  - pose proof (find_some _ _ Efind) as [Hin Hs].
    split; [apply (Permutation_in s Hperm); exact Hin|].
    split; [apply Hcov; exact Hs|].
    intros s' Hin' Hs'.
    eapply find_sorted_least; [exact Hsorted|exact Efind| |].
    + apply (Permutation_in s' (Permutation_sym Hperm)). exact Hin'.
    + apply Hcov. exact Hs'.
  - intros s' Hin' Hs'.
    pose proof (find_none _ _ Efind s') as Hnone.
    apply Hcov in Hs'. rewrite Hnone in Hs'; [discriminate|].
    apply (Permutation_in s' (Permutation_sym Hperm)). exact Hin'.
Qed.

(** *** Saving, then reading *)

Lemma segmentsOf_none_openCursor (videoUrl : string) (start : Q) (db : DB) :
  segmentsOf videoUrl db = [] ->
  openCursor (generateVideoId videoUrl) start db = None.
Proof.
  unfold SubtitleStore.segmentsOf, openCursor. intros H.
  apply map_eq_nil in H.
  destruct (List.find _ _) as [[k s]|] eqn:E; [|reflexivity].
  apply find_some in E as [Hin Hkey].
  unfold hasKey in Hkey. apply andb_true_iff in Hkey as [Hvid _].
  assert (Hf : In (k, s)
                 (List.filter
                    (fun entry => String.eqb (videoId entry.2)
                                    (generateVideoId videoUrl))
                    (segments db))).
  { apply filter_In. split; assumption. }
  rewrite H in Hf. destruct Hf.
Qed.

Lemma orNull_orNull (v : option string) : orNull (orNull v) = orNull v.
Proof. unfold orNull. destruct (truthy v) eqn:E; [rewrite E|]; reflexivity. Qed.

(** A save for a video that has no segment yet adds the segment it builds,
    which is then the only one of the video. *)
Lemma saveSegment_fresh (videoUrl : string) (start finish : Q)
    (text source : string) (given : Translations) (metadata : Metadata)
    (now1 now2 now3 : string) (db : DB) :
  segmentsOf videoUrl db = [] ->
  let r := saveSegment videoUrl start finish text source given metadata
             now1 now2 now3 db in
  getSegments videoUrl r.1 = [r.2]
  /\ startTime r.2 = start /\ endTime r.2 = finish
  /\ original r.2 = text
  /\ translations r.2 = buildTranslations given
  /\ model r.2 = or_else (meta_model metadata) "whisper-large-v3".
Proof.
  intros Hnone r. subst r.
  unfold SubtitleStore.getSegments, SubtitleStore.segmentsOf,
    SubtitleStore.saveSegment.
  cbn [fst SubtitleStore.saveVideo].
  replace (openCursor _ _ _) with (@None (Z * Segment))
    by (symmetry; apply (segmentsOf_none_openCursor videoUrl start
                           (mkDB _ (segments db) (keyGenerator db)));
        exact Hnone).
  cbn [fst snd storeAdd segments startTime endTime original translations
       model].
  repeat split.
  rewrite List.filter_app.
  unfold SubtitleStore.segmentsOf in Hnone. apply map_eq_nil in Hnone.
  rewrite Hnone. cbn [List.filter app snd videoId].
  rewrite String.eqb_refl. reflexivity.
Qed.

(** X3.  A save for a video that has no record yet, then a lookup at a time
    inside the saved interval: the store has a cache for the video, the
    lookup finds the saved segment, and each supported language reads back
    the translation given, [null] when none or an empty one was given. *)
Theorem saveSegment_getTranslation (videoUrl : string) (start finish : Q)
    (text source : string) (given : Translations) (metadata : Metadata)
    (now1 now2 now3 : string) (db : DB) (time : Q) (lang : string) :
  segmentsOf videoUrl db = [] ->
  (start <= time)%Q -> (time <= finish)%Q ->
  lang ∈ SUPPORTED_LANGUAGES ->
  let r := saveSegment videoUrl start finish text source given metadata
             now1 now2 now3 db in
  hasCache videoUrl r.1 = true
  /\ getSegmentAtTime videoUrl time r.1 = Some r.2
  /\ getTranslation videoUrl time lang r.1 = orNull (getProperty given lang).
Proof.
  intros Hnone Hlo Hhi Hlang r. subst r.
  assert (Hsegs : getSegments videoUrl
                    (saveSegment videoUrl start finish text source given
                       metadata now1 now2 now3 db).1
                  = [(saveSegment videoUrl start finish text source given
                        metadata now1 now2 now3 db).2]).
  { unfold SubtitleStore.getSegments, SubtitleStore.segmentsOf,
      SubtitleStore.saveSegment.
    cbn [fst SubtitleStore.saveVideo].
    replace (openCursor _ _ _) with (@None (Z * Segment))
      by (symmetry; apply (segmentsOf_none_openCursor videoUrl start
                             (mkDB _ (segments db) (keyGenerator db)));
          exact Hnone).
    cbn [fst snd storeAdd segments].
    rewrite List.filter_app.
    unfold SubtitleStore.segmentsOf in Hnone. apply map_eq_nil in Hnone.
    rewrite Hnone. cbn [List.filter app snd videoId].
    rewrite String.eqb_refl. reflexivity. }
  assert (Hfind : getSegmentAtTime videoUrl time
                    (saveSegment videoUrl start finish text source given
                       metadata now1 now2 now3 db).1
                  = Some (saveSegment videoUrl start finish text source given
                            metadata now1 now2 now3 db).2).
  { unfold SubtitleStore.getSegmentAtTime. rewrite Hsegs.
    unfold SubtitleStore.saveSegment.
    replace (openCursor _ _ _) with (@None (Z * Segment))
      by (symmetry; apply (segmentsOf_none_openCursor videoUrl start
                             (mkDB _ (segments db) (keyGenerator db)));
          exact Hnone).
    cbn [snd List.find startTime endTime].
    apply Qle_bool_iff in Hlo, Hhi. rewrite Hlo, Hhi. reflexivity. }
  split; [unfold SubtitleStore.hasCache; rewrite Hsegs; reflexivity|].
  split; [exact Hfind|].
  unfold SubtitleStore.getTranslation. rewrite Hfind.
  unfold SubtitleStore.saveSegment.
  replace (openCursor _ _ _) with (@None (Z * Segment))
    by (symmetry; apply (segmentsOf_none_openCursor videoUrl start
                           (mkDB _ (segments db) (keyGenerator db)));
        exact Hnone).
  cbn [snd translations]. unfold getProperty at 1.
  rewrite buildTranslations_lookup, decide_True by exact Hlang.
  cbn [mjoin option_join]. apply orNull_orNull.
Qed.

(** X4.  Every [saveSegment] leaves the record of its video with an empty title
    and duration 0, whatever [saveVideo] had stored there: it calls
    [saveVideo(videoUrl)] with the default arguments. *)
Theorem saveSegment_resets_title (videoUrl title : string) (duration : Q)
    (t1 t2 : string) (start finish : Q) (text source : string)
    (given : Translations) (metadata : Metadata) (now1 now2 now3 : string)
    (db : DB) :
  exists v,
    getVideo videoUrl
      (saveSegment videoUrl start finish text source given metadata
         now1 now2 now3 (saveVideo videoUrl title duration t1 t2 db).1).1
    = Some v
    /\ SubtitleStore.title v = EmptyString
    /\ SubtitleStore.duration v = 0%Q
    /\ url v = videoUrl
    /\ createdAt v = createdAt (saveVideo videoUrl title duration t1 t2 db).2.
Proof.
  unfold SubtitleStore.getVideo.
  rewrite saveSegment_videos, !saveVideo_videos, lookup_insert_eq.
  eexists. split; [reflexivity|].
  unfold SubtitleStore.saveVideo.
  cbn [fst snd videos]. rewrite !lookup_insert_eq.
  destruct (SubtitleStore.videos db !! generateVideoId videoUrl);
    cbn; repeat split.
Qed.

(** *** What a write leaves alone *)

Lemma filter_map_outside {A} (P : A -> bool) (f : A -> A) (l : list A) :
  (forall x, In x l -> f x = x \/ (P x = false /\ P (f x) = false)) ->
  List.filter P (map f l) = List.filter P l.
Proof.
  induction l as [|x l IH]; intros H; [reflexivity|]. cbn.
  rewrite IH by (intros y Hy; apply H; right; exact Hy).
  destruct (H x (or_introl eq_refl)) as [->|[H1 H2]]; [reflexivity|].
  rewrite H1, H2. reflexivity.
Qed.

Lemma cursorUpdate_other_video (videoUrl' : string) (key : Z)
    (existing value : Segment) (db : DB) :
  wellFormed db -> In (key, existing) (segments db) ->
  videoId existing <> generateVideoId videoUrl' ->
  videoId value = videoId existing ->
  segmentsOf videoUrl' (cursorUpdate key value db) = segmentsOf videoUrl' db.
Proof.
  intros [Hnd _] Hin Hne Hsame. unfold SubtitleStore.segmentsOf.
  rewrite cursorUpdate_segments. f_equal.
  apply filter_map_outside. intros [k s] Hks. unfold replaceAt. cbn [fst].
  destruct (Z.eqb_spec k key) as [->|_]; [|left; reflexivity].
  right. rewrite (NoDup_fst_unique _ _ _ _ Hnd Hks Hin). cbn [snd].
  rewrite Hsame. split; apply String.eqb_neq; exact Hne.
Qed.

Lemma openCursor_videoId (vid : string) (start : Q) (db : DB) (key : Z)
    (seg : Segment) :
  openCursor vid start db = Some (key, seg) -> videoId seg = vid.
Proof.
  unfold openCursor. intros H. apply find_some in H as [_ H].
  unfold hasKey in H. apply andb_true_iff in H as [H _].
  apply String.eqb_eq in H. exact H.
Qed.

(** X5.  A save or an added translation for one video changes neither the
    segments nor the record of a video with another id. *)
Theorem writes_leave_other_videos (videoUrl videoUrl' : string)
    (c : StoreCall) (db : DB) :
  wellFormed db ->
  generateVideoId videoUrl <> generateVideoId videoUrl' ->
  targetOf c = videoUrl ->
  segmentsOf videoUrl' (call sha256Hex c db) = segmentsOf videoUrl' db
  /\ getVideo videoUrl' (call sha256Hex c db) = getVideo videoUrl' db.
Proof.
  intros Hwf Hne Htarget.
  assert (Hvideo : forall title duration now1 now2 d,
             SubtitleStore.videos (saveVideo videoUrl title duration now1 now2 d).1
             !! generateVideoId videoUrl'
             = SubtitleStore.videos d !! generateVideoId videoUrl').
  { intros. rewrite saveVideo_videos. apply lookup_insert_ne. exact Hne. }
  destruct c as [u title duration now1 now2
                |u start finish text source given metadata now1 now2 now3
                |u start lang translation];
    cbn [targetOf] in Htarget; subst u; cbn [call].
  - split; [reflexivity|]. unfold SubtitleStore.getVideo. apply Hvideo.
  - split.
    + unfold SubtitleStore.saveSegment.
      destruct (openCursor _ _ _) as [[key existing]|] eqn:Ecur; cbn [fst].
      * apply (cursorUpdate_other_video videoUrl' key existing _
                 (mkDB _ (segments db) (keyGenerator db)));
          [exact Hwf|exact (openCursor_In _ _ _ _ _ Ecur)| |reflexivity].
        rewrite (openCursor_videoId _ _ _ _ _ Ecur). exact Hne.
      * unfold SubtitleStore.segmentsOf, storeAdd. cbn [fst segments].
        rewrite List.filter_app. cbn [List.filter snd videoId].
        apply String.eqb_neq in Hne. rewrite Hne, app_nil_r. reflexivity.
    + unfold SubtitleStore.getVideo. rewrite saveSegment_videos. apply Hvideo.
  - split.
    + unfold SubtitleStore.addTranslation.
      destruct (openCursor _ _ _) as [[key existing]|] eqn:Ecur; cbn [fst];
        [|reflexivity].
      apply (cursorUpdate_other_video videoUrl' key existing);
        [exact Hwf|exact (openCursor_In _ _ _ _ _ Ecur)| |reflexivity].
      rewrite (openCursor_videoId _ _ _ _ _ Ecur). exact Hne.
    + unfold SubtitleStore.getVideo. rewrite addTranslation_videos. reflexivity.
Qed.


(** *** Counting and clearing *)

(** X7.  [saveSegment] adds one video record when the video has none and one
    segment record when no record has the key; otherwise the counts of
    [getStats] stay as they are. *)
Theorem saveSegment_getStats (videoUrl : string) (start finish : Q)
    (text source : string) (given : Translations) (metadata : Metadata)
    (now1 now2 now3 : string) (db : DB) :
  getStats (saveSegment videoUrl start finish text source given metadata
              now1 now2 now3 db).1
  = ((getStats db).1
      + match getVideo videoUrl db with Some _ => 0 | None => 1 end,
     (getStats db).2
      + match segmentsAt videoUrl start db with [] => 1 | _ :: _ => 0 end)%nat.
Proof.
  unfold getStats. cbn [fst snd]. rewrite saveSegment_videos, saveVideo_videos.
  f_equal.
  - unfold SubtitleStore.getVideo.
    destruct (SubtitleStore.videos db !! generateVideoId videoUrl) eqn:E.
    + rewrite map_size_insert_Some by eauto. lia.
    + rewrite map_size_insert_None by exact E. lia.
  - unfold SubtitleStore.saveSegment, SubtitleStore.segmentsAt, openCursor.
    rewrite find_filter. cbn [fst segments SubtitleStore.saveVideo].
    destruct (List.filter _ _) as [|[key seg] rest]; cbn [head fst map].
    + unfold storeAdd. cbn [fst segments]. rewrite length_app. cbn. lia.
    + rewrite cursorUpdate_segments, length_map. cbn [segments]. lia.
Qed.

(** X8.  After [clearAll] both counts are 0, no video has a cache or a record;
    the key generator is kept, so the store stays well formed and the next
    segment gets a primary key that no earlier record had. *)
Theorem clearAll_empties (db : DB) :
  getStats (clearAll db) = (0%nat, 0%nat)
  /\ (forall videoUrl,
        hasCache videoUrl (clearAll db) = false
        /\ getVideo videoUrl (clearAll db) = None
        /\ getSegments videoUrl (clearAll db) = [])
  /\ (wellFormed db -> wellFormed (clearAll db))
  /\ (wellFormed db ->
      forall value, ~ In (storeAdd value (clearAll db)).2
                      (map fst (segments db))).
Proof.
  split; [reflexivity|]. split; [intros videoUrl; repeat split|].
  split.
  - intros _. split; constructor.
  - intros [_ Hlt] value Hin. cbn in Hin.
    apply in_map_iff in Hin as ([k s] & Hk & Hin). cbn in Hk. subst k.
    rewrite List.Forall_forall in Hlt. specialize (Hlt _ Hin). cbn in Hlt. lia.
Qed.

End StoreQueries.

Lemma saveSegment_getTranslation_witness :
  let r := SubtitleStore.saveSegment (fun url => url) sampleUrl 10 13 "Hello"
             "en" {[ "vi" := Some "Xin chao" ]} noMetadata
             "2024-01-01T00:00:00.000Z" "2024-01-01T00:00:00.000Z"
             "2024-01-01T00:00:00.001Z" SubtitleStore.emptyDB in
  SubtitleStore.hasCache (fun url => url) sampleUrl r.1 = true
  /\ SubtitleStore.getSegmentAtTime (fun url => url) sampleUrl 12 r.1
     = Some r.2
  /\ SubtitleStore.getTranslation (fun url => url) sampleUrl 12 "vi" r.1
     = SubtitleStore.orNull
         (SubtitleStore.getProperty {[ "vi" := Some "Xin chao" ]} "vi").
Proof.
  apply (saveSegment_getTranslation (fun url => url) sampleUrl 10 13 "Hello"
           "en" {[ "vi" := Some "Xin chao" ]} noMetadata
           "2024-01-01T00:00:00.000Z" "2024-01-01T00:00:00.000Z"
           "2024-01-01T00:00:00.001Z" SubtitleStore.emptyDB 12 "vi").
  - reflexivity.
  - discriminate.
  - discriminate.
  - unfold SubtitleStore.SUPPORTED_LANGUAGES. set_solver.
Defined.

Lemma writes_leave_other_videos_witness :
  SubtitleStore.segmentsOf (fun url => url) "https://vimeo.com/2"
    (call (fun url => url)
       (AddTranslation sampleUrl 10 "en" (Some "Hello")) storeWithSegment)
  = SubtitleStore.segmentsOf (fun url => url) "https://vimeo.com/2"
      storeWithSegment
  /\ SubtitleStore.getVideo (fun url => url) "https://vimeo.com/2"
       (call (fun url => url)
          (AddTranslation sampleUrl 10 "en" (Some "Hello")) storeWithSegment)
     = SubtitleStore.getVideo (fun url => url) "https://vimeo.com/2"
         storeWithSegment.
Proof.
  apply (writes_leave_other_videos (fun url => url) sampleUrl
           "https://vimeo.com/2"
           (AddTranslation sampleUrl 10 "en" (Some "Hello")) storeWithSegment).
  - apply (call_wellFormed (fun url => url)
             (SaveSegment sampleUrl 10 13 "Hello" "en"
                {[ "vi" := Some "Xin chao" ]} noMetadata
                "2024-01-01T00:00:00.000Z" "2024-01-01T00:00:00.000Z"
                "2024-01-01T00:00:00.001Z") SubtitleStore.emptyDB).
    apply emptyDB_wellFormed.
  - discriminate.
  - reflexivity.
Defined.

(** ** The sync service beside the gate (DataSyncService.js) *)

Lemma substring_length (n : nat) (s : string) :
  (String.length (substring 0 n s) <= n)%nat.
Proof.
  revert s. induction n as [|n IH]; intros s.
  - destruct s; cbn; lia.
  - destruct s as [|c s]; cbn; [lia|]. specialize (IH s). lia.
Qed.

Lemma substring_nonempty (n : nat) (s : string) :
  s <> EmptyString -> substring 0 (S n) s <> EmptyString.
Proof. destruct s; [congruence|discriminate]. Qed.

Lemma truthy_inv (v : option string) :
  truthy v = true -> exists s, v = Some s /\ s <> EmptyString.
Proof.
  destruct v as [s|]; [|discriminate]. cbn. intros H.
  exists s. split; [reflexivity|].
  apply negb_true_iff, String.eqb_neq in H. exact H.
Qed.

(** X9.  The device identifier is generated once: a second [init] on the
    storage the first one left returns the same service and storage,
    whatever identifier the platform would generate then; an identifier
    found in the storage is kept. *)
Theorem init_keeps_deviceId (result : DataSyncService.Storage)
    (uuid uuid' : string) :
  uuid <> EmptyString ->
  let r := DataSyncService.init (Some result) uuid in
  DataSyncService.init r.2 uuid' = r
  /\ truthy (DataSyncService.deviceId r.1) = true
  /\ (truthy (DataSyncService.stored_deviceId result) = true ->
      DataSyncService.deviceId r.1 = DataSyncService.stored_deviceId result
      /\ r.2 = Some result).
Proof.
  intros Huuid r. subst r. unfold DataSyncService.init.
  destruct result as [dev consent surl skey].
  cbn [DataSyncService.stored_deviceId DataSyncService.stored_dataSyncConsent
       DataSyncService.stored_supabaseUrl DataSyncService.stored_supabaseAnonKey].
  destruct (truthy dev) eqn:Edev; cbn [fst snd DataSyncService.deviceId
       DataSyncService.stored_deviceId DataSyncService.stored_dataSyncConsent
       DataSyncService.stored_supabaseUrl DataSyncService.stored_supabaseAnonKey].
  - rewrite Edev. repeat split; assumption.
  - rewrite (truthy_Some uuid Huuid). repeat split; try discriminate.
Qed.

Lemma init_keeps_deviceId_witness :
  let r := DataSyncService.init
             (Some (DataSyncService.mkStorage None (Some true)
                      (Some "https://test.supabase.co") (Some "test-key")))
             "new-uuid" in
  DataSyncService.init r.2 "another-uuid" = r
  /\ truthy (DataSyncService.deviceId r.1) = true
  /\ (truthy None = true ->
      DataSyncService.deviceId r.1 = None
      /\ r.2 = Some (DataSyncService.mkStorage None (Some true)
                       (Some "https://test.supabase.co") (Some "test-key"))).
Proof.
  apply (init_keeps_deviceId
           (DataSyncService.mkStorage None (Some true)
              (Some "https://test.supabase.co") (Some "test-key"))
           "new-uuid" "another-uuid").
  discriminate.
Defined.

(** X10.  [setConsent] is remembered: the service has the value set, an [init]
    on the storage it wrote reads the same value, identity and
    configuration are untouched; after [setConsent(false)] no segment is
    synced. *)
Theorem setConsent_persists (enabled : bool)
    (this : DataSyncService.Service) (storage : DataSyncService.Storage)
    (uuid : string) :
  let r := DataSyncService.setConsent enabled this storage in
  DataSyncService.isEnabled r.1 = enabled
  /\ DataSyncService.isEnabled (DataSyncService.init (Some r.2) uuid).1
     = enabled
  /\ DataSyncService.deviceId r.1 = DataSyncService.deviceId this
  /\ DataSyncService.isConfigured r.1 = DataSyncService.isConfigured this
  /\ DataSyncService.isConfigured (DataSyncService.init (Some r.2) uuid).1
     = DataSyncService.isConfigured (DataSyncService.init (Some storage) uuid).1
  /\ forall hostnameOf videoUrl original translated sourceLang targetLang now
            response,
       DataSyncService.syncSegment hostnameOf
         (DataSyncService.setConsent false this storage).1 videoUrl original
         translated sourceLang targetLang now response = (false, []).
Proof.
  intros r. subst r.
  pose proof (init_gate (DataSyncService.setConsent enabled this storage).2 uuid)
    as [Hc He].
  pose proof (init_gate storage uuid) as [Hc' _].
  cbv zeta in Hc, He, Hc'.
  split; [reflexivity|]. split; [rewrite He; reflexivity|].
  split; [reflexivity|]. split; [reflexivity|].
  split; [rewrite Hc, Hc'; reflexivity|].
  intros. unfold DataSyncService.syncSegment.
  cbn [DataSyncService.setConsent fst DataSyncService.isEnabled
       DataSyncService.isConfigured].
  destruct (DataSyncService.isConfigured this); reflexivity.
Qed.

(** X11.  What [syncSegment] posts: at most one request per call; it returns true
    only when that request was answered with a status in 200..299; the
    request carries a non-empty original text of at most 500 characters, a
    translated text that is [null] or non-empty and of at most 500
    characters, the device id of the service and the hostname of the
    URL. *)
Theorem syncSegment_posts (hostnameOf : string -> option string)
    (this : DataSyncService.Service) (videoUrl : string)
    (original translated : option string) (sourceLang targetLang now : string)
    (response : FetchOutcome unit) :
  let r := DataSyncService.syncSegment hostnameOf this videoUrl original
             translated sourceLang targetLang now response in
  (length r.2 <= 1)%nat
  /\ (r.1 = true ->
      length r.2 = 1%nat
      /\ exists status body,
           response = HttpResponse status body /\ ok status = true)
  /\ Forall
       (fun request =>
          DataSyncService.original_text request <> EmptyString
          /\ (String.length (DataSyncService.original_text request) <= 500)%nat
          /\ match DataSyncService.translated_text request with
             | Some t => t <> EmptyString /\ (String.length t <= 500)%nat
             | None => True
             end
          /\ DataSyncService.device_id request = DataSyncService.deviceId this
          /\ DataSyncService.site request = hostnameOf videoUrl
          /\ DataSyncService.source_lang request = sourceLang
          /\ DataSyncService.target_lang request = targetLang)
       r.2.
Proof.
  intros r. subst r. unfold DataSyncService.syncSegment.
  destruct (negb _ || negb _);
    [cbn; split; [lia|split; [discriminate|constructor]]|].
  destruct (negb (DataSyncService.isWhitelistedSite _ _));
    [cbn; split; [lia|split; [discriminate|constructor]]|].
  destruct (negb (truthy (trim <$> original))) eqn:Eorig;
    [cbn; split; [lia|split; [discriminate|constructor]]|].
  apply negb_false_iff, truthy_inv in Eorig as (t & Et & Hne).
  destruct original as [o|]; [|discriminate]. cbn in Et.
  assert (Ho : o <> EmptyString).
  { intros ->. apply Hne. inversion Et. reflexivity. }
  assert (Hreq : forall request_translated,
             request_translated
             = (let t := substring 0 500 <$> translated in
                if truthy t then t else None) ->
             match request_translated with
             | Some t => t <> EmptyString /\ (String.length t <= 500)%nat
             | None => True
             end).
  { intros rt ->. cbv zeta.
    destruct (truthy (substring 0 500 <$> translated)) eqn:E; [|exact I].
    apply truthy_inv in E as (s & Es & Hs). rewrite Es.
    split; [exact Hs|]. destruct translated as [tr|]; [|discriminate].
    inversion Es. apply substring_length. }
  destruct response as [|status body]; cbn [fst snd length].
  - split; [lia|]. split; [discriminate|].
    constructor; [|constructor]. cbn.
    split; [apply substring_nonempty; exact Ho|].
    split; [apply substring_length|].
    split; [apply Hreq; reflexivity|]. repeat split.
  - split; [lia|]. split; [intros Hok; split; [reflexivity|eauto]|].
    constructor; [|constructor]. cbn.
    split; [apply substring_nonempty; exact Ho|].
    split; [apply substring_length|].
    split; [apply Hreq; reflexivity|]. repeat split.
Qed.

(** ** Failures and requests of the handlers (background.js) *)

Lemma handleBackendProcessing_requests (hostLE : bool) (config : Config)
    (message : TranscribeMessage) (response : FetchOutcome Reply)
    (ctx : list ContextEntry) :
  let h := handleBackendProcessing hostLE config message response ctx in
  requests h = [] \/ requests h = [ProxyRequest ctx].
Proof.
  unfold handleBackendProcessing.
  destruct (_ || _); [left; reflexivity|].
  destruct (base64ToBlob _ _); [|left; reflexivity].
  destruct response as [|status json]; [right; reflexivity|].
  destruct (negb (ok status)); [right; reflexivity|].
  destruct json as [result|]; [|right; reflexivity].
  destruct (reply_text result); right; reflexivity.
Qed.

Lemma handleDirectProcessing_requests (hostLE : bool)
    (message : TranscribeMessage)
    (transcription : FetchOutcome TranscriptionBody)
    (translation : FetchOutcome ChatBody) (ctx : list ContextEntry) :
  let h := handleDirectProcessing hostLE message transcription translation
             ctx in
  Forall (fun request =>
            match request with ProxyRequest _ => False | _ => True end)
    (requests h).
Proof.
  unfold handleDirectProcessing.
  destruct (negb _); [constructor|].
  destruct (base64ToBlob _ _); [|constructor].
  destruct transcription as [|status json]; [repeat constructor|].
  destruct (negb (ok status)); [repeat constructor|].
  destruct json as [result|]; [|repeat constructor].
  destruct (truthy (msg_targetLang message)).
  - destruct (translateText _ _ _); repeat constructor.
  - repeat constructor.
Qed.

(** X12.  A request that fails changes nothing and, when it fails before the
    network, sends nothing.  For the proxied handler: without both the
    secret and the backend URL the error is the missing credentials and no
    request is issued; invalid audio issues none either; no failure changes
    the translation context; at most one request is issued, and it carries
    the context as it was. *)
Theorem handleBackendProcessing_failures (hostLE : bool) (config : Config)
    (message : TranscribeMessage) (response : FetchOutcome Reply)
    (ctx : list ContextEntry) :
  let h := handleBackendProcessing hostLE config message response ctx in
  (truthy (apiSecret config) && truthy (backendUrl config) = false ->
   outcome h = inl MissingCredentials /\ requests h = [])
  /\ (base64ToBlob hostLE (msg_audio message) = None -> requests h = [])
  /\ (forall e, outcome h = inl e -> contextAfter h = ctx)
  /\ (requests h = [] \/ requests h = [ProxyRequest ctx])
  /\ (forall result, outcome h = inr result ->
        requests h = [ProxyRequest ctx]
        /\ exists status, response = HttpResponse status (Some result)
                          /\ ok status = true).
Proof.
  intros h. subst h. unfold handleBackendProcessing.
  destruct (truthy (apiSecret config)), (truthy (backendUrl config));
    cbn [negb orb andb outcome requests contextAfter];
    try (repeat split; auto; discriminate).
  destruct (base64ToBlob hostLE (msg_audio message)) as [blob|];
    cbn [outcome requests contextAfter];
    [|repeat split; auto; discriminate].
  destruct response as [|status json]; cbn [outcome requests contextAfter];
    [repeat split; auto; discriminate|].
  destruct (ok status) eqn:Eok; cbn [negb outcome requests contextAfter];
    [|repeat split; auto; discriminate].
  destruct json as [result|]; cbn [outcome requests contextAfter];
    [|repeat split; auto; discriminate].
  destruct (reply_text result); cbn [outcome requests contextAfter];
    [|repeat split; auto; discriminate].
  split; [discriminate|]. split; [discriminate|]. split; [discriminate|].
  split; [auto|]. intros r Hr. inversion Hr; subst r.
  split; [reflexivity|]. exists status. auto.
Qed.

(** X13.  For the direct handler: without an API key the error is the missing
    key and no request is issued; invalid audio issues none; no failure
    changes the translation context; the requests are a transcription
    alone or a transcription followed by one chat completion, and the chat
    completion is only issued when a target language is set and the
    transcription was answered with a status in 200..299. *)
Theorem handleDirectProcessing_failures (hostLE : bool)
    (message : TranscribeMessage)
    (transcription : FetchOutcome TranscriptionBody)
    (translation : FetchOutcome ChatBody) (ctx : list ContextEntry) :
  let h := handleDirectProcessing hostLE message transcription translation
             ctx in
  (truthy (msg_groqApiKey message) = false ->
   outcome h = inl (MissingApiKey (msg_apiMode message)) /\ requests h = [])
  /\ (base64ToBlob hostLE (msg_audio message) = None -> requests h = [])
  /\ (forall e, outcome h = inl e -> contextAfter h = ctx)
  /\ (requests h = []
      \/ requests h
         = [TranscriptionRequest (transcriptionModel (msg_apiMode message))]
      \/ exists text,
           requests h
           = [TranscriptionRequest (transcriptionModel (msg_apiMode message));
              ChatCompletionRequest (chatModel (msg_apiMode message)) text]
           /\ truthy (msg_targetLang message) = true
           /\ exists status body,
                transcription = HttpResponse status (Some body)
                /\ ok status = true /\ text = tb_text body).
Proof.
  intros h. subst h. unfold handleDirectProcessing.
  destruct (truthy (msg_groqApiKey message));
    cbn [negb outcome requests contextAfter];
    [|repeat split; auto; discriminate].
  destruct (base64ToBlob hostLE (msg_audio message)) as [blob|];
    cbn [outcome requests contextAfter];
    [|repeat split; auto; discriminate].
  destruct transcription as [|status json];
    cbn [outcome requests contextAfter];
    [repeat split; auto; discriminate|].
  destruct (ok status) eqn:Eok; cbn [negb outcome requests contextAfter];
    [|repeat split; auto; discriminate].
  destruct json as [result|]; cbn [outcome requests contextAfter];
    [|repeat split; auto; discriminate].
  destruct (truthy (msg_targetLang message)) eqn:Etarget.
  - destruct (translateText _ _ _) as [e|translated];
      cbn [outcome requests contextAfter app];
      (split; [discriminate|]); (split; [discriminate|]);
      (split; [try reflexivity; discriminate|]);
      right; right; exists (tb_text result);
      (split; [reflexivity|]); (split; [reflexivity|]);
      exists status, result; auto.
  - cbn [outcome requests contextAfter].
    split; [discriminate|]. split; [discriminate|].
    split; [discriminate|]. auto.
Qed.

(** X14.  Without a target language the direct handler translates nothing: one
    request, the reply carries the transcription as its text and an empty
    translation, and the context stays as it was. *)
Theorem handleDirectProcessing_no_target (hostLE : bool)
    (message : TranscribeMessage) (body : TranscriptionBody) (status : Z)
    (translation : FetchOutcome ChatBody) (ctx : list ContextEntry)
    (blob : list Z) :
  truthy (msg_groqApiKey message) = true ->
  base64ToBlob hostLE (msg_audio message) = Some blob ->
  truthy (msg_targetLang message) = false ->
  ok status = true ->
  let h := handleDirectProcessing hostLE message
             (HttpResponse status (Some body)) translation ctx in
  exists reply,
    outcome h = inr reply
    /\ reply_text reply = tb_text body
    /\ reply_original reply = tb_text body
    /\ reply_translated reply = Some EmptyString
    /\ reply_provider reply = msg_apiMode message
    /\ contextAfter h = ctx
    /\ requests h
       = [TranscriptionRequest (transcriptionModel (msg_apiMode message))].
Proof.
  intros Hkey Hblob Htarget Hok h. subst h. unfold handleDirectProcessing.
  rewrite Hkey, Hblob, Hok, Htarget. cbn [negb].
  eexists. split; [reflexivity|]. cbn.
  unfold updateContext. cbn. rewrite andb_false_r. repeat split.
Qed.

Lemma handleDirectProcessing_no_target_witness :
  let message := mkTranscribeMessage "AAA=" (Some "auto") None true
                   (Some "groq") (Some "gsk_key") in
  let h := handleDirectProcessing true message
             (HttpResponse 200 (Some (mkTranscriptionBody (Some "hello") None)))
             NetworkFailure [] in
  exists reply,
    outcome h = inr reply
    /\ reply_text reply = Some "hello"
    /\ reply_original reply = Some "hello"
    /\ reply_translated reply = Some EmptyString
    /\ reply_provider reply = Some "groq"
    /\ contextAfter h = []
    /\ requests h = [TranscriptionRequest "whisper-large-v3"].
Proof.
  apply (handleDirectProcessing_no_target true
           (mkTranscribeMessage "AAA=" (Some "auto") None true (Some "groq")
              (Some "gsk_key"))
           (mkTranscriptionBody (Some "hello") None) 200 NetworkFailure []
           (default [] (base64ToBlob true "AAA=")));
    reflexivity.
Defined.

Lemma runMessages_context_length (hostLE : bool) (config : Config)
    (ms : list Message) (bg : Background) :
  (length (translationContext bg) <= MAX_CONTEXT_SIZE)%nat ->
  (length (translationContext (runMessages hostLE config ms bg))
   <= MAX_CONTEXT_SIZE)%nat.
Proof.
  revert bg. unfold runMessages.
  induction ms as [|m ms IH]; intros bg Hbg; [exact Hbg|].
  cbn [foldl]. apply IH. apply onMessage_context_length. exact Hbg.
Qed.

(** X15.  What the listener sends out: only a [transcribe] message issues
    requests or changes the context, [resetContext] apart, which empties
    it; a request to the proxy carries the context the script held when
    the message arrived, which after any sequence of messages has at most
    3 entries. *)
Theorem onMessage_requests (hostLE : bool) (config : Config)
    (ms : list Message) (m : Message) :
  let bg := runMessages hostLE config ms initialBackground in
  let r := onMessage hostLE config m bg in
  Forall (fun request =>
            match request with
            | ProxyRequest context =>
                context = translationContext bg /\ (length context <= 3)%nat
            | _ => True
            end) r.2
  /\ ((forall message proxy transcription translation,
         m <> Transcribe message proxy transcription translation) ->
      r.2 = []
      /\ translationContext r.1.1
         = match m with
           | ResetContext => []
           | _ => translationContext bg
           end).
Proof.
  intros bg r. subst r.
  assert (Hlen : (length (translationContext bg) <= 3)%nat).
  { apply runMessages_context_length. unfold initialBackground. cbn. lia. }
  split.
  - destruct m as [|enabled|message proxy transcription translation| |];
      cbn [onMessage snd]; try constructor.
    case_decide.
    + destruct (handleBackendProcessing_requests hostLE config message proxy
                  (translationContext bg)) as [->| ->];
        [constructor|].
      constructor; [split; [reflexivity|exact Hlen]|constructor].
    + eapply Forall_impl;
        [apply (handleDirectProcessing_requests hostLE message transcription
                  translation (translationContext bg))|].
      intros [context|model|model text]; cbn; tauto.
  - intros Hnot.
    destruct m as [|enabled|message proxy transcription translation| |];
      cbn [onMessage fst snd translationContext]; auto.
    exfalso. eapply Hnot. reflexivity.
Qed.

(** ** The translation call (background.js) *)

(** The string is empty or starts with a character that [trim] keeps. *)
Lemma trimStart_startsClean (l : list ascii) : startsClean (trimStart l).
Proof.
  induction l as [|c l IH]; cbn [trimStart]; [exact I|].
  destruct (isTrimmed c) eqn:E; [exact IH|exact E].
Qed.

Lemma trimStart_clean (l : list ascii) : startsClean l -> trimStart l = l.
Proof. destruct l as [|c l]; cbn; [reflexivity|]. intros ->. reflexivity. Qed.

Lemma trimStart_split (l : list ascii) : exists w, l = w ++ trimStart l.
Proof.
  induction l as [|c l [w IH]]; [exists []; reflexivity|].
  cbn [trimStart]. destruct (isTrimmed c).
  - exists (c :: w). cbn. f_equal. exact IH.
  - exists []. reflexivity.
Qed.

Lemma trimEnd_startsClean (l : list ascii) :
  startsClean l -> startsClean (rev (trimStart (rev l))).
Proof.
  intros Hl. destruct (trimStart_split (rev l)) as [w Hw].
  assert (E : l = rev (trimStart (rev l)) ++ rev w).
  { rewrite <- rev_app_distr, <- Hw, rev_involutive. reflexivity. }
  destruct (rev (trimStart (rev l))) as [|x r]; [exact I|].
  rewrite E in Hl. exact Hl.
Qed.

Lemma trim_trim (s : string) : trim (trim s) = trim s.
Proof.
  unfold trim. rewrite list_ascii_of_string_of_list_ascii. f_equal.
  pose proof (trimStart_startsClean (list_ascii_of_string s)) as HA.
  remember (trimStart (list_ascii_of_string s)) as A eqn:EA. clear EA.
  rewrite (trimStart_clean _ (trimEnd_startsClean A HA)).
  rewrite rev_involutive.
  rewrite (trimStart_clean _ (trimStart_startsClean (rev A))).
  reflexivity.
Qed.

Lemma trimStart_nil (l : list ascii) :
  trimStart l = [] <-> Forall (fun c => isTrimmed c = true) l.
Proof.
  induction l as [|c l IH]; cbn [trimStart]; [split; auto|].
  destruct (isTrimmed c) eqn:E.
  - rewrite IH. split; [intros H; constructor; assumption|].
    intros H. apply Forall_cons in H. tauto.
  - split; [discriminate|]. intros H. apply Forall_cons in H.
    destruct H as [H _]. congruence.
Qed.

(** [trim] gives the empty string exactly on the strings of white space
    and line terminators, the no-break space among them. *)
Lemma trim_blank (s : string) :
  trim s = EmptyString
  <-> Forall (fun c => isTrimmed c = true) (list_ascii_of_string s).
Proof.
  unfold trim. rewrite <- trimStart_nil.
  remember (list_ascii_of_string s) as l eqn:El. clear El s.
  split.
  - intros H.
    assert (H' : rev (trimStart (rev (trimStart l))) = []).
    { apply (f_equal list_ascii_of_string) in H.
      rewrite list_ascii_of_string_of_list_ascii in H. exact H. }
    pose proof (trimEnd_startsClean _ (trimStart_startsClean l)) as Hc.
    rewrite H' in Hc.
    apply (f_equal (@rev ascii)) in H'. rewrite rev_involutive in H'.
    cbn [rev] in H'. apply trimStart_nil in H'.
    apply List.Forall_rev in H'. rewrite rev_involutive in H'.
    pose proof (trimStart_startsClean l) as Hs.
    destruct (trimStart l) as [|c r]; [reflexivity|].
    apply Forall_cons in H'. destruct H' as [H1 _].
    cbn in Hs. congruence.
  - intros ->. reflexivity.
Qed.

Example trim_nbsp :
  trim (String (ascii_of_nat 160) (String (ascii_of_nat 9) EmptyString))
  = EmptyString
  /\ trim (String (ascii_of_nat 160) " vi ") = "vi".
Proof. split; reflexivity. Qed.

(** X16.  [translateText] returns a translation or throws, and throws in
    four cases only: the [fetch] rejected; a response with a status in
    200..299 had a body that is not JSON; such a response had the body
    [null]; such a response had, at [choices[0].message.content], a value
    that is neither [null] nor a string.  A translation it returns is
    trimmed; it is the trimmed content of the response, or empty (for a
    status outside 200..299, for a body without content, for a content of
    white space only).  On the body that a chat completion has, the
    translation is the trimmed content. *)
Theorem translateText_result (text mode : option string)
    (response : FetchOutcome ChatBody) :
  (match translateText text mode response with
   | inr translated =>
       trim translated = translated
       /\ (translated = EmptyString
           \/ exists status data content,
                response = HttpResponse status (Some data)
                /\ ok status = true
                /\ chatContent data = Some (JString content)
                /\ translated = trim content)
   | inl e =>
       (e = FetchRejected /\ response = NetworkFailure)
       \/ (e = InvalidJson
           /\ exists status, response = HttpResponse status None
                             /\ ok status = true)
       \/ (e = NullBody
           /\ exists status, response = HttpResponse status (Some JNull)
                             /\ ok status = true)
       \/ (e = NotAFunction
           /\ exists status data v,
                response = HttpResponse status (Some data)
                /\ ok status = true
                /\ chatContent data = Some v
                /\ v <> JNull /\ forall s, v <> JString s)
   end)
  /\ (forall status content,
        ok status = true ->
        translateText text mode (HttpResponse status (Some (chatBody content)))
        = inr (trim content)).
Proof.
  split.
  - unfold translateText. destruct response as [|status json]; [auto|].
    destruct (ok status) eqn:Eok; cbn [negb]; [|split; [reflexivity|auto]].
    destruct json as [data|]; [|right; left; eauto].
    assert (Hgen :
      match
        match chatContent data with
        | Some (JString content) =>
            inr (or_else (Some (trim content)) EmptyString)
        | Some JNull | None => inr EmptyString
        | Some _ => inl NotAFunction
        end
      with
      | inr translated =>
          trim translated = translated
          /\ (translated = EmptyString
              \/ exists status0 data0 content,
                   HttpResponse status (Some data)
                   = HttpResponse status0 (Some data0)
                   /\ ok status0 = true
                   /\ chatContent data0 = Some (JString content)
                   /\ translated = trim content)
      | inl e =>
          (e = FetchRejected
           /\ HttpResponse status (Some data) = @NetworkFailure ChatBody)
          \/ (e = InvalidJson
              /\ exists status0,
                   HttpResponse status (Some data) = HttpResponse status0 None
                   /\ ok status0 = true)
          \/ (e = NullBody
              /\ exists status0,
                   HttpResponse status (Some data)
                   = HttpResponse status0 (Some JNull)
                   /\ ok status0 = true)
          \/ (e = NotAFunction
              /\ exists status0 data0 v,
                   HttpResponse status (Some data)
                   = HttpResponse status0 (Some data0)
                   /\ ok status0 = true
                   /\ chatContent data0 = Some v
                   /\ v <> JNull /\ forall s, v <> JString s)
      end).
    { destruct (chatContent data) as [v|] eqn:Ec;
        [|split; [reflexivity|auto]].
      destruct v as [|b|n|content|elements|members];
        try (split; [reflexivity|auto]; fail);
        try (right; right; right; split; [reflexivity|];
             eexists status, data, _;
             repeat split; try eassumption; try discriminate; fail).
      unfold or_else.
      destruct (truthy (Some (trim content))) eqn:Et;
        [|split; [reflexivity|auto]].
      cbn [default from_option id].
      split; [apply trim_trim|]. right. exists status, data, content. auto. }
    destruct data as [|b|n|s|elements|members]; try exact Hgen.
    right; right; left. eauto.
  - intros status content Hok. unfold translateText. rewrite Hok.
    cbn [negb chatBody chatContent]. unfold or_else.
    change (chatContent (chatBody content)) with (Some (JString content)).
    cbn. destruct (String.eqb_spec (trim content) EmptyString) as [->|];
      reflexivity.
Qed.

(** ** The decoder of the audio (background.js) *)

Lemma list_ind_pairs {A} (P : list A -> Prop) :
  P [] -> (forall a, P [a]) -> (forall a b l, P l -> P (a :: b :: l)) ->
  forall l, P l.
Proof.
  intros H0 H1 H2.
  assert (H : forall l, P l /\ forall a, P (a :: l)).
  { induction l as [|x l [IH0 IH1]]; [auto|].
    split; [apply IH1|]. intros a. apply H2, IH0. }
  intros l. apply H.
Qed.

Lemma newInt16Array_Some (hostLE : bool) (bytes : list Z) :
  Forall isByte bytes -> Nat.even (length bytes) = true ->
  exists pcm,
    newInt16Array hostLE bytes = Some pcm
    /\ length bytes = (2 * length pcm)%nat
    /\ bufferOfInt16Array hostLE pcm = bytes.
Proof.
  induction bytes as [|a|a b l IH] using list_ind_pairs; intros Hb Heven.
  - exists []. repeat split.
  - discriminate.
  - apply Forall_cons in Hb as [Ha Hb]. apply Forall_cons in Hb as [Hb Hl].
    destruct (IH Hl Heven) as (pcm & Hpcm & Hlen & Hback).
    cbn [newInt16Array]. rewrite Hpcm.
    eexists. split; [reflexivity|]. split; [cbn [length]; lia|].
    unfold bufferOfInt16Array in *. cbn [flat_map]. rewrite Hback.
    unfold isByte, int16Bytes, int16OfBytes in *.
    destruct hostLE; cbn [hostOrder rev app].
    + destruct (Z.ltb_spec (a + 256 * b) 32768);
        (f_equal; [|f_equal]); Z.div_mod_to_equations; lia.
    + destruct (Z.ltb_spec (b + 256 * a) 32768);
        (f_equal; [|f_equal]); Z.div_mod_to_equations; lia.
Qed.

Lemma newInt16Array_odd (hostLE : bool) (bytes : list Z) :
  Nat.even (length bytes) = false -> newInt16Array hostLE bytes = None.
Proof.
  induction bytes as [|a|a b l IH] using list_ind_pairs; intros Hodd.
  - discriminate.
  - reflexivity.
  - cbn [newInt16Array]. rewrite IH by exact Hodd. reflexivity.
Qed.

Lemma getUint32_chunkSize (dataSize : Z) (data : list Z) :
  0 <= 36 + dataSize < 2 ^ 32 ->
  getUint32 (wavHeader dataSize ++ data) 4 = Some (36 + dataSize).
Proof.
  intros Hsize. unfold getUint32, wavHeader, uint32Bytes.
  cbn [app drop skipn take firstn]. f_equal.
  change (2 ^ 32) with 4294967296 in Hsize.
  Z.div_mod_to_equations. lia.
Qed.

(** X17.  [base64ToBlob] throws in two cases only: [atob] rejects the text, or
    the decoded bytes are odd in number. *)
Theorem base64ToBlob_throws (hostLE : bool) (base64 : string) :
  base64ToBlob hostLE base64 = None
  <-> atob base64 = None
      \/ exists binary,
           atob base64 = Some binary
           /\ Nat.even (length (charCodes binary)) = false.
Proof.
  unfold base64ToBlob.
  destruct (atob base64) as [binary|]; cbn [mbind option_bind];
    [|split; auto].
  destruct (Nat.even (length (charCodes binary))) eqn:Eeven.
  - destruct (newInt16Array_Some hostLE _ (charCodes_bytes binary) Eeven)
      as (pcm & -> & _ & _).
    cbn [mbind option_bind]. rewrite createWavFile_spec.
    split; [discriminate|].
    intros [H|(b & Hb & Hodd)]; [discriminate|].
    inversion Hb; subst b. congruence.
  - rewrite (newInt16Array_odd hostLE _ Eeven). cbn [mbind option_bind].
    split; [|reflexivity]. intros _. right. eauto.
Qed.

(** X18.  What [base64ToBlob] returns is a consistent WAV file around the decoded
    bytes: 44 bytes of header and the decoded bytes' count of data; the
    RIFF tag; a chunk size of the file length less 8; a data size equal to
    the number of decoded bytes; and, on a little-endian host, the decoded
    bytes themselves as data. *)
Theorem base64ToBlob_wav (hostLE : bool) (base64 : string) (wav : list Z) :
  base64ToBlob hostLE base64 = Some wav ->
  Z.of_nat (length wav) < 2 ^ 32 ->
  exists binary,
    atob base64 = Some binary
    /\ length wav = (44 + length (charCodes binary))%nat
    /\ take 4 wav = [82; 73; 70; 70]
    /\ getUint32 wav 4 = Some (Z.of_nat (length wav) - 8)
    /\ getUint32 wav 40 = Some (Z.of_nat (length (charCodes binary)))
    /\ (hostLE = true -> drop 44 wav = charCodes binary).
Proof.
  unfold base64ToBlob. intros Hwav Hsize.
  destruct (atob base64) as [binary|]; [|discriminate].
  cbn [mbind option_bind] in Hwav. exists binary. split; [reflexivity|].
  destruct (Nat.even (length (charCodes binary))) eqn:Eeven;
    [|rewrite (newInt16Array_odd hostLE _ Eeven) in Hwav; discriminate].
  destruct (newInt16Array_Some hostLE _ (charCodes_bytes binary) Eeven)
    as (pcm & Hpcm & Hlen & Hback).
  rewrite Hpcm in Hwav. cbn [mbind option_bind] in Hwav.
  rewrite createWavFile_spec in Hwav.
  assert (Hw : wav = wavHeader (Z.of_nat (length pcm) * 2)
                     ++ flat_map int16Bytes pcm) by congruence.
  clear Hwav.
  assert (Hl : length wav = (44 + length (charCodes binary))%nat).
  { rewrite Hw, length_app, wavHeader_length, flat_map_int16Bytes_length.
    lia. }
  split; [exact Hl|]. rewrite Hl in *.
  split; [rewrite Hw; reflexivity|].
  split; [rewrite Hw, getUint32_chunkSize by lia; f_equal; lia|].
  split; [rewrite Hw, getUint32_header by lia; f_equal; lia|].
  intros ->. rewrite Hw, drop_app_length' by reflexivity. exact Hback.
Qed.

Lemma base64ToBlob_wav_witness :
  exists binary,
    atob "AQD+/w==" = Some binary
    /\ length (default [] (base64ToBlob true "AQD+/w=="))
       = (44 + length (charCodes binary))%nat
    /\ take 4 (default [] (base64ToBlob true "AQD+/w==")) = [82; 73; 70; 70]
    /\ getUint32 (default [] (base64ToBlob true "AQD+/w==")) 4
       = Some (Z.of_nat (length (default [] (base64ToBlob true "AQD+/w=="))) - 8)
    /\ getUint32 (default [] (base64ToBlob true "AQD+/w==")) 40
       = Some (Z.of_nat (length (charCodes binary)))
    /\ (true = true ->
        drop 44 (default [] (base64ToBlob true "AQD+/w==")) = charCodes binary).
Proof.
  apply (base64ToBlob_wav true "AQD+/w=="
           (default [] (base64ToBlob true "AQD+/w=="))).
  - reflexivity.
  - reflexivity.
Defined.

(** *** Base64 of any buffer *)

Lemma btoaCodes_length_exact (l : list Z) :
  length (btoaCodes l) = (4 * ((length l + 2) / 3))%nat.
Proof.
  induction l as [|a|a b|a b c l IH] using list_ind3; try reflexivity.
  cbn [btoaCodes length]. rewrite IH.
  replace (S (S (S (length l))) + 2)%nat with (length l + 2 + 1 * 3)%nat by lia.
  rewrite Nat.div_add by lia. lia.
Qed.

Lemma string_of_list_ascii_length (l : list ascii) :
  String.length (string_of_list_ascii l) = length l.
Proof. induction l as [|c l IH]; cbn; [reflexivity|]. rewrite IH. reflexivity. Qed.

(** X19.  [arrayBufferToBase64] is undone by [atob] on every buffer, of even or
    odd length, and writes four characters for every three bytes or part
    of three. *)
Theorem arrayBufferToBase64_roundtrip (buffer : list Z) :
  Forall isByte buffer ->
  charCodes <$> atob (arrayBufferToBase64 buffer) = Some buffer
  /\ String.length (arrayBufferToBase64 buffer)
     = (4 * ((length buffer + 2) / 3))%nat.
Proof.
  intros Hb. unfold arrayBufferToBase64. split.
  - rewrite atob_btoa. cbn [fmap option_fmap option_map].
    rewrite (charCodes_binaryString _ Hb). reflexivity.
  - unfold btoa. rewrite string_of_list_ascii_length, btoaCodes_length_exact.
    rewrite (charCodes_binaryString _ Hb). reflexivity.
Qed.

Lemma arrayBufferToBase64_roundtrip_witness :
  charCodes <$> atob (arrayBufferToBase64 [77; 97; 110; 0; 255])
  = Some [77; 97; 110; 0; 255]
  /\ String.length (arrayBufferToBase64 [77; 97; 110; 0; 255])
     = (4 * ((5 + 2) / 3))%nat.
Proof.
  apply (arrayBufferToBase64_roundtrip [77; 97; 110; 0; 255]).
  repeat constructor; discriminate.
Defined.

(** ** The session around the capture (content.js) *)

(** *** The timer *)

(** X20.  In a mode other than ["groq"] the timer never discards captured audio:
    a tick either changes nothing and sends nothing (nothing buffered, the
    socket not open, or no video), or it sends the whole buffer, in capture
    order, in one WebSocket message and empties the buffer. *)
Theorem onSendInterval_keeps_audio (hostLE : bool)
    (nowStart nowCheck nowDone : Z) (reply : option Reply) (st : Content) :
  apiMode (currentSettings st) <> "groq" ->
  let r := onSendInterval hostLE nowStart nowCheck nowDone reply st in
  (websocket st <> Some OPEN -> r = (st, []))
  /\ (r = (st, [])
      \/ exists videoTime,
           activeVideo st = Some videoTime
           /\ websocket st = Some OPEN
           /\ r = (set_audioChunks [] st,
                   [WebSocketSend
                      (mkSocketPayload
                         (arrayBufferToBase64
                            (bufferOfInt16Array hostLE
                               (concat (audioChunks st))))
                         (sourceLang (currentSettings st))
                         (targetLang (currentSettings st))
                         (showOriginal (currentSettings st)) videoTime)])).
Proof.
  intros Hmode r. subst r. unfold onSendInterval.
  apply String.eqb_neq in Hmode.
  destruct (audioChunks st) as [|chunk chunks] eqn:Echunks; [auto|].
  rewrite Hmode. cbn [orb].
  destruct (websocket st) as [[| | |]|] eqn:Ews;
    try (split; [reflexivity|left; reflexivity]).
  split; [intros H; congruence|].
  unfold sendAudioChunks. rewrite Echunks.
  destruct (activeVideo st) as [videoTime|]; [|left; reflexivity].
  right. exists videoTime. split; [reflexivity|]. split; [reflexivity|].
  cbn [currentSettings set_audioChunks]. rewrite Hmode.
  unfold sendToLocalBackend. cbn [websocket set_audioChunks currentSettings].
  rewrite Ews. reflexivity.
Qed.

Lemma onSendInterval_keeps_audio_witness :
  let st := mkContent true (Some 0%Q) (Some CLOSED) [[1; -2]] (Some 3000)
              3000 0 0 (mkSettings "auto" "vi" true "local" EmptyString) in
  let r := onSendInterval true 10000 10000 10050 None st in
  (websocket st <> Some OPEN -> r = (st, []))
  /\ (r = (st, [])
      \/ exists videoTime,
           activeVideo st = Some videoTime
           /\ websocket st = Some OPEN
           /\ r = (set_audioChunks [] st,
                   [WebSocketSend
                      (mkSocketPayload
                         (arrayBufferToBase64
                            (bufferOfInt16Array true (concat (audioChunks st))))
                         (sourceLang (currentSettings st))
                         (targetLang (currentSettings st))
                         (showOriginal (currentSettings st)) videoTime)])).
Proof.
  apply (onSendInterval_keeps_audio true 10000 10000 10050 None
           (mkContent true (Some 0%Q) (Some CLOSED) [[1; -2]] (Some 3000)
              3000 0 0 (mkSettings "auto" "vi" true "local" EmptyString))).
  discriminate.
Defined.

(** *** After the session is disabled *)

Lemma onSendInterval_empty (hostLE : bool) (nowStart nowCheck nowDone : Z)
    (reply : option Reply) (st : Content) :
  audioChunks st = [] ->
  onSendInterval hostLE nowStart nowCheck nowDone reply st = (st, []).
Proof. intros H. unfold onSendInterval. rewrite H. reflexivity. Qed.

Lemma set_content_content (pg : Page) : set_content (content pg) pg = pg.
Proof. destruct pg. reflexivity. Qed.

(** A page that is disabled, with nothing buffered and no overlay. *)
Lemma quiet_step (e : PageEvent) (pg : Page) :
  isEnabled (content pg) = false -> audioChunks (content pg) = [] ->
  subtitleOverlay pg = None ->
  e <> Disable ->
  pageStep e pg = (pg, [], []).
Proof.
  intros Hoff Hempty Hover Hdis.
  destruct e as [inputData|hostLE nowStart nowCheck nowDone reply| | |];
    cbn [pageStep]; try congruence.
  - unfold pageAudioProcess, onaudioprocess. rewrite Hoff. cbn [negb].
    rewrite set_content_content. reflexivity.
  - rewrite onSendInterval_empty by exact Hempty. cbn [fst snd].
    rewrite set_content_content. reflexivity.
  - unfold onSeeking, clearOverlay. cbn [subtitleOverlay set_content].
    rewrite Hover. destruct pg as [st a b c o]. cbn in *.
    destruct st. cbn in *. subst. reflexivity.
  - unfold onSourceChanged. rewrite Hoff.
    destruct (activeVideo (content pg)); reflexivity.
Qed.

(** X21.  [disableSubtitles] leaves the session off: not enabled, nothing
    buffered, no socket, no timer, no capture graph and no overlay; and
    whatever audio blocks, timer ticks, seeks or source changes still
    arrive afterwards, nothing is buffered, nothing is sent and the page
    stays as it is. *)
Theorem disableSubtitles_quiet (pg : Page) (es : list PageEvent) :
  let off := (disableSubtitles pg).1 in
  isEnabled (content off) = false
  /\ audioChunks (content off) = []
  /\ websocket (content off) = None
  /\ sendInterval (content off) = None
  /\ (audioProcessor off || mediaStreamSource off || audioContext off) = false
  /\ subtitleOverlay off = None
  /\ (Forall (fun e => e <> Disable) es ->
      runEvents es off = (off, [], [])).
Proof.
  intros off.
  assert (H : isEnabled (content off) = false
              /\ audioChunks (content off) = []
              /\ websocket (content off) = None
              /\ sendInterval (content off) = None
              /\ (audioProcessor off || mediaStreamSource off
                  || audioContext off) = false
              /\ subtitleOverlay off = None).
  { subst off. destruct pg as [[en av ws ch si cd lp la cs] ap ms ac ov].
    destruct ws, si; cbn; repeat split. }
  destruct H as (H1 & H2 & H3 & H4 & H5 & H6).
  repeat (split; [assumption|]).
  intros Hes. unfold runEvents.
  induction Hes as [|e es Hdis _ IH]; [reflexivity|].
  cbn [foldl fst snd]. rewrite (quiet_step e off H1 H2 H6 Hdis).
  cbn [fst snd app]. exact IH.
Qed.

(** *** What every event preserves *)

Lemma runEvents_invariant (I : Page -> Prop) :
  (forall e pg, I pg -> I (pageStep e pg).1.1) ->
  forall es pg, I pg -> I (runEvents es pg).1.1.
Proof.
  intros Hstep es pg Hpg. unfold runEvents.
  assert (H : forall acc : Page * list Effect * list PageEffect,
             I acc.1.1 ->
             I (foldl (fun acc e =>
                         let r := pageStep e acc.1.1 in
                         (r.1.1, acc.1.2 ++ r.1.2, acc.2 ++ r.2)) acc es).1.1).
  { induction es as [|e es IH]; intros acc Hacc; [exact Hacc|].
    cbn [foldl]. apply IH. cbn [fst]. apply Hstep. exact Hacc. }
  apply H. exact Hpg.
Qed.

Lemma isPeriod_initial : isPeriod AUDIO_CHUNK_DURATION_MS.
Proof. split; [unfold AUDIO_CHUNK_DURATION_MS; lia|reflexivity]. Qed.

Lemma isPeriod_up (p : Z) : isPeriod p -> p < 6000 -> isPeriod (Z.min 6000 (p + 500)).
Proof.
  intros [Hr Hm] Hlt. unfold isPeriod.
  assert (p + 500 <= 6000) by (revert Hm; Z.div_mod_to_equations; lia).
  rewrite Z.min_r by lia. split; [lia|].
  revert Hm. Z.div_mod_to_equations. lia.
Qed.

Lemma isPeriod_down (p : Z) : isPeriod p -> 2000 < p -> isPeriod (Z.max 2000 (p - 500)).
Proof.
  intros [Hr Hm] Hlt. unfold isPeriod.
  assert (2000 <= p - 500) by (revert Hm; Z.div_mod_to_equations; lia).
  rewrite Z.max_r by lia. split; [lia|].
  revert Hm. Z.div_mod_to_equations. lia.
Qed.

Lemma adaptChunkSize_periodsOk (processingTime : Z) (st : Content) :
  periodsOk st -> periodsOk (adaptChunkSize processingTime st).
Proof.
  intros [Hp Ht]. unfold adaptChunkSize.
  destruct (_ && (currentChunkDuration st <? 6000)) eqn:Eup.
  - apply andb_true_iff in Eup. destruct Eup as [_ Hlt].
    apply Z.ltb_lt in Hlt.
    split; cbn; apply isPeriod_up; assumption.
  - destruct (_ && (2000 <? currentChunkDuration st)) eqn:Edown.
    + apply andb_true_iff in Edown. destruct Edown as [_ Hlt].
      apply Z.ltb_lt in Hlt.
      split; cbn; apply isPeriod_down; assumption.
    + split; assumption.
Qed.

Lemma sendAudioChunks_periodsOk (hostLE : bool) (nowStart nowCheck nowDone : Z)
    (reply : option Reply) (st : Content) :
  periodsOk st ->
  periodsOk (sendAudioChunks hostLE nowStart nowCheck nowDone reply st).1.
Proof.
  intros Hst. unfold sendAudioChunks.
  destruct (audioChunks st); [exact Hst|].
  destruct (activeVideo st); [|exact Hst].
  assert (Hst' : periodsOk (set_audioChunks [] st)) by exact Hst.
  destruct (String.eqb _ _).
  - unfold sendToGroqAPI. destruct (Qlt_bool _ _); [exact Hst'|].
    destruct reply as [response|]; [|exact Hst'].
    destruct (truthy _); cbn [fst]; apply adaptChunkSize_periodsOk;
      exact Hst'.
  - unfold sendToLocalBackend. destruct (websocket _) as [[| | |]|];
      exact Hst'.
Qed.

Lemma pageStep_periodsOk (e : PageEvent) (pg : Page) :
  periodsOk (content pg) -> periodsOk (content (pageStep e pg).1.1).
Proof.
  intros Hpg.
  destruct e as [inputData|hostLE nowStart nowCheck nowDone reply| | |];
    cbn [pageStep fst].
  - unfold pageAudioProcess, onaudioprocess. cbn [content set_content].
    destruct (negb _); exact Hpg.
  - cbn [content set_content]. unfold onSendInterval.
    destruct (audioChunks (content pg)); [exact Hpg|].
    destruct (_ || _); [|exact Hpg].
    apply sendAudioChunks_periodsOk. exact Hpg.
  - unfold onSeeking, clearOverlay. cbn [subtitleOverlay set_content].
    destruct (subtitleOverlay pg); exact Hpg.
  - unfold onSourceChanged. destruct (activeVideo _); [|exact Hpg].
    destruct (isEnabled _); [|exact Hpg].
    unfold resetTranscriptionState, clearOverlay.
    cbn [subtitleOverlay set_content fst].
    destruct Hpg as [_ Ht].
    destruct (subtitleOverlay pg); (split; [exact isPeriod_initial|exact Ht]).
  - destruct Hpg as [Hp _].
    destruct pg as [[en av ws ch si cd lp la cs] ap ms ac ov].
    destruct ws, si; cbn; (split; [exact Hp|exact I]).
Qed.

(** X22.  Whatever happens in a session (audio blocks, timer ticks with or
    without an answer, seeks, source changes, disabling), the flush period
    and the period of the registered timer stay multiples of 500 ms between
    2000 ms and 6000 ms, once they are. *)
Theorem session_periods (es : list PageEvent) (pg : Page) :
  periodsOk (content pg) ->
  periodsOk (content (runEvents es pg).1.1).
Proof.
  intros Hpg.
  apply (runEvents_invariant (fun pg => periodsOk (content pg))); [|exact Hpg].
  intros e pg' H. apply pageStep_periodsOk. exact H.
Qed.

Lemma encodeSample_isInt16 (x : Q) : isInt16 (encodeSample x).
Proof.
  unfold encodeSample, isInt16.
  destruct (clampSample_cases x) as [[_ Hc]|[[_ Hc]|(Hlo & Hhi & Hc)]];
    rewrite Hc.
  - change (ToInt16 (-32768)%Q) with (-32768). lia.
  - change (ToInt16 32767%Q) with 32767. lia.
  - assert (Hb : -32768 <= Qtrunc (x * 32768) <= 32767).
    { apply Qtrunc_bounds; [lia| |]; apply Qlt_le_weak; assumption. }
    rewrite (ToInt16_in_range _ Hb). exact Hb.
Qed.

Lemma sendAudioChunks_bufferInRange (hostLE : bool)
    (nowStart nowCheck nowDone : Z) (reply : option Reply) (st : Content) :
  bufferInRange st ->
  bufferInRange (sendAudioChunks hostLE nowStart nowCheck nowDone reply st).1.
Proof.
  intros Hst. unfold sendAudioChunks.
  destruct (audioChunks st) eqn:E; [exact Hst|].
  destruct (activeVideo st); [|exact Hst].
  destruct (String.eqb _ _).
  - unfold sendToGroqAPI. destruct (Qlt_bool _ _); [constructor|].
    destruct reply as [response|]; [|constructor].
    assert (H : bufferInRange
                  (adaptChunkSize (nowDone - nowStart)
                     (set_lastProcessingTime (nowDone - nowStart)
                        (set_audioChunks [] st)))).
    { unfold adaptChunkSize.
      destruct (_ && _); [constructor|]. destruct (_ && _); constructor. }
    destruct (truthy _); exact H.
  - unfold sendToLocalBackend. destruct (websocket _) as [[| | |]|];
      constructor.
Qed.

Lemma pageStep_bufferInRange (e : PageEvent) (pg : Page) :
  bufferInRange (content pg) -> bufferInRange (content (pageStep e pg).1.1).
Proof.
  intros Hpg.
  destruct e as [inputData|hostLE nowStart nowCheck nowDone reply| | |];
    cbn [pageStep fst].
  - unfold pageAudioProcess, onaudioprocess. cbn [content set_content].
    destruct (negb _); [exact Hpg|].
    unfold bufferInRange. cbn [audioChunks set_audioChunks].
    apply Forall_app. split; [exact Hpg|].
    constructor; [|constructor].
    induction inputData as [|x inputData IH]; cbn [map]; constructor;
      [apply encodeSample_isInt16|exact IH].
  - cbn [content set_content]. unfold onSendInterval.
    destruct (audioChunks (content pg)) eqn:E; [exact Hpg|].
    destruct (_ || _); [|exact Hpg].
    apply sendAudioChunks_bufferInRange. exact Hpg.
  - unfold onSeeking, clearOverlay. cbn [subtitleOverlay set_content].
    destruct (subtitleOverlay pg); constructor.
  - unfold onSourceChanged. destruct (activeVideo _); [|exact Hpg].
    destruct (isEnabled _); [|exact Hpg].
    unfold resetTranscriptionState, clearOverlay.
    cbn [subtitleOverlay set_content fst].
    destruct (subtitleOverlay pg); constructor.
  - destruct pg as [[en av ws ch si cd lp la cs] ap ms ac ov].
    destruct ws, si; cbn; constructor.
Qed.

(** X23.  Whatever happens in a session, every sample in the capture buffer is a
    signed 16-bit value, once that holds (as it does of the empty buffer): a
    captured block only adds clamped samples, every other event keeps the
    buffer or empties it. *)
Theorem session_buffer_in_range (es : list PageEvent) (pg : Page) :
  bufferInRange (content pg) ->
  bufferInRange (content (runEvents es pg).1.1).
Proof.
  intros Hpg.
  apply (runEvents_invariant (fun pg => bufferInRange (content pg)));
    [|exact Hpg].
  intros e pg' H. apply pageStep_bufferInRange. exact H.
Qed.

Lemma session_periods_witness :
  let pg := mkPage (mkContent true (Some 2%Q) None [] (Some 3000) 3000 0 0
                      defaultSettings) true true true (Some []) in
  let es := [AudioProcess [(1 # 2)%Q; (-2)%Q];
             IntervalTick true 1000 1000 4000
               (Some (mkReply None None (Some "hi") None None None));
             SourceChanged] in
  periodsOk (content (runEvents es pg).1.1).
Proof.
  apply (session_periods
           [AudioProcess [(1 # 2)%Q; (-2)%Q];
            IntervalTick true 1000 1000 4000
              (Some (mkReply None None (Some "hi") None None None));
            SourceChanged]
           (mkPage (mkContent true (Some 2%Q) None [] (Some 3000) 3000 0 0
                      defaultSettings) true true true (Some []))).
  split; (split; [cbn; lia|reflexivity]).
Defined.

Lemma session_buffer_in_range_witness :
  let pg := mkPage (mkContent true (Some 2%Q) None [[7; -32768]] (Some 3000)
                      3000 0 0 defaultSettings) true true true (Some []) in
  let es := [AudioProcess [(1 # 2)%Q; (-2)%Q]; Seeking;
             AudioProcess [(3 # 1)%Q]] in
  bufferInRange (content (runEvents es pg).1.1).
Proof.
  apply (session_buffer_in_range
           [AudioProcess [(1 # 2)%Q; (-2)%Q]; Seeking;
            AudioProcess [(3 # 1)%Q]]
           (mkPage (mkContent true (Some 2%Q) None [[7; -32768]] (Some 3000)
                      3000 0 0 defaultSettings) true true true (Some []))).
  repeat constructor; cbn; lia.
Defined.

(** *** The overlay *)

(** X24.  What [displaySubtitle] shows.  Without an overlay it does nothing.  With
    one, the overlay holds one container of at most two lines, none of them
    empty; no line at all exactly when both texts are empty; a non-empty
    translation is the last line; there are two lines exactly when the
    original is to be shown and both texts are non-empty and differ, and
    then the original is above; without a translation a non-empty original
    is shown alone, styled as a translation.  The session state is not
    touched. *)
Theorem displaySubtitle_lines (original translated : string)
    (showOriginal : bool) (pg : Page) :
  let translatedLine :=
    mkLine "bypass-subtitle-text bypass-subtitle-translated" in
  let originalLine :=
    mkLine "bypass-subtitle-text bypass-subtitle-original" in
  let pg' := displaySubtitle original translated showOriginal pg in
  content pg' = content pg
  /\ match subtitleOverlay pg with
     | None => pg' = pg
     | Some _ =>
         exists lines,
           subtitleOverlay pg' = Some [lines]
           /\ (length lines <= 2)%nat
           /\ Forall (fun l => line_text l <> EmptyString) lines
           /\ (lines = [] <->
               original = EmptyString /\ translated = EmptyString)
           /\ (translated <> EmptyString ->
               last lines = Some (translatedLine translated))
           /\ (length lines = 2%nat <->
               showOriginal = true /\ original <> EmptyString
               /\ translated <> EmptyString /\ original <> translated)
           /\ (length lines = 2%nat ->
               head lines = Some (originalLine original))
           /\ (translated = EmptyString -> original <> EmptyString ->
               lines = [translatedLine original])
     end.
Proof.
  intros translatedLine originalLine pg'. subst pg'.
  unfold displaySubtitle.
  destruct (subtitleOverlay pg) as [children|] eqn:Eov;
    [|split; reflexivity].
  split; [reflexivity|].
  cbn [subtitleOverlay set_subtitleOverlay].
  eexists. split; [reflexivity|].
  destruct (String.eqb_spec original translated) as [Heq|Hne];
    destruct translated as [|b t]; destruct original as [|a o];
    destruct showOriginal; cbn;
    repeat split; try lia; try discriminate; try congruence; auto;
    try (intros; exfalso; intuition congruence);
    try (repeat constructor; discriminate);
    intuition (try discriminate; try congruence).
Qed.

(** *** An answer arrives *)

Lemma displaySubtitle_content (original translated : string)
    (showOriginal : bool) (pg : Page) :
  content (displaySubtitle original translated showOriginal pg) = content pg.
Proof. unfold displaySubtitle. destruct (subtitleOverlay pg); reflexivity. Qed.

Lemma syncSegment_length (hostnameOf : string -> option string)
    (this : DataSyncService.Service) (videoUrl : string)
    (original translated : option string) (sourceLang targetLang now : string)
    (response : FetchOutcome unit) :
  (length (DataSyncService.syncSegment hostnameOf this videoUrl original
             translated sourceLang targetLang now response).2 <= 1)%nat.
Proof.
  unfold DataSyncService.syncSegment.
  destruct (negb _ || negb _); [cbn; lia|].
  destruct (negb (DataSyncService.isWhitelistedSite _ _)); [cbn; lia|].
  destruct (negb (truthy _)); [cbn; lia|].
  destruct response; cbn; lia.
Qed.

(** X25.  What [handleTranscription] leaves alone.  It never changes the session
    state and posts at most one request.  An answer that carries an error,
    or whose texts are both blank, changes nothing at all.  Without an
    active video the store is not written and nothing is posted; without
    the store nothing is posted either, even with a sync service: the sync
    is inside the branch of the store.  Without an overlay the page stays
    as it is. *)
Theorem handleTranscription_guards (sha256Hex : string -> string)
    (hostnameOf : string -> option string) (data : Reply)
    (dataShowOriginal : option bool) (href now1 now2 now3 now4 : string)
    (response : FetchOutcome unit) (pg : Page)
    (store : option SubtitleStore.DB)
    (sync : option DataSyncService.Service) :
  let original :=
    or_else (reply_original data) (or_else (reply_text data) EmptyString) in
  let translated := or_else (reply_translated data) EmptyString in
  let r := handleTranscription sha256Hex hostnameOf data dataShowOriginal
             href now1 now2 now3 now4 response pg store sync in
  content r.1.1 = content pg
  /\ (length r.2 <= 1)%nat
  /\ (truthy (reply_error data) = true -> r = (pg, store, []))
  /\ (trim original = EmptyString -> trim translated = EmptyString ->
      r = (pg, store, []))
  /\ (activeVideo (content pg) = None -> r.1.2 = store /\ r.2 = [])
  /\ (store = None -> r.1.2 = None /\ r.2 = [])
  /\ (subtitleOverlay pg = None -> r.1.1 = pg).
Proof.
  intros original translated r. subst r. unfold handleTranscription.
  destruct (truthy (reply_error data)) eqn:Eerr.
  { cbn. repeat split; try lia; try congruence. }
  fold original translated.
  destruct (truthy (Some (trim original)) || truthy (Some (trim translated)))
    eqn:Etext.
  - rewrite displaySubtitle_content.
    assert (Hov : subtitleOverlay pg = None ->
                  displaySubtitle original translated
                    (negb (bool_decide (dataShowOriginal = Some false))
                     && showOriginal (currentSettings (content pg))) pg = pg).
    { intros H. unfold displaySubtitle. rewrite H. reflexivity. }
    assert (Hblank : trim original = EmptyString ->
                     trim translated = EmptyString -> False).
    { intros H1 H2. rewrite H1, H2 in Etext. discriminate. }
    assert (Hlen : forall service,
               (length (DataSyncService.syncSegment hostnameOf service href
                          (Some original) (Some translated)
                          (or_else
                             (Some (sourceLang (currentSettings (content pg))))
                             "auto")
                          (targetLang (currentSettings (content pg))) now4
                          response).2 <= 1)%nat)
      by (intros; apply syncSegment_length).
    destruct (activeVideo (content pg)) as [videoTime|];
      [destruct store as [db|]; [destruct sync as [service|]|]|];
      cbn [fst snd]; rewrite ?displaySubtitle_content;
      repeat match goal with |- _ /\ _ => split end;
      intros; try reflexivity; try (cbn; lia); try discriminate;
      try (exfalso; auto; fail); try (apply Hov; assumption);
      try apply Hlen; try (split; [assumption || reflexivity|reflexivity]).
  - cbn. repeat split; try lia; try congruence.
Qed.

(** X26.  An answer with text for an active video at a time [videoTime >= 0], on
    a page whose URL has no cached segment yet: afterwards the store has a
    cache for the URL; the segment found at [videoTime] runs from
    [max(0, videoTime - 3)] to [videoTime] and holds the original text; and
    when the target language is one of the ten supported, the translation
    read back for it is the translated text, [null] if that is empty; when
    it is not, the segment has no entry for it: the translation is not
    cached. *)
Theorem handleTranscription_cached (sha256Hex : string -> string)
    (hostnameOf : string -> option string) (data : Reply)
    (dataShowOriginal : option bool) (href now1 now2 now3 now4 : string)
    (response : FetchOutcome unit) (pg : Page) (db : SubtitleStore.DB)
    (sync : option DataSyncService.Service) (videoTime : Q) :
  let original :=
    or_else (reply_original data) (or_else (reply_text data) EmptyString) in
  let translated := or_else (reply_translated data) EmptyString in
  let lang := targetLang (currentSettings (content pg)) in
  truthy (reply_error data) = false ->
  trim original <> EmptyString \/ trim translated <> EmptyString ->
  activeVideo (content pg) = Some videoTime ->
  (0 <= videoTime)%Q ->
  SubtitleStore.segmentsOf sha256Hex href db = [] ->
  exists db' segment,
    (handleTranscription sha256Hex hostnameOf data dataShowOriginal href
       now1 now2 now3 now4 response pg (Some db) sync).1.2 = Some db'
    /\ SubtitleStore.hasCache sha256Hex href db' = true
    /\ SubtitleStore.getSegmentAtTime sha256Hex href videoTime db'
       = Some segment
    /\ SubtitleStore.startTime segment = Qmax 0 (videoTime - 3)
    /\ SubtitleStore.endTime segment = videoTime
    /\ SubtitleStore.original segment = original
    /\ (lang ∈ SubtitleStore.SUPPORTED_LANGUAGES ->
        SubtitleStore.getTranslation sha256Hex href videoTime lang db'
        = SubtitleStore.orNull (Some translated))
    /\ (lang ∉ SubtitleStore.SUPPORTED_LANGUAGES ->
        SubtitleStore.translations segment !! lang = None).
Proof.
  intros original translated lang Herr Htext Hvideo Htime Hnone.
  unfold handleTranscription. rewrite Herr. fold original translated.
  assert (Etext : truthy (Some (trim original))
                  || truthy (Some (trim translated)) = true).
  { apply orb_true_iff.
    destruct Htext as [H|H]; [left|right]; apply truthy_Some; exact H. }
  rewrite Etext, displaySubtitle_content, Hvideo. cbn [fst snd].
  fold lang.
  destruct (saveSegment_fresh sha256Hex href
              (Qmax 0 (videoTime - 3)) videoTime original
              (or_else (Some (sourceLang (currentSettings (content pg))))
                 "auto")
              {[ lang := Some translated ]}
              (SubtitleStore.mkMetadata None (Some "whisper-large-v3")
                 None None)
              now1 now2 now3 db Hnone)
    as (Hsegs & Hstart & Hend & Horig & Htrans & _).
  eexists. eexists. split; [reflexivity|].
  assert (Hfind : SubtitleStore.getSegmentAtTime sha256Hex href videoTime
                    (SubtitleStore.saveSegment sha256Hex href
                       (Qmax 0 (videoTime - 3)) videoTime original
                       (or_else
                          (Some (sourceLang (currentSettings (content pg))))
                          "auto")
                       {[ lang := Some translated ]}
                       (SubtitleStore.mkMetadata None
                          (Some "whisper-large-v3") None None)
                       now1 now2 now3 db).1
                  = Some (SubtitleStore.saveSegment sha256Hex href
                            (Qmax 0 (videoTime - 3)) videoTime original
                            (or_else
                               (Some
                                  (sourceLang (currentSettings (content pg))))
                               "auto")
                            {[ lang := Some translated ]}
                            (SubtitleStore.mkMetadata None
                               (Some "whisper-large-v3") None None)
                            now1 now2 now3 db).2).
  { unfold SubtitleStore.getSegmentAtTime. rewrite Hsegs.
    cbn [List.find]. rewrite Hstart, Hend.
    assert (H1 : Qle_bool (Qmax 0 (videoTime - 3)) videoTime = true).
    { apply Qle_bool_iff. apply Q.max_lub; [exact Htime|].
      rewrite <- (Qplus_0_r videoTime) at 2. unfold Qminus.
      apply Qplus_le_compat; [apply Qle_refl|discriminate]. }
    assert (H2 : Qle_bool videoTime videoTime = true).
    { apply Qle_bool_iff. apply Qle_refl. }
    rewrite H1, H2. reflexivity. }
  split; [unfold SubtitleStore.hasCache; rewrite Hsegs; reflexivity|].
  split; [exact Hfind|].
  split; [exact Hstart|]. split; [exact Hend|]. split; [exact Horig|].
  split.
  - intros Hlang. unfold SubtitleStore.getTranslation. rewrite Hfind, Htrans.
    unfold SubtitleStore.getProperty at 1.
    rewrite buildTranslations_lookup, decide_True by exact Hlang.
    cbn [mjoin option_join]. unfold SubtitleStore.getProperty.
    rewrite lookup_singleton_eq. cbn [mjoin option_join].
    apply orNull_orNull.
  - intros Hlang. rewrite Htrans, buildTranslations_lookup.
    rewrite decide_False by exact Hlang. reflexivity.
Qed.

Lemma handleTranscription_cached_witness :
  let pg := mkPage (mkContent true (Some 5%Q) None [] (Some 3000) 3000 0 0
                      defaultSettings) true true true (Some []) in
  let data := mkReply None None (Some "hello") None (Some "xin chao") None in
  exists db' segment,
    (handleTranscription (fun s => s) urlHostname data None sampleUrl
       "t1" "t2" "t3" "t4" NetworkFailure pg (Some SubtitleStore.emptyDB)
       None).1.2 = Some db'
    /\ SubtitleStore.hasCache (fun s => s) sampleUrl db' = true
    /\ SubtitleStore.getSegmentAtTime (fun s => s) sampleUrl 5 db'
       = Some segment
    /\ SubtitleStore.startTime segment = Qmax 0 (5 - 3)
    /\ SubtitleStore.endTime segment = 5%Q
    /\ SubtitleStore.original segment = "hello"
    /\ ("vi" ∈ SubtitleStore.SUPPORTED_LANGUAGES ->
        SubtitleStore.getTranslation (fun s => s) sampleUrl 5 "vi" db'
        = SubtitleStore.orNull (Some "xin chao"))
    /\ ("vi" ∉ SubtitleStore.SUPPORTED_LANGUAGES ->
        SubtitleStore.translations segment !! "vi" = None).
Proof.
  apply (handleTranscription_cached (fun s => s) urlHostname
           (mkReply None None (Some "hello") None (Some "xin chao") None)
           None sampleUrl "t1" "t2" "t3" "t4" NetworkFailure
           (mkPage (mkContent true (Some 5%Q) None [] (Some 3000) 3000 0 0
                      defaultSettings) true true true (Some []))
           SubtitleStore.emptyDB None 5%Q).
  - reflexivity.
  - left. vm_compute. discriminate.
  - reflexivity.
  - discriminate.
  - reflexivity.
Defined.

(** *** From the capture buffer to the WAV file *)

Lemma base64ToBlob_encoded (hostLE : bool) (samples : list Z) :
  Forall isInt16 samples ->
  base64ToBlob hostLE (arrayBufferToBase64 (bufferOfInt16Array hostLE samples))
  = Some (wavHeader (Z.of_nat (length samples) * 2)
          ++ flat_map int16Bytes samples).
Proof.
  intros Hsamples. unfold base64ToBlob, arrayBufferToBase64.
  rewrite atob_btoa. cbn [mbind option_bind].
  rewrite (charCodes_binaryString _ (bufferOfInt16Array_bytes hostLE samples)).
  rewrite (newInt16Array_bufferOfInt16Array hostLE samples Hsamples).
  apply createWavFile_spec.
Qed.

(** X27.  A flush makes at most one network call, and the audio that call
    carries, to the background script or over the socket, is decoded by
    [base64ToBlob] on the same host into a WAV file whose data are exactly
    the buffered samples, in capture order, two bytes each, low byte first
    -- provided the buffered samples are 16-bit values, as the capture
    keeps them. *)
Theorem sendAudioChunks_audio_decodes (hostLE : bool)
    (nowStart nowCheck nowDone : Z) (reply : option Reply) (st : Content) :
  bufferInRange st ->
  let samples := concat (audioChunks st) in
  let effects :=
    (sendAudioChunks hostLE nowStart nowCheck nowDone reply st).2 in
  (length (networkCalls effects) <= 1)%nat
  /\ Forall
       (fun e =>
          forall audio, audioOf e = Some audio ->
            exists wav,
              base64ToBlob hostLE audio = Some wav
              /\ length wav = (44 + 2 * length samples)%nat
              /\ drop 44 wav = flat_map int16Bytes samples
              /\ newInt16Array true (drop 44 wav) = Some samples)
       effects.
Proof.
  intros Hst samples effects.
  assert (Hsamples : Forall isInt16 samples)
    by (apply Forall_concat; exact Hst).
  assert (Hdec : exists wav,
             base64ToBlob hostLE
               (arrayBufferToBase64 (bufferOfInt16Array hostLE samples))
             = Some wav
             /\ length wav = (44 + 2 * length samples)%nat
             /\ drop 44 wav = flat_map int16Bytes samples
             /\ newInt16Array true (drop 44 wav) = Some samples).
  { eexists. split; [apply base64ToBlob_encoded; exact Hsamples|].
    assert (Hdrop : drop 44 (wavHeader (Z.of_nat (length samples) * 2)
                             ++ flat_map int16Bytes samples)
                    = flat_map int16Bytes samples)
      by (apply drop_app_length'; reflexivity).
    split; [|split; [exact Hdrop|]].
    - rewrite length_app, wavHeader_length, flat_map_int16Bytes_length.
      reflexivity.
    - rewrite Hdrop.
      apply (newInt16Array_bufferOfInt16Array true samples Hsamples). }
  subst effects. unfold sendAudioChunks. fold samples.
  destruct (audioChunks st) as [|chunk chunks];
    [split; [cbn; lia|constructor]|].
  destruct (activeVideo st) as [videoTime|];
    [|split; [cbn; lia|constructor]].
  destruct (String.eqb _ _).
  - unfold sendToGroqAPI. destruct (Qlt_bool _ _);
      [split; [cbn; lia|constructor]|].
    destruct reply as [response|]; [destruct (truthy _)|];
      (split; [cbn; lia|]);
      repeat constructor; cbn [audioOf tr_audio]; intros audio Haudio;
      try discriminate; inversion Haudio; subst audio; exact Hdec.
  - unfold sendToLocalBackend.
    destruct (websocket _) as [[| | |]|];
      (split; [cbn; lia|]);
      repeat constructor; cbn [audioOf sp_audio]; intros audio Haudio;
      inversion Haudio; subst audio; exact Hdec.
Qed.

Lemma sendAudioChunks_audio_decodes_witness :
  let st := mkContent true (Some 9%Q) None [[1; -2]; [32767; -32768]]
              (Some 3000) 3000 0 0 defaultSettings in
  let samples := concat (audioChunks st) in
  let effects := (sendAudioChunks false 10000 10000 10050 None st).2 in
  (length (networkCalls effects) <= 1)%nat
  /\ Forall
       (fun e =>
          forall audio, audioOf e = Some audio ->
            exists wav,
              base64ToBlob false audio = Some wav
              /\ length wav = (44 + 2 * length samples)%nat
              /\ drop 44 wav = flat_map int16Bytes samples
              /\ newInt16Array true (drop 44 wav) = Some samples)
       effects.
Proof.
  apply (sendAudioChunks_audio_decodes false 10000 10000 10050 None
           (mkContent true (Some 9%Q) None [[1; -2]; [32767; -32768]]
              (Some 3000) 3000 0 0 defaultSettings)).
  repeat constructor; discriminate.
Defined.
